(** * Spatio-temporal exploration episode generator

    A shallow embedding of
    [frontier_exploration/st_exploration_episode_generator.py]:
    the episode buffer ([ExplorationData]), the content-addressed map store
    ([hash_2d_binary_array], [save_map]) and the episode persister
    ([STEpisodeGenerator._save_last_episode], [_reset], [get_observation]).

    Conventions of the embedding:
    - paths are lists of components, root first ([os.path.join] is [++]);
    - the file system is a finite map from paths to nodes;
    - Python methods are computations in a small state/exception monad whose
      state is the object [self] and whose world is the file system, the
      log of encoder calls and standard output;
    - numpy arrays are a shape together with the row-major element buffer. *)

From Stdlib Require Import ZArith NArith List String Ascii Lia Bool PrimFloat.
From Stdlib Require Import DecimalString DecimalN DecimalZ DecimalFacts.
From stdpp Require Import base option list strings gmap fin_maps.

Import ListNotations.
Local Open Scope string_scope.
Local Open Scope list_scope.
Local Open Scope Z_scope.

(* ===================================================================== *)
(** ** SHA-256 (FIPS 180-4), what [hashlib.sha256] computes               *)
(* ===================================================================== *)

Module Sha256.

Definition mask32 : Z := 0xFFFFFFFF.
Definition w32 (x : Z) : Z := Z.land x mask32.
Definition add32 (x y : Z) : Z := w32 (x + y).
Definition rotr (n x : Z) : Z :=
  Z.lor (Z.shiftr x n) (w32 (Z.shiftl x (32 - n))).
Definition not32 (x : Z) : Z := Z.lxor x mask32.

Definition ch (x y z : Z) : Z := Z.lxor (Z.land x y) (Z.land (not32 x) z).
Definition maj (x y z : Z) : Z :=
  Z.lxor (Z.lxor (Z.land x y) (Z.land x z)) (Z.land y z).
Definition bsig0 (x : Z) : Z := Z.lxor (Z.lxor (rotr 2 x) (rotr 13 x)) (rotr 22 x).
Definition bsig1 (x : Z) : Z := Z.lxor (Z.lxor (rotr 6 x) (rotr 11 x)) (rotr 25 x).
Definition ssig0 (x : Z) : Z := Z.lxor (Z.lxor (rotr 7 x) (rotr 18 x)) (Z.shiftr x 3).
Definition ssig1 (x : Z) : Z := Z.lxor (Z.lxor (rotr 17 x) (rotr 19 x)) (Z.shiftr x 10).

(** The first 64 primes, by trial division. *)
Definition is_prime (n : nat) : bool :=
  forallb (fun d => negb (n mod d =? 0)%nat) (seq 2 (n - 2)).

Definition primes : list Z :=
  map Z.of_nat (List.filter is_prime (seq 2 310)).

(** Integer cube root, one bit at a time from bit [i - 1] down. *)
Fixpoint cube_root_bits (i : nat) (x r : Z) : Z :=
  match i with
  | O => r
  | S i' =>
      let c := r + 2 ^ Z.of_nat i' in
      cube_root_bits i' x (if c * c * c <=? x then c else r)
  end.

(** The first 32 bits of the fractional part of the cube root, and of the
    square root, of [p]. *)
Definition frac_cube_root (p : Z) : Z := w32 (cube_root_bits 36 (p * 2 ^ 96) 0).
Definition frac_square_root (p : Z) : Z := w32 (Z.sqrt (p * 2 ^ 64)).

(** The round constants: the fractional parts of the cube roots of the
    first 64 primes. *)
Definition round_constants : list Z :=
  Eval vm_compute in map frac_cube_root primes.

(** The eight working words. *)
Record regs := Regs {
  ra : Z; rb : Z; rc : Z; rd : Z; re : Z; rf : Z; rg : Z; rh : Z }.

(** The initial hash value: the fractional parts of the square roots of
    the first 8 primes. *)
Definition initial_hash : regs :=
  Eval vm_compute in
    match map frac_square_root (firstn 8 primes) with
    | [a; b; c; d; e; f; g; h] => Regs a b c d e f g h
    | _ => Regs 0 0 0 0 0 0 0 0
    end.

(** Padding: the byte 0x80, zero bytes up to 56 mod 64, then the bit
    length as a 64-bit big-endian integer. *)
Fixpoint be_bytes (n : nat) (x : Z) : list Z :=
  match n with
  | O => []
  | S n' => Z.land (Z.shiftr x (8 * Z.of_nat n')) 0xFF :: be_bytes n' x
  end.

Definition pad (msg : list Z) : list Z :=
  let len := Z.of_nat (length msg) in
  let zeros := Z.to_nat ((55 - len) mod 64) in
  msg ++ [0x80] ++ repeat 0 zeros ++ be_bytes 8 (8 * len).

(** Big-endian 32-bit words of a byte string (a trailing partial word is
    dropped; a padded message has none). *)
Fixpoint words_of_bytes (bs : list Z) : list Z :=
  match bs with
  | b0 :: b1 :: b2 :: b3 :: rest =>
      Z.lor (Z.shiftl b0 24) (Z.lor (Z.shiftl b1 16) (Z.lor (Z.shiftl b2 8) b3))
      :: words_of_bytes rest
  | _ => []
  end.

(** Message schedule, kept newest word first. *)
Fixpoint extend_schedule (n : nat) (rev_w : list Z) : list Z :=
  match n with
  | O => rev_w
  | S n' =>
      let wt := add32 (add32 (add32 (ssig1 (nth 1 rev_w 0)) (nth 6 rev_w 0))
                             (ssig0 (nth 14 rev_w 0)))
                      (nth 15 rev_w 0) in
      extend_schedule n' (wt :: rev_w)
  end.

Definition schedule (block : list Z) : list Z :=
  rev (extend_schedule 48 (rev block)).

Definition round (r : regs) (kw : Z * Z) : regs :=
  let t1 := add32 (add32 (add32 (add32 (rh r) (bsig1 (re r)))
                                (ch (re r) (rf r) (rg r)))
                         (fst kw))
                  (snd kw) in
  let t2 := add32 (bsig0 (ra r)) (maj (ra r) (rb r) (rc r)) in
  Regs (add32 t1 t2) (ra r) (rb r) (rc r) (add32 (rd r) t1) (re r) (rf r) (rg r).

Definition compress (h : regs) (block : list Z) : regs :=
  let r := fold_left round (combine round_constants (schedule block)) h in
  Regs (add32 (ra h) (ra r)) (add32 (rb h) (rb r))
       (add32 (rc h) (rc r)) (add32 (rd h) (rd r))
       (add32 (re h) (re r)) (add32 (rf h) (rf r))
       (add32 (rg h) (rg r)) (add32 (rh h) (rh r)).

(** Process the word stream sixteen words at a time. *)
Fixpoint process (fuel : nat) (ws : list Z) (h : regs) : regs :=
  match fuel with
  | O => h
  | S fuel' =>
      match ws with
      | [] => h
      | _ => process fuel' (skipn 16 ws) (compress h (firstn 16 ws))
      end
  end.

Definition digest (msg : list Z) : regs :=
  let ws := words_of_bytes (pad msg) in
  process (length ws) ws initial_hash.

Definition hex_char (x : Z) : ascii :=
  let d := Z.land x 0xF in
  ascii_of_N (Z.to_N (if d <? 10 then 48 + d else 87 + d)).

Definition hex_word (x : Z) (k : string) : string :=
  String (hex_char (Z.shiftr x 28)) (String (hex_char (Z.shiftr x 24))
 (String (hex_char (Z.shiftr x 20)) (String (hex_char (Z.shiftr x 16))
 (String (hex_char (Z.shiftr x 12)) (String (hex_char (Z.shiftr x 8))
 (String (hex_char (Z.shiftr x 4))  (String (hex_char x) k))))))).

Definition hex_of_regs (r : regs) : string :=
  hex_word (ra r) (hex_word (rb r) (hex_word (rc r) (hex_word (rd r)
 (hex_word (re r) (hex_word (rf r) (hex_word (rg r) (hex_word (rh r) ""))))))).

(** [hashlib.sha256(); update(msg); hexdigest()] *)
Definition hexdigest (msg : list Z) : string := hex_of_regs (digest msg).

End Sha256.


(* ===================================================================== *)
(** ** Python and numpy values                                            *)
(* ===================================================================== *)

(** [str(n)] for a non-negative [int], and for any [int]. *)
Definition str_of_N (n : N) : string := NilZero.string_of_uint (N.to_uint n).
Definition str_of_Z (z : Z) : string := NilZero.string_of_int (Z.to_int z).
Definition str_of_nat (n : nat) : string := str_of_N (N.of_nat n).

(** Character classes of the strings the program builds. *)
Fixpoint all_chars (P : ascii -> bool) (s : string) : bool :=
  match s with
  | EmptyString => true
  | String c s' => P c && all_chars P s'
  end.

Definition is_digit (c : ascii) : bool :=
  let n := N_of_ascii c in ((48 <=? n) && (n <=? 57))%N.

Definition is_hex_digit (c : ascii) : bool :=
  let n := N_of_ascii c in
  (((48 <=? n) && (n <=? 57)) || ((97 <=? n) && (n <=? 102)))%N.

Definition not_underscore (c : ascii) : bool := negb (Ascii.eqb c "_").

(** [s.endswith(suffix)] *)
Definition endswith (s suffix : string) : bool :=
  bool_decide (list_ascii_of_string suffix `suffix_of` list_ascii_of_string s).

(** A C-contiguous numpy array: its shape and its elements in row-major
    order. *)
Record ndarray (A : Type) := NdArray { shape : list N; buffer : list A }.
Arguments NdArray {A} shape buffer.
Arguments shape {A} _.
Arguments buffer {A} _.

(** The number of elements announced by a shape. *)
Definition shape_size (shp : list N) : nat :=
  N.to_nat (fold_right N.mul 1%N shp).

(** The invariant of every numpy array. *)
Definition well_shaped {A} (a : ndarray A) : Prop :=
  length (buffer a) = shape_size (shape a).

(** [arr.flatten()]: a one-dimensional copy in row-major order. *)
Definition flatten {A} (a : ndarray A) : list A := buffer a.

(** [.tobytes()] of a boolean buffer: [np.bool_] takes one byte per
    element, 0x01 for [True] and 0x00 for [False]. *)
Definition tobytes (bits : list bool) : list Z :=
  map (fun b : bool => if b then 1 else 0) bits.

(** [np.packbits]: the flattened truth values, eight per byte, most
    significant bit first, the last byte padded with zero bits. *)
Definition pack_byte (bits : list bool) : Z :=
  fold_left (fun acc (b : bool) => 2 * acc + (if b then 1 else 0))
            (firstn 8 (bits ++ repeat false 8)) 0.

Fixpoint packbits (bits : list bool) : list Z :=
  match bits with
  | [] => []
  | _ :: _ :: _ :: _ :: _ :: _ :: _ :: _ :: rest =>
      pack_byte bits :: packbits rest
  | _ => [pack_byte bits]
  end.

(** [np.unpackbits]: the inverse view, eight truth values per byte, most
    significant bit first. *)
Definition unpack_byte (b : Z) : list bool :=
  map (Z.testbit b) [7; 6; 5; 4; 3; 2; 1; 0].

Definition unpackbits (bytes : list Z) : list bool :=
  concat (map unpack_byte bytes).

(** Reading a packed map back with the shape it was packed from:
    [np.unpackbits(packed, count=H*W).reshape(shape)]. *)
Definition unpack_with_shape (shp : list N) (packed : list Z) : ndarray bool :=
  NdArray shp (firstn (shape_size shp) (unpackbits packed)).

(** An RGB frame: an array of 8-bit channel values. *)
Definition rgb_image : Type := ndarray Z.

(** Episode identifiers are ints or strings. *)
Inductive py_id := IdInt (z : Z) | IdStr (s : string).

Definition str_of_id (i : py_id) : string :=
  match i with IdInt z => str_of_Z z | IdStr s => s end.

(** What [json.dump] is given. *)
#[local] Unset Elimination Schemes.
Inductive json :=
| JNull
| JInt (z : Z)
| JFloat (x : float)
| JStr (s : string)
| JList (items : list json)
| JDict (fields : list (string * json)).
#[local] Set Elimination Schemes.

(* ===================================================================== *)
(** ** Paths, the file system and the world                               *)
(* ===================================================================== *)

(** A path is its list of components; [[]] is the directory all paths are
    relative to, which always exists.  A string of the program stands for
    the path of its components; [os.path.join] with a string that is one
    name ([is_name], below) adds that name as the last component. *)
Definition path : Type := list string.

Definition path_str (p : path) : string := String.concat "/" p.
Definition dirname (p : path) : path := removelast p.

Inductive content :=
| Npy (packed : list Z)
| Json (doc : json)
| Mp4 (frames : list rgb_image).

Inductive node := Dir | File (c : content).

#[global] Instance node_is_dir_dec (n : node) : Decision (n = Dir).
Proof. destruct n; [left; reflexivity | right; discriminate]. Defined.

(** Observable effects, oldest first. *)
Inductive event :=
| Print (line : string)
| NpSave (p : path) (packed : list Z)
| JsonDump (p : path) (doc : json)
| ImagesToVideo (frames : list rgb_image) (p : path).

Record world := World { files : gmap path node; trace : list event }.

Definition node_at (fs : gmap path node) (p : path) : option node :=
  match p with [] => Some Dir | _ => fs !! p end.

Definition exists_at (fs : gmap path node) (p : path) : bool :=
  match node_at fs p with Some _ => true | None => false end.
Definition isdir_at (fs : gmap path node) (p : path) : bool :=
  match node_at fs p with Some Dir => true | _ => false end.
Definition isfile_at (fs : gmap path node) (p : path) : bool :=
  match node_at fs p with Some (File _) => true | _ => false end.

(** What [os.path.exists] answers: the empty string is the name of
    nothing, any other path is looked up. *)
Definition path_exists (fs : gmap path node) (p : path) : bool :=
  match p with [] => false | _ => exists_at fs p end.

(** [os.mkdir]: the name must be free and its parent a directory. *)
Definition mkdir_at (fs : gmap path node) (p : path) : option (gmap path node) :=
  if exists_at fs p then None
  else if isdir_at fs (dirname p) then Some (<[p := Dir]> fs)
  else None.

(** [os.makedirs(name, exist_ok=...)], on the reversed component list so
    that the recursion on [head] is structural.  [inl] is normal return,
    [inr] an [OSError]; both carry the directories created so far. *)
Fixpoint makedirs_at (exist_ok : bool) (rname : list string)
    (fs : gmap path node) : gmap path node + gmap path node :=
  match rname with
  | [] => inr fs
  | _ :: rhead =>
      let after_head :=
        match rhead with
        | [] => inl fs
        | _ => if exists_at fs (rev rhead) then inl fs
               else makedirs_at exist_ok rhead fs
        end in
      match after_head with
      | inr fs1 => inr fs1
      | inl fs1 =>
          match mkdir_at fs1 (rev rname) with
          | Some fs2 => inl fs2
          | None =>
              if negb exist_ok || negb (isdir_at fs1 (rev rname))
              then inr fs1 else inl fs1
          end
      end
  end.

(** What is allowed to happen to the tree while directories are made:
    free names may become directories, nothing else changes. *)
Definition only_adds_dirs (fs fs' : gmap path node) : Prop :=
  forall q : path,
    fs' !! q = fs !! q \/ (fs !! q = None /\ fs' !! q = Some Dir).

(** [open(p, "w")] followed by writing [c] and closing: the parent must be
    a directory and [p] itself must not be one. *)
Definition write_at (fs : gmap path node) (p : path) (c : content)
    : option (gmap path node) :=
  if isdir_at fs (dirname p) && negb (isdir_at fs p)
  then Some (<[p := File c]> fs) else None.

(** [glob.has_magic]: does the string hold one of the characters [*],
    [?] and [[], which make [glob] read a name as a pattern? *)
Definition is_magic_char (c : ascii) : bool :=
  Ascii.eqb c "*" || Ascii.eqb c "?" || Ascii.eqb c "[".

Definition has_magic (s : string) : bool :=
  negb (all_chars (fun c => negb (is_magic_char c)) s).

(** A string that [os.path.join] and the file system take as one
    component of a path: not empty, not [.] or [..], without [/] and
    without the NUL character. *)
Definition is_name (s : string) : bool :=
  negb (String.eqb s "") && negb (String.eqb s ".") && negb (String.eqb s "..")
  && all_chars (fun c => negb (Ascii.eqb c "/") && negb (Ascii.eqb c "000")) s.

(** A path made of names that [glob] takes literally. *)
Definition literal_path (p : path) : bool :=
  forallb (fun s => is_name s && negb (has_magic s)) p.

(** Names that the pattern [*] matches: those not starting with a dot. *)
Definition star_matches (name : string) : bool :=
  match name with
  | String c _ => negb (Ascii.eqb c ".")
  | EmptyString => true
  end.

(** Is the entry [(p, n)] a match of [os.path.join(d, "*/")]: a
    directory directly under [d] with a name matched by [*]. *)
Definition matches_star_slash (d : path) (entry : path * node) : bool :=
  match last (entry.1) with
  | Some name =>
      bool_decide (dirname (entry.1) = d) && star_matches name
      && bool_decide (entry.2 = Dir)
  | None => false
  end.

(** [glob.glob(os.path.join(d, "*/"))] for a directory [d] that [glob]
    takes literally ([literal_path]): the directories directly under [d]
    whose names [*] matches. *)
Definition glob_star_slash (fs : gmap path node) (d : path) : list path :=
  if isdir_at fs d
  then (map_to_list (filter (fun e => matches_star_slash d e = true) fs)).*1
  else [].

(* ===================================================================== *)
(** ** The monad of methods                                               *)
(* ===================================================================== *)

Inductive exn := AssertionError | OSError.

(** How a call ends: normally, by an exception that nobody catches, or
    in [quit()].  Each carries [self] and the world as they are then. *)
Inductive outcome (Self A : Type) :=
| Ok (a : A) (self : Self) (w : world)
| Raise (e : exn) (self : Self) (w : world)
| Exit (self : Self) (w : world).
Arguments Ok {Self A} a self w.
Arguments Raise {Self A} e self w.
Arguments Exit {Self A} self w.

Definition M (Self A : Type) : Type := Self -> world -> outcome Self A.

Definition final_world {Self A} (o : outcome Self A) : world :=
  match o with Ok _ _ w | Raise _ _ w | Exit _ w => w end.
Definition final_self {Self A} (o : outcome Self A) : Self :=
  match o with Ok _ s _ | Raise _ s _ | Exit s _ => s end.
Definition is_ok {Self A} (o : outcome Self A) : bool :=
  match o with Ok _ _ _ => true | _ => false end.
Definition is_exit {Self A} (o : outcome Self A) : bool :=
  match o with Exit _ _ => true | _ => false end.

(** Did the call end in an [AssertionError]? *)
Definition failed_assertion {Self A} (o : outcome Self A) : bool :=
  match o with Raise AssertionError _ _ => true | _ => false end.

Section Primitives.
Context {Self : Type}.

Definition ret {A} (a : A) : M Self A := fun self w => Ok a self w.

Definition bind {A B} (m : M Self A) (k : A -> M Self B) : M Self B :=
  fun self w =>
    match m self w with
    | Ok a self' w' => k a self' w'
    | Raise e self' w' => Raise e self' w'
    | Exit self' w' => Exit self' w'
    end.

Definition get_self : M Self Self := fun self w => Ok self self w.
Definition set_self (self' : Self) : M Self unit := fun _ w => Ok tt self' w.
Definition raise {A} (e : exn) : M Self A := fun self w => Raise e self w.

(** [assert cond] *)
Definition assert (cond : bool) : M Self unit :=
  fun self w => if cond then Ok tt self w else Raise AssertionError self w.

(** [quit()] *)
Definition quit {A} : M Self A := fun self w => Exit self w.

Definition emit (e : event) (w : world) : world :=
  World (files w) (trace w ++ [e]).

Definition print (line : string) : M Self unit :=
  fun self w => Ok tt self (emit (Print line) w).

(** [os.path.exists(p)]: the empty string names nothing. *)
Definition os_path_exists (p : path) : M Self bool :=
  fun self w => Ok (path_exists (files w) p) self w.
Definition os_path_isfile (p : path) : M Self bool :=
  fun self w => Ok (isfile_at (files w) p) self w.

Definition os_makedirs (name : path) (exist_ok : bool) : M Self unit :=
  fun self w =>
    match makedirs_at exist_ok (rev name) (files w) with
    | inl fs' => Ok tt self (World fs' (trace w))
    | inr fs' => Raise OSError self (World fs' (trace w))
    end.

Definition write_file (p : path) (c : content) (e : event) : M Self unit :=
  fun self w =>
    match write_at (files w) p c with
    | Some fs' => Ok tt self (emit e (World fs' (trace w)))
    | None => Raise OSError self w
    end.

(** [np.save(file, arr)]: the extension [.npy] is appended to the file
    name unless it is there already. *)
Definition npy_path (p : path) : path :=
  match last p with
  | Some name =>
      if endswith name ".npy" then p else removelast p ++ [name +:+ ".npy"]
  | None => p
  end.

Definition np_save (file : path) (arr : list Z) : M Self unit :=
  write_file (npy_path file) (Npy arr) (NpSave (npy_path file) arr).

(** [with open(p, "w") as f: json.dump(doc, f)] *)
Definition json_dump_to (p : path) (doc : json) : M Self unit :=
  write_file p (Json doc) (JsonDump p doc).

(** [len(glob.glob(os.path.join(d, "*/")))] *)
Definition glob_count (d : path) : M Self nat :=
  fun self w => Ok (length (glob_star_slash (files w) d)) self w.

(** Modelled from the spec: [images_to_video] of
    [frontier_exploration.utils.general_utils], the video-encoding
    collaborator [encode_video(frames, output_path) -> void], which
    creates or overwrites [output_path] and may raise on failure; it is
    given the frame list and does not change it. *)
Definition images_to_video (frames : list rgb_image) (video_path : path)
    : M Self unit :=
  write_file video_path (Mp4 frames) (ImagesToVideo frames video_path).

End Primitives.

(** stdpp's monad notations: [x ← m; k] and [m ;; k]. *)
#[global] Instance M_ret {Self} : MRet (M Self) := @ret Self.
#[global] Instance M_bind {Self} : MBind (M Self) :=
  fun A B (k : A -> M Self B) (m : M Self A) => bind m k.

(* ===================================================================== *)
(** ** The map store: [hash_2d_binary_array] and [save_map]               *)
(* ===================================================================== *)

Definition hash_2d_binary_array (arr : ndarray bool) : string :=
  let arr_shape := shape arr in
  let flat_bytes := tobytes (flatten arr) in
  Sha256.hexdigest flat_bytes +:+ "_" +:+ String.concat "_" (map str_of_N arr_shape).

Definition save_map {Self} (np_arr : ndarray bool) (filepath : path) : M Self unit :=
  os_makedirs (dirname filepath) true ;;
  let packed_mask := packbits (flatten np_arr) in
  np_save filepath packed_mask.

(* ===================================================================== *)
(** ** The episode buffer                                                 *)
(* ===================================================================== *)

Module ExplorationData.

Record t := Build {
  _rgb_images : list rgb_image;
  _trajectory : list (list float);
  _trajectory_pixels : list (list Z);
  _ep_id : option py_id;
  _ep_scene_id : option string;
  _map_filename : option path }.

Definition __init__ : t := Build [] [] [] None None None.

Definition __len__ (self : t) : nat := length (_rgb_images self).

Definition set_ids (ep_id : option py_id) (ep_scene_id : option string)
    (map_filename : option path) : M t unit :=
  self ← get_self;
  set_self (Build (_rgb_images self) (_trajectory self)
                  (_trajectory_pixels self) ep_id ep_scene_id map_filename).

(** [pose_pixel] is a one-dimensional array; [tolist()] is its list of
    elements. *)
Definition append (rgb_image : rgb_image) (pose : list float)
    (pose_pixel : ndarray Z) : M t unit :=
  self ← get_self;
  set_self (Build (_rgb_images self ++ [rgb_image])
                  (_trajectory self ++ [pose])
                  (_trajectory_pixels self ++ [buffer pose_pixel])
                  (_ep_id self) (_ep_scene_id self) (_map_filename self)).

(** The two conditions asserted by [record]. *)
Definition lengths_agree (self : t) : bool :=
  (length (_rgb_images self) =? length (_trajectory self))%nat
  && (length (_trajectory self) =? length (_trajectory_pixels self))%nat.

Definition ids_set (self : t) : bool :=
  negb (bool_decide (_ep_id self = None)
        || bool_decide (_ep_scene_id self = None)
        || bool_decide (_map_filename self = None)).

(** Values in an f-string and in [json.dump]; [None] prints as
    ["None"] and dumps as [null]. *)
Definition fmt {A} (str : A -> string) (o : option A) : string :=
  match o with Some a => str a | None => "None" end.

Definition dump {A} (to_json : A -> json) (o : option A) : json :=
  match o with Some a => to_json a | None => JNull end.

Definition json_of_id (i : py_id) : json :=
  match i with IdInt z => JInt z | IdStr s => JStr s end.

Definition json_name (self : t) : string :=
  fmt id (_ep_scene_id self) +:+ "_" +:+ fmt str_of_id (_ep_id self) +:+ ".json".

Definition json_doc (self : t) : json :=
  JDict [ ("ep_id", dump json_of_id (_ep_id self));
          ("ep_scene_id", dump JStr (_ep_scene_id self));
          ("trajectory", JList (map (fun p => JList (map JFloat p)) (_trajectory self)));
          ("trajectory_pixels",
             JList (map (fun p => JList (map JInt p)) (_trajectory_pixels self)));
          ("map_filename", dump (fun p => JStr (path_str p)) (_map_filename self)) ].

(** [record], after its two assertions. *)
Definition write_record (self : t) (episode_directory : path) : M t unit :=
  present ← os_path_exists episode_directory;
  (if negb present then os_makedirs episode_directory false else ret tt) ;;
  let json_path := episode_directory ++ [json_name self] in
  json_dump_to json_path (json_doc self) ;;
  let video_path := episode_directory ++ ["video.mp4"] in
  images_to_video (_rgb_images self) video_path.

Definition record (episode_directory : path) : M t unit :=
  self ← get_self;
  assert (lengths_agree self) ;;
  assert (ids_set self) ;;
  write_record self episode_directory.

(** A buffer used step by step: one [append] per step. *)
Fixpoint append_all (steps : list (rgb_image * list float * ndarray Z))
    : M t unit :=
  match steps with
  | [] => ret tt
  | (rgb, pose, pose_pixel) :: rest =>
      append rgb pose pose_pixel ;; append_all rest
  end.

End ExplorationData.

(* ===================================================================== *)
(** ** The sensor                                                         *)
(* ===================================================================== *)

(** The episode handed over by the task. *)
Record episode := Episode { episode_id : py_id; scene_id : string }.

Module STEpisodeGenerator.

(** The state inherited from [BaseExplorer], as far as this class reads
    it. *)
Record base := Base {
  _scene_id : string;
  _episode : episode;
  top_down_map : ndarray bool;
  _curr_pose : list float }.

Record t := Build {
  _output_dir : path;
  _num_episodes : Z;
  _exploration_data : ExplorationData.t;
  super : base }.

Definition with_data (d : ExplorationData.t) (self : t) : t :=
  Build (_output_dir self) (_num_episodes self) d (super self).
Definition with_super (b : base) (self : t) : t :=
  Build (_output_dir self) (_num_episodes self) (_exploration_data self) b.

(** A method call on [self._exploration_data]. *)
Definition on_data {A} (m : M ExplorationData.t A) : M t A :=
  fun self w =>
    match m (_exploration_data self) w with
    | Ok a d w' => Ok a (with_data d self) w'
    | Raise e d w' => Raise e (with_data d self) w'
    | Exit d w' => Exit (with_data d self) w'
    end.

(** [config.output_dir], [config.num_episodes] and the inherited state
    after [super().__init__]. *)
Definition __init__ (output_dir : path) (num_episodes : Z) (b : base) : t :=
  Build output_dir num_episodes ExplorationData.__init__ b.

Definition _is_last_episode_valid (self : t) : bool :=
  (10 <? ExplorationData.__len__ (_exploration_data self))%nat.

(** [os.path.join(self._output_dir, self._scene_id)], the scene id being
    one name. *)
Definition scene_dir_of (self : t) : path :=
  _output_dir self ++ [_scene_id (super self)].

Definition map_filename_of (self : t) : path :=
  _output_dir self ++
    [ _scene_id (super self); "topdown_maps";
      hash_2d_binary_array (top_down_map (super self)) +:+ ".npy" ].

(** [self] once [set_ids] has attached the episode id, the scene id and
    the map's file name to its buffer. *)
Definition with_ids (self : t) : t :=
  let d := _exploration_data self in
  with_data
    (ExplorationData.Build
       (ExplorationData._rgb_images d) (ExplorationData._trajectory d)
       (ExplorationData._trajectory_pixels d)
       (Some (episode_id (_episode (super self))))
       (Some (_scene_id (super self)))
       (Some (map_filename_of self)))
    self.

(** The first part of [_save_last_episode] (the map store's
    [store_if_absent]): resolve the map's file name, attach the
    identity to the buffer, and save the map unless a file of that name
    is there. *)
Definition store_if_absent : M t path :=
  self ← get_self;
  let map_filename := map_filename_of self in
  on_data (ExplorationData.set_ids
             (Some (episode_id (_episode (super self))))
             (Some (_scene_id (super self))) (Some map_filename)) ;;
  saved ← os_path_isfile map_filename;
  (if negb saved then save_map (top_down_map (super self)) map_filename
   else ret tt) ;;
  ret map_filename.

(** The second part: the quota check and the flush. *)
Definition persist_episode : M t unit :=
  self ← get_self;
  let ep_id := episode_id (_episode (super self)) in
  let scene_dir := scene_dir_of self in
  let episode_dir := scene_dir ++ [str_of_id ep_id] in
  num_done ← glob_count scene_dir;
  (if (Z.of_nat num_done >=? _num_episodes self)%Z
   then print ("Already saved " +:+ str_of_Z (_num_episodes self)
               +:+ " episodes for " +:+ _scene_id (super self)) ;;
        quit
   else print ("Saved " +:+ str_of_nat num_done +:+ " of "
               +:+ str_of_Z (_num_episodes self) +:+ " episodes for "
               +:+ _scene_id (super self))) ;;
  on_data (ExplorationData.record episode_dir) ;;
  print ("Saved episode " +:+ str_of_id ep_id +:+ " in " +:+ path_str episode_dir).

Definition _save_last_episode : M t unit :=
  store_if_absent ;; persist_episode.

Section Inherited.
(** The methods of [BaseExplorer] this class calls: its [_reset], its
    [get_observation] (which returns the action) and
    [_get_agent_pixel_coords].  They are defined outside this file; here
    they are any functions of the inherited state, that is, calls that
    return and that touch neither the buffer nor the file system. *)
Variable base_reset : episode -> base -> base.
Variable base_get_observation : rgb_image -> base -> ndarray Z * base.
Variable _get_agent_pixel_coords : base -> ndarray Z.

Definition _reset (ep : episode) : M t unit :=
  self ← get_self;
  (if _is_last_episode_valid self then _save_last_episode
   else print "Last episode was too short, not saving it") ;;
  self ← get_self;
  set_self (with_super (base_reset ep (super self)) self) ;;
  self ← get_self;
  set_self (with_data ExplorationData.__init__ self).

(** [rgb] is [kwargs["observations"]["rgb"]]. *)
Definition get_observation (rgb : rgb_image) : M t (ndarray Z) :=
  self ← get_self;
  let (action, b) := base_get_observation rgb (super self) in
  set_self (with_super b self) ;;
  self ← get_self;
  on_data (ExplorationData.append rgb (_curr_pose (super self))
             (_get_agent_pixel_coords (super self))) ;;
  ret action.

End Inherited.

End STEpisodeGenerator.

(** The map store called once for each of a series of sensor states, on
    the same file system, until a call does not return. *)
Fixpoint store_each (selves : list STEpisodeGenerator.t) (w : world)
    : list path * world :=
  match selves with
  | [] => ([], w)
  | self :: rest =>
      match STEpisodeGenerator.store_if_absent self w with
      | Ok p _ w' => let (ps, w'') := store_each rest w' in (p :: ps, w'')
      | Raise _ _ w' | Exit _ w' => ([], w')
      end
  end.

(** Counting the physical writes of maps and of episode records in a
    trace. *)
Definition is_np_save (e : event) : bool :=
  match e with NpSave _ _ => true | _ => false end.
Definition is_json_dump (e : event) : bool :=
  match e with JsonDump _ _ => true | _ => false end.
Definition np_saves (tr : list event) : nat := length (List.filter is_np_save tr).
Definition json_dumps (tr : list event) : nat := length (List.filter is_json_dump tr).

(** [n] steps of an episode: one [get_observation] per frame. *)
Fixpoint observe_all
    (base_get_observation : rgb_image -> STEpisodeGenerator.base ->
                            ndarray Z * STEpisodeGenerator.base)
    (pixel_coords : STEpisodeGenerator.base -> ndarray Z)
    (frames : list rgb_image) : M STEpisodeGenerator.t unit :=
  match frames with
  | [] => ret tt
  | rgb :: rest =>
      STEpisodeGenerator.get_observation base_get_observation pixel_coords rgb ;;
      observe_all base_get_observation pixel_coords rest
  end.

(* ===================================================================== *)
(** ** States of a sensor in use                                          *)
(* ===================================================================== *)

(** The sensor states that arise when the sensor is created and then
    driven through [get_observation] and [_reset] only, whatever the file
    system looks like at each call. *)
Inductive reachable
    (base_reset : episode -> STEpisodeGenerator.base -> STEpisodeGenerator.base)
    (base_get_observation : rgb_image -> STEpisodeGenerator.base ->
                            ndarray Z * STEpisodeGenerator.base)
    (pixel_coords : STEpisodeGenerator.base -> ndarray Z)
    : STEpisodeGenerator.t -> Prop :=
| reach_init (output_dir : path) (num_episodes : Z) (b : STEpisodeGenerator.base) :
    reachable base_reset base_get_observation pixel_coords
      (STEpisodeGenerator.__init__ output_dir num_episodes b)
| reach_observation (self : STEpisodeGenerator.t) (rgb : rgb_image) (w : world) :
    reachable base_reset base_get_observation pixel_coords self ->
    reachable base_reset base_get_observation pixel_coords
      (final_self (STEpisodeGenerator.get_observation
                     base_get_observation pixel_coords rgb self w))
| reach_reset (self : STEpisodeGenerator.t) (ep : episode) (w : world) :
    reachable base_reset base_get_observation pixel_coords self ->
    is_ok (STEpisodeGenerator._reset base_reset ep self w) = true ->
    reachable base_reset base_get_observation pixel_coords
      (final_self (STEpisodeGenerator._reset base_reset ep self w)).

(** The characters of a digest key. *)
Definition is_key_char (c : ascii) : bool :=
  is_hex_digit c || Ascii.eqb c "_".

(** A tree in which every entry sits in a directory. *)
Definition well_formed (fs : gmap path node) : Prop :=
  forall (p : path) (n : node),
    fs !! p = Some n -> isdir_at fs (dirname p) = true.

(* ===================================================================== *)
(** ** A small scenario                                                   *)
(* ===================================================================== *)

(** One scene with a 2 x 3 map, one-pixel frames, and a base explorer that
    stands still. *)
Definition demo_map : ndarray bool :=
  NdArray [2%N; 3%N] [true; false; true; true; true; false].

Definition demo_frame (n : nat) : rgb_image :=
  NdArray [1%N; 1%N; 3%N] [Z.of_nat n; Z.of_nat n; Z.of_nat n].

Definition demo_base (ep : string) : STEpisodeGenerator.base :=
  STEpisodeGenerator.Base "sceneA" (Episode (IdStr ep) "sceneA.glb") demo_map
    [1.5%float; 2%float].

Definition demo_get_observation (rgb : rgb_image) (b : STEpisodeGenerator.base)
    : ndarray Z * STEpisodeGenerator.base :=
  (NdArray [1%N] [0], b).

Definition demo_pixel_coords (b : STEpisodeGenerator.base) : ndarray Z :=
  NdArray [2%N] [3; 4].

Definition demo_reset (ep : episode) (b : STEpisodeGenerator.base)
    : STEpisodeGenerator.base :=
  STEpisodeGenerator.Base (STEpisodeGenerator._scene_id b) ep
    (STEpisodeGenerator.top_down_map b) (STEpisodeGenerator._curr_pose b).

Definition demo_output_dir : path := ["data"; "spatiotemporal_episodes"].

Definition empty_world : world := World ∅ [].

(** The sensor after [steps] observations of episode [ep], with the given
    quota. *)
Definition demo_sensor_for (ep : string) (steps : nat) (quota : Z)
    : STEpisodeGenerator.t :=
  final_self
    (observe_all demo_get_observation demo_pixel_coords
       (map demo_frame (seq 0 steps))
       (STEpisodeGenerator.__init__ demo_output_dir quota (demo_base ep))
       empty_world).

Definition demo_sensor : nat -> Z -> STEpisodeGenerator.t := demo_sensor_for "7".

(** A one-step buffer with its identity set. *)
Definition demo_buffer : ExplorationData.t :=
  ExplorationData.Build [demo_frame 0] [[1.5%float; 2%float]] [[3; 4]]
    (Some (IdStr "7")) (Some "sceneA")
    (Some (demo_output_dir ++ ["sceneA"; "topdown_maps"; "m.npy"])).

(* ===================================================================== *)
(** * Properties                                                          *)
(* ===================================================================== *)

(** FIPS 180-4 test vectors. *)
Example sha256_empty :
  Sha256.hexdigest [] =
  "e3b0c44298fc1c149afbf4c8996fb92427ae41e4649b934ca495991b7852b855".
Proof. vm_compute. reflexivity. Qed.

Example sha256_abc :
  Sha256.hexdigest [97; 98; 99] =
  "ba7816bf8f01cfea414140de5dae2223b00361a396177a9cb410ff61f20015ad".
Proof. vm_compute. reflexivity. Qed.

Example sha256_two_blocks :
  Sha256.hexdigest (map (fun c => Z.of_N (N_of_ascii c)) (list_ascii_of_string
    "abcdbcdecdefdefgefghfghighijhijkijkljklmklmnlmnomnopnopq")) =
  "248d6a61d20638b8e5c026930c3e6039a33ce45964ff2167f6ecedd419db06c1".
Proof. vm_compute. reflexivity. Qed.

(* --------------------------------------------------------------------- *)
(** ** Bit packing                                                        *)
(* --------------------------------------------------------------------- *)

Section BitPacking.

(** A full group of eight truth values is read back as it was packed. *)
Lemma unpack_pack_full b0 b1 b2 b3 b4 b5 b6 b7 (rest : list bool) :
  unpack_byte (pack_byte (b0 :: b1 :: b2 :: b3 :: b4 :: b5 :: b6 :: b7 :: rest))
  = [b0; b1; b2; b3; b4; b5; b6; b7].
Proof.
  destruct b0, b1, b2, b3, b4, b5, b6, b7; reflexivity.
Qed.

(** A last, partial group is read back followed by the padding. *)
Lemma unpack_pack_partial (bits : list bool) :
  (length bits <= 8)%nat ->
  firstn (length bits) (unpack_byte (pack_byte bits)) = bits.
Proof.
  intros Hlen.
  do 9 (destruct bits as [|[] bits]; [reflexivity | | ]);
    simpl in Hlen; lia.
Qed.

Lemma packed_byte_range (bits : list bool) :
  (length bits <= 8)%nat -> 0 <= pack_byte bits < 256.
Proof.
  intros Hlen.
  do 9 (destruct bits as [|[] bits]; [vm_compute; split; congruence | | ]);
    simpl in Hlen; lia.
Qed.

Lemma unpackbits_single (b : Z) : unpackbits [b] = unpack_byte b.
Proof. unfold unpackbits. cbn [map concat]. apply app_nil_r. Qed.

Lemma unpackbits_cons (b : Z) (bs : list Z) :
  unpackbits (b :: bs) = unpack_byte b ++ unpackbits bs.
Proof. reflexivity. Qed.

Lemma unpack_pack_bounded (n : nat) :
  forall bits : list bool,
    (length bits < n)%nat ->
    firstn (length bits) (unpackbits (packbits bits)) = bits.
Proof.
  induction n as [|n IH]; intros bits Hlen; [lia|].
  destruct bits as [|b0 [|b1 [|b2 [|b3 [|b4 [|b5 [|b6 [|b7 rest]]]]]]]].
  1: reflexivity.
  1-7: cbn [packbits]; rewrite unpackbits_single;
       apply unpack_pack_partial; simpl; lia.
  change (packbits (b0 :: b1 :: b2 :: b3 :: b4 :: b5 :: b6 :: b7 :: rest))
    with (pack_byte (b0 :: b1 :: b2 :: b3 :: b4 :: b5 :: b6 :: b7 :: rest)
          :: packbits rest).
  rewrite unpackbits_cons, unpack_pack_full.
  cbn [length app firstn].
  do 8 f_equal. apply IH. simpl in Hlen. lia.
Qed.

Lemma unpack_pack (bits : list bool) :
  firstn (length bits) (unpackbits (packbits bits)) = bits.
Proof. apply (unpack_pack_bounded (S (length bits))). lia. Qed.

(** The packed array has one byte per started group of eight. *)
Lemma packbits_length_bounded (n : nat) :
  forall bits : list bool,
    (length bits < n)%nat ->
    length (packbits bits) = ((length bits + 7) / 8)%nat.
Proof.
  induction n as [|n IH]; intros bits Hlen; [lia|].
  destruct bits as [|b0 [|b1 [|b2 [|b3 [|b4 [|b5 [|b6 [|b7 rest]]]]]]]];
    try reflexivity.
  change (packbits (b0 :: b1 :: b2 :: b3 :: b4 :: b5 :: b6 :: b7 :: rest))
    with (pack_byte (b0 :: b1 :: b2 :: b3 :: b4 :: b5 :: b6 :: b7 :: rest)
          :: packbits rest).
  simpl length. rewrite IH by (simpl in Hlen; lia).
  replace (S (S (S (S (S (S (S (S (length rest)))))))) + 7)%nat
    with (length rest + 7 + 1 * 8)%nat by lia.
  rewrite Nat.div_add by lia. lia.
Qed.

End BitPacking.

(** C9. Bit-pack round trip: for every boolean array (whatever its shape,
    and whether or not its number of elements is a multiple of eight),
    packing its flattened truth values as [save_map] does with
    [np.packbits] and unpacking the bytes with the original shape gives
    the original array back, and the packed form has one byte per started
    group of eight elements. *)
Theorem C9_packbits_roundtrip (arr : ndarray bool) :
  well_shaped arr ->
  unpack_with_shape (shape arr) (packbits (flatten arr)) = arr
  /\ length (packbits (flatten arr)) = ((length (buffer arr) + 7) / 8)%nat.
Proof.
  intros Hshape. destruct arr as [shp buf].
  unfold well_shaped in Hshape. simpl in Hshape.
  unfold unpack_with_shape, flatten. simpl. split.
  - f_equal. rewrite <- Hshape. apply unpack_pack.
  - apply (packbits_length_bounded (S (length buf))). lia.
Qed.

(** A 3 x 3 map: nine elements, two bytes. *)
Lemma C9_packbits_roundtrip_witness :
  let arr := NdArray [3%N; 3%N]
               [true; false; true; true; true; false; false; false; true] in
  well_shaped arr /\
  packbits (flatten arr) = [184; 128] /\
  unpack_with_shape (shape arr) (packbits (flatten arr)) = arr.
Proof.
  split; [reflexivity | split; [reflexivity | ]].
  apply (C9_packbits_roundtrip
           (NdArray [3%N; 3%N]
              [true; false; true; true; true; false; false; false; true])).
  reflexivity.
Defined.

(* --------------------------------------------------------------------- *)
(** ** Strings: decimal numerals and joined fields                        *)
(* --------------------------------------------------------------------- *)

Section Strings.

Lemma all_chars_weaken (P Q : ascii -> bool) (s : string) :
  (forall c, P c = true -> Q c = true) ->
  all_chars P s = true -> all_chars Q s = true.
Proof.
  intros HPQ. induction s as [|c s IH]; simpl; [reflexivity|].
  rewrite !andb_true_iff. intros [Hc Hs]. auto.
Qed.

Lemma digit_not_underscore (c : ascii) :
  is_digit c = true -> not_underscore c = true.
Proof.
  unfold is_digit, not_underscore. intros Hd.
  destruct (Ascii.eqb_spec c "_") as [->|]; [discriminate Hd | reflexivity].
Qed.

Lemma uint_digits_nilempty (d : Decimal.uint) :
  all_chars is_digit (NilEmpty.string_of_uint d) = true.
Proof.
  induction d as [|d IH|d IH|d IH|d IH|d IH|d IH|d IH|d IH|d IH|d IH];
    simpl; try rewrite IH; reflexivity.
Qed.

Lemma uint_digits (d : Decimal.uint) :
  all_chars is_digit (NilZero.string_of_uint d) = true.
Proof.
  destruct d; try reflexivity;
    unfold NilZero.string_of_uint; apply uint_digits_nilempty.
Qed.

Lemma uint_nonempty (d : Decimal.uint) :
  d <> Decimal.Nil -> NilZero.string_of_uint d <> "".
Proof. destruct d; simpl; congruence. Qed.

Lemma N_to_uint_nonnil (n : N) : N.to_uint n <> Decimal.Nil.
Proof.
  destruct n as [|p]; simpl; [discriminate|].
  apply DecimalPos.Unsigned.to_uint_nonnil.
Qed.

Lemma str_of_N_digits (n : N) : all_chars is_digit (str_of_N n) = true.
Proof. apply uint_digits. Qed.

Lemma str_of_N_nonempty (n : N) : str_of_N n <> "".
Proof. apply uint_nonempty, N_to_uint_nonnil. Qed.

Lemma str_of_N_inj (m n : N) : str_of_N m = str_of_N n -> m = n.
Proof.
  unfold str_of_N. intros Heq.
  apply DecimalN.Unsigned.to_uint_inj.
  pose proof (NilZero.usu _ (N_to_uint_nonnil m)) as Hm.
  pose proof (NilZero.usu _ (N_to_uint_nonnil n)) as Hn.
  rewrite Heq in Hm. congruence.
Qed.

Lemma map_str_of_N_inj (l1 l2 : list N) :
  map str_of_N l1 = map str_of_N l2 -> l1 = l2.
Proof.
  revert l2. induction l1 as [|a l1 IH]; intros [|b l2] Heq;
    simpl in Heq; try discriminate; [reflexivity|].
  injection Heq as Hab Hrest. f_equal; [apply str_of_N_inj | apply IH]; assumption.
Qed.

(** Two concatenations with left parts of equal length agree part by
    part. *)
Lemma append_eq_length (s1 s2 t1 t2 : string) :
  String.length s1 = String.length s2 ->
  s1 +:+ t1 = s2 +:+ t2 -> s1 = s2 /\ t1 = t2.
Proof.
  revert s2. induction s1 as [|c s1 IH]; intros [|c' s2] Hlen Heq;
    simpl in *; try discriminate; [auto|].
  injection Heq as -> Heq. injection Hlen as Hlen.
  destruct (IH _ Hlen Heq) as [-> ->]. auto.
Qed.

(** A field without underscores ends at the first underscore. *)
Lemma field_split (x y r r' : string) :
  all_chars not_underscore x = true ->
  all_chars not_underscore y = true ->
  x +:+ String "_" r = y +:+ String "_" r' -> x = y /\ r = r'.
Proof.
  revert y. induction x as [|c x IH]; intros [|c' y] Hx Hy Heq; simpl in *.
  - injection Heq as ->. auto.
  - injection Heq as <- _. discriminate Hy.
  - injection Heq as -> _. discriminate Hx.
  - injection Heq as -> Heq.
    apply andb_true_iff in Hx as [_ Hx]. apply andb_true_iff in Hy as [_ Hy].
    destruct (IH _ Hx Hy Heq) as [-> ->]. auto.
Qed.

Lemma field_has_no_separator (x y r : string) :
  all_chars not_underscore x = true -> x <> y +:+ String "_" r.
Proof.
  revert y. induction x as [|c x IH]; intros [|c' y] Hx Heq; simpl in *;
    try discriminate.
  - injection Heq as -> _. discriminate Hx.
  - injection Heq as -> Heq. apply andb_true_iff in Hx as [_ Hx].
    exact (IH _ Hx Heq).
Qed.

Lemma concat_cons2 (sep x y : string) (l : list string) :
  String.concat sep (x :: y :: l) = x +:+ sep +:+ String.concat sep (y :: l).
Proof. reflexivity. Qed.

Lemma append_nonempty (x y : string) : x <> "" -> x +:+ y <> "".
Proof. destruct x; simpl; intros H; [now contradiction H | discriminate]. Qed.

(** Joining underscore-free, non-empty fields with underscores loses
    nothing. *)
Lemma join_inj (l1 l2 : list string) :
  Forall (fun s => s <> "" /\ all_chars not_underscore s = true) l1 ->
  Forall (fun s => s <> "" /\ all_chars not_underscore s = true) l2 ->
  String.concat "_" l1 = String.concat "_" l2 -> l1 = l2.
Proof.
  intros H1. revert l2.
  induction H1 as [|x l1 [Hx Hxu] H1 IH]; intros l2 H2 Heq.
  - destruct H2 as [|y l2 [Hy _] H2]; [reflexivity|].
    exfalso. destruct l2 as [|y' l2]; simpl in Heq; [congruence|].
    symmetry in Heq. exact (append_nonempty _ _ Hy Heq).
  - destruct H2 as [|y l2 [Hy Hyu] H2].
    + exfalso. destruct l1 as [|x' l1]; simpl in Heq; [congruence|].
      exact (append_nonempty _ _ Hx Heq).
    + destruct l1 as [|x' l1], l2 as [|y' l2].
      * simpl in Heq. congruence.
      * exfalso. rewrite concat_cons2 in Heq. simpl String.concat in Heq at 1.
        exact (field_has_no_separator _ _ _ Hxu Heq).
      * exfalso. rewrite concat_cons2 in Heq. symmetry in Heq.
        exact (field_has_no_separator _ _ _ Hyu Heq).
      * rewrite !concat_cons2 in Heq.
        destruct (field_split _ _ _ _ Hxu Hyu Heq) as [-> Hrest].
        f_equal. apply IH; assumption.
Qed.

Lemma shape_fields (shp : list N) :
  Forall (fun s => s <> "" /\ all_chars not_underscore s = true)
         (map str_of_N shp).
Proof.
  induction shp as [|n shp IH]; simpl; constructor; [|exact IH].
  split; [apply str_of_N_nonempty|].
  apply (all_chars_weaken is_digit); [apply digit_not_underscore|].
  apply str_of_N_digits.
Qed.

Lemma list_ascii_append (s t : string) :
  list_ascii_of_string (s +:+ t)
  = list_ascii_of_string s ++ list_ascii_of_string t.
Proof. induction s as [|c s IH]; simpl; [reflexivity | now rewrite IH]. Qed.

Lemma endswith_append (s suffix : string) : endswith (s +:+ suffix) suffix = true.
Proof.
  unfold endswith. apply bool_decide_eq_true.
  rewrite list_ascii_append. apply suffix_app_r. reflexivity.
Qed.

End Strings.

(* --------------------------------------------------------------------- *)
(** ** The digest key                                                     *)
(* --------------------------------------------------------------------- *)

Section Digest.

Lemma hex_char_is_hex (x : Z) : is_hex_digit (Sha256.hex_char x) = true.
Proof.
  unfold Sha256.hex_char.
  assert (Hr : 0 <= Z.land x 0xF < 16).
  { change 0xF with (Z.ones 4). rewrite Z.land_ones by lia.
    apply Z.mod_pos_bound. lia. }
  set (d := Z.land x 0xF) in *. clearbody d.
  assert (Hd : d = 0 \/ d = 1 \/ d = 2 \/ d = 3 \/ d = 4 \/ d = 5 \/ d = 6
               \/ d = 7 \/ d = 8 \/ d = 9 \/ d = 10 \/ d = 11 \/ d = 12
               \/ d = 13 \/ d = 14 \/ d = 15) by lia.
  repeat (destruct Hd as [-> | Hd]; [reflexivity|]). subst d. reflexivity.
Qed.

Lemma hexdigest_length (msg : list Z) :
  String.length (Sha256.hexdigest msg) = 64%nat.
Proof. reflexivity. Qed.

Lemma hexdigest_hex (msg : list Z) :
  all_chars is_hex_digit (Sha256.hexdigest msg) = true.
Proof.
  unfold Sha256.hexdigest, Sha256.hex_of_regs, Sha256.hex_word.
  cbn [all_chars]. rewrite !hex_char_is_hex. reflexivity.
Qed.

Lemma hash_key_inj_shape (a b : ndarray bool) :
  hash_2d_binary_array a = hash_2d_binary_array b -> shape a = shape b.
Proof.
  unfold hash_2d_binary_array. intros Heq.
  apply append_eq_length in Heq as [_ Heq];
    [| now rewrite !hexdigest_length].
  injection Heq as Heq.
  apply map_str_of_N_inj, join_inj; auto using shape_fields.
Qed.

End Digest.

(** C5. Digest definition and determinism: the key returned by
    [hash_2d_binary_array] is the SHA-256 hexadecimal digest (64 lower-case
    hexadecimal characters) of the row-major flattened bytes of the array,
    an underscore, and the dimensions of the shape in decimal joined by
    underscores (for a two-dimensional map: digest, height, width).  The
    bytes that are hashed are the elements in row-major order, one byte
    each, 1 for [True] and 0 for [False], so that they determine the
    content of the array.  Two arrays with the same shape and the same
    content get the same key. *)
Theorem C5_digest_key (arr : ndarray bool) :
  let flat_bytes := tobytes (flatten arr) in
  let hex_digest := Sha256.hexdigest flat_bytes in
  hash_2d_binary_array arr
    = hex_digest +:+ "_" +:+ String.concat "_" (map str_of_N (shape arr))
  /\ flat_bytes = map (fun b : bool => if b then 1 else 0) (buffer arr)
  /\ length flat_bytes = length (buffer arr)
  /\ (forall (i : nat) (b : bool),
        buffer arr !! i = Some b ->
        flat_bytes !! i = Some (if b then 1 else 0))
  /\ (forall arr' : ndarray bool,
        tobytes (flatten arr') = flat_bytes -> buffer arr' = buffer arr)
  /\ String.length hex_digest = 64%nat
  /\ all_chars is_hex_digit hex_digest = true
  /\ (forall h w : N, shape arr = [h; w] ->
        hash_2d_binary_array arr
          = hex_digest +:+ "_" +:+ str_of_N h +:+ "_" +:+ str_of_N w)
  /\ (forall arr' : ndarray bool,
        shape arr' = shape arr -> buffer arr' = buffer arr ->
        hash_2d_binary_array arr' = hash_2d_binary_array arr).
Proof.
  cbv zeta. split; [reflexivity|].
  split; [reflexivity|].
  split; [unfold tobytes, flatten; apply length_map|].
  split.
  { intros i b Hi. unfold tobytes, flatten.
    rewrite list_lookup_fmap_Some. exists b. auto. }
  split.
  { intros arr'. unfold tobytes, flatten.
    generalize (buffer arr) as l. generalize (buffer arr') as l'.
    induction l' as [|x l' IH]; intros [|y l] H; simpl in H;
      try discriminate; [reflexivity|].
    injection H as Hxy H. f_equal; [|now apply IH].
    destruct x, y; (reflexivity || discriminate Hxy). }
  split; [apply hexdigest_length|].
  split; [apply hexdigest_hex|].
  split.
  - intros h w Hshape. unfold hash_2d_binary_array. rewrite Hshape. reflexivity.
  - intros arr' Hshape Hbuf. unfold hash_2d_binary_array, flatten.
    rewrite Hshape, Hbuf. reflexivity.
Qed.

(** The key of a 2 x 3 map; of a second array with the same shape and
    content; of a map that differs in its last element; and of an 8 x 8
    map, whose 64 bytes take two blocks of the hash. *)
Lemma C5_digest_key_witness :
  let arr := NdArray [2%N; 3%N] [true; false; true; true; true; false] in
  let arr' := NdArray (map N.of_nat [2%nat; 3%nat])
                      (map negb [false; true; false; false; false; true]) in
  let other := NdArray [2%N; 3%N] [true; false; true; true; true; true] in
  let large := NdArray [8%N; 8%N]
                 (map (fun i => (i mod 3 =? 0)%nat) (seq 0 64)) in
  hash_2d_binary_array arr
    = "471ae2e922e7ebc82738035d6687c9c9c4166b5d472492e9a4482a27d98ef2be_2_3"
  /\ tobytes (flatten arr) = [1; 0; 1; 1; 1; 0]
  /\ hash_2d_binary_array arr' = hash_2d_binary_array arr
  /\ hash_2d_binary_array other
     = "720f38c53dc2c0bd04f77ab4f1e2876b59a4c2db97c8fb75758818b6d73919b5_2_3"
  /\ hash_2d_binary_array large
     = "636d77c95b94ddd149d02d8ea45760bfcba72c6dcb0d90596f99198cc8fd5152_8_8".
Proof.
  cbv zeta.
  destruct (C5_digest_key
              (NdArray [2%N; 3%N] [true; false; true; true; true; false]))
    as (_ & Hbytes & _ & _ & _ & _ & _ & H2d & Hsame).
  cbv zeta in Hbytes, H2d.
  split; [rewrite (H2d 2%N 3%N eq_refl); vm_compute; reflexivity|].
  split; [rewrite Hbytes; reflexivity|].
  split; [apply Hsame; reflexivity|].
  destruct (C5_digest_key
              (NdArray [2%N; 3%N] [true; false; true; true; true; true]))
    as (_ & _ & _ & _ & _ & _ & _ & H2d' & _).
  split; [rewrite (H2d' 2%N 3%N eq_refl); vm_compute; reflexivity|].
  vm_compute. reflexivity.
Defined.

(** C6. Shape non-collision: two maps whose shapes differ get different
    keys, whatever their contents and whatever the digests of their
    flattened bytes. *)
Theorem C6_shape_non_collision (a b : ndarray bool) :
  shape a <> shape b ->
  hash_2d_binary_array a <> hash_2d_binary_array b.
Proof.
  intros Hshape Hkey. apply Hshape. exact (hash_key_inj_shape a b Hkey).
Qed.

(** A 2 x 3 and a 3 x 2 map with the same flattened bytes, hence the same
    digest, and different keys. *)
Lemma C6_shape_non_collision_witness :
  let a := NdArray [2%N; 3%N] [true; false; true; true; true; false] in
  let b := NdArray [3%N; 2%N] [true; false; true; true; true; false] in
  Sha256.hexdigest (tobytes (flatten a)) = Sha256.hexdigest (tobytes (flatten b))
  /\ hash_2d_binary_array a <> hash_2d_binary_array b.
Proof.
  cbv zeta. split; [reflexivity|].
  apply (C6_shape_non_collision
           (NdArray [2%N; 3%N] [true; false; true; true; true; false])
           (NdArray [3%N; 2%N] [true; false; true; true; true; false])).
  simpl. congruence.
Defined.

(* --------------------------------------------------------------------- *)
(** ** The episode buffer                                                 *)
(* --------------------------------------------------------------------- *)

(** Unfolding of the monadic plumbing. *)
Ltac unfold_m :=
  unfold mbind, M_bind, bind, mret, M_ret, ret, get_self, set_self,
         assert, raise, quit, print, os_path_exists, os_path_isfile in *.

Section Buffer.
Import ExplorationData.

Lemma append_spec rgb pose pix (d : t) (w : world) :
  append rgb pose pix d w
  = Ok tt (Build (_rgb_images d ++ [rgb]) (_trajectory d ++ [pose])
                 (_trajectory_pixels d ++ [buffer pix])
                 (_ep_id d) (_ep_scene_id d) (_map_filename d)) w.
Proof. reflexivity. Qed.

Lemma set_ids_spec i s m (d : t) (w : world) :
  set_ids i s m d w
  = Ok tt (Build (_rgb_images d) (_trajectory d) (_trajectory_pixels d) i s m) w.
Proof. reflexivity. Qed.

(** [n] appends add [n] entries to each sequence and touch nothing
    else. *)
Lemma append_all_spec (steps : list (rgb_image * list float * ndarray Z)) :
  forall (d : t) (w : world),
    append_all steps d w
    = Ok tt (Build (_rgb_images d ++ map (fun s => s.1.1) steps)
                   (_trajectory d ++ map (fun s => s.1.2) steps)
                   (_trajectory_pixels d ++ map (fun s => buffer s.2) steps)
                   (_ep_id d) (_ep_scene_id d) (_map_filename d)) w.
Proof.
  induction steps as [|[[rgb pose] pix] steps IH]; intros d w.
  - simpl. unfold_m. rewrite !app_nil_r. destruct d; reflexivity.
  - cbn [append_all]. unfold mbind, M_bind, bind at 1.
    rewrite append_spec, IH. cbn. rewrite <- !app_assoc. reflexivity.
Qed.

Lemma lengths_agree_iff (d : t) :
  lengths_agree d = true <->
  length (_rgb_images d) = length (_trajectory d)
  /\ length (_trajectory d) = length (_trajectory_pixels d).
Proof.
  unfold lengths_agree. rewrite andb_true_iff, !Nat.eqb_eq. reflexivity.
Qed.

Lemma ids_set_iff (d : t) :
  ids_set d = true <->
  _ep_id d <> None /\ _ep_scene_id d <> None /\ _map_filename d <> None.
Proof.
  unfold ids_set.
  destruct (_ep_id d), (_ep_scene_id d), (_map_filename d); cbn;
    (split; intros H;
     [ try discriminate H; repeat split; discriminate
     | try reflexivity; destruct H as (H1 & H2 & H3); congruence ]).
Qed.

(** The two assertions of [record] are all that stands before the
    writes. *)
Lemma record_asserts (dir : path) (d : t) (w : world) :
  record dir d w
  = if lengths_agree d && ids_set d then write_record d dir d w
    else Raise AssertionError d w.
Proof.
  unfold record. unfold_m.
  destruct (lengths_agree d); [|reflexivity].
  destruct (ids_set d); reflexivity.
Qed.

(** Creating directories and writing files raise [OSError] only, and
    leave [self] alone. *)
Lemma write_record_outcome (dir : path) (d : t) (w : world) :
  match write_record d dir d w with
  | Ok _ d' _ => d' = d
  | Raise e d' _ => e = OSError /\ d' = d
  | Exit _ _ => False
  end.
Proof.
  unfold write_record, json_dump_to, images_to_video, write_file, os_makedirs.
  unfold_m.
  destruct (path_exists (files w) dir); cbn.
  - destruct (write_at _ _ _); [|auto]. cbn.
    destruct (write_at _ _ _); auto.
  - destruct (makedirs_at _ _ _); [|auto]. cbn.
    destruct (write_at _ _ _); [|auto]. cbn.
    destruct (write_at _ _ _); auto.
Qed.

Lemma write_record_no_assertion (dir : path) (d : t) (w : world) :
  failed_assertion (write_record d dir d w) = false.
Proof.
  pose proof (write_record_outcome dir d w) as H.
  destruct (write_record d dir d w) as [| e ? ? |]; try reflexivity.
  destruct H as [-> _]. reflexivity.
Qed.

End Buffer.

(** C10. Append invariant: a fresh buffer has three empty sequences; each
    [append] adds exactly one element to each of them; so after [n]
    appends on a fresh buffer all three lengths, and [__len__], are [n],
    and [record] on that buffer, once its identity is set, passes its
    assertions: it does not end in an [AssertionError]. *)
Theorem C10_append_invariant
    (steps : list (rgb_image * list float * ndarray Z)) (w : world) :
  let fresh := ExplorationData.__init__ in
  let o := ExplorationData.append_all steps fresh w in
  let d := final_self o in
  (length (ExplorationData._rgb_images fresh) = 0
   /\ length (ExplorationData._trajectory fresh) = 0
   /\ length (ExplorationData._trajectory_pixels fresh) = 0)%nat
  /\ (forall rgb pose pix (b : ExplorationData.t) (w' : world),
        let b' := final_self (ExplorationData.append rgb pose pix b w') in
        length (ExplorationData._rgb_images b')
          = S (length (ExplorationData._rgb_images b))
        /\ length (ExplorationData._trajectory b')
          = S (length (ExplorationData._trajectory b))
        /\ length (ExplorationData._trajectory_pixels b')
          = S (length (ExplorationData._trajectory_pixels b)))
  /\ is_ok o = true
  /\ length (ExplorationData._rgb_images d) = length steps
  /\ length (ExplorationData._trajectory d) = length steps
  /\ length (ExplorationData._trajectory_pixels d) = length steps
  /\ ExplorationData.__len__ d = length steps
  /\ (forall (i : py_id) (s : string) (m dir : path) (w1 w2 : world),
        failed_assertion
          (ExplorationData.record dir
             (final_self (ExplorationData.set_ids (Some i) (Some s) (Some m) d w1))
             w2) = false).
Proof.
  cbv zeta. rewrite append_all_spec. cbn [final_self is_ok].
  split; [auto|]. split.
  { intros rgb pose pix b w'. rewrite append_spec. cbn.
    rewrite !length_app. cbn. lia. }
  split; [reflexivity|].
  unfold ExplorationData.__len__. cbn. rewrite !length_map.
  do 4 (split; [reflexivity|]).
  intros i s m dir w1 w2. rewrite set_ids_spec. cbn [final_self].
  rewrite record_asserts.
  unfold ExplorationData.lengths_agree, ExplorationData.ids_set. cbn.
  rewrite !length_map, Nat.eqb_refl. cbn.
  apply write_record_no_assertion.
Qed.

(** Three steps on a fresh buffer. *)
Lemma C10_append_invariant_witness :
  let step (n : Z) : rgb_image * list float * ndarray Z :=
    (NdArray [1%N; 1%N; 3%N] [n; n; n], [1.5%float; 2%float],
     NdArray [2%N] [3; 4]) in
  let d := final_self (ExplorationData.append_all [step 0; step 1; step 2]
                         ExplorationData.__init__ (World ∅ [])) in
  ExplorationData.__len__ d = 3%nat
  /\ length (ExplorationData._trajectory d) = 3%nat
  /\ length (ExplorationData._trajectory_pixels d) = 3%nat.
Proof.
  cbv zeta.
  destruct (C10_append_invariant
              [ (NdArray [1%N; 1%N; 3%N] [0; 0; 0], [1.5%float; 2%float],
                 NdArray [2%N] [3; 4]);
                (NdArray [1%N; 1%N; 3%N] [1; 1; 1], [1.5%float; 2%float],
                 NdArray [2%N] [3; 4]);
                (NdArray [1%N; 1%N; 3%N] [2; 2; 2], [1.5%float; 2%float],
                 NdArray [2%N] [3; 4]) ]
              (World ∅ []))
    as (_ & _ & _ & _ & Ht & Hp & Hl & _).
  split; [exact Hl | split; [exact Ht | exact Hp]].
Defined.

(** C3. Flush raises-iff: whatever the state of the buffer, [record]
    gets past its assertions exactly when the three sequences have equal
    lengths and the episode id, the scene id and the map file name are all
    set; otherwise it ends in an [AssertionError] with the buffer and the
    world (files and effects) as they were, and when it gets past it goes
    on to the writes. *)
Theorem C3_record_raises_iff (dir : path) (d : ExplorationData.t) (w : world) :
  let o := ExplorationData.record dir d w in
  (failed_assertion o = false <->
     (length (ExplorationData._rgb_images d) = length (ExplorationData._trajectory d)
      /\ length (ExplorationData._trajectory d)
         = length (ExplorationData._trajectory_pixels d))
     /\ ExplorationData._ep_id d <> None
     /\ ExplorationData._ep_scene_id d <> None
     /\ ExplorationData._map_filename d <> None)
  /\ (failed_assertion o = true -> o = Raise AssertionError d w)
  /\ (failed_assertion o = false -> o = ExplorationData.write_record d dir d w).
Proof.
  cbv zeta. rewrite record_asserts.
  rewrite <- lengths_agree_iff, <- ids_set_iff.
  pose proof (write_record_no_assertion dir d w) as Hio.
  destruct (ExplorationData.lengths_agree d), (ExplorationData.ids_set d); cbn;
    repeat split; intros; try discriminate; try reflexivity; try tauto;
    try congruence.
  all: match goal with H : _ /\ _ |- _ => destruct H; discriminate end.
Qed.

(** A consistent buffer with its identity set reaches the writes; the same
    buffer with one pose missing, or without identity, is refused before
    anything is written. *)
Lemma C3_record_raises_iff_witness :
  let rgb : rgb_image := NdArray [1%N; 1%N; 3%N] [7; 7; 7] in
  let good := ExplorationData.Build [rgb] [[1.5%float]] [[3; 4]]
                (Some (IdStr "7")) (Some "sceneA") (Some ["maps"; "m.npy"]) in
  let short := ExplorationData.Build [rgb] [] [[3; 4]]
                (Some (IdStr "7")) (Some "sceneA") (Some ["maps"; "m.npy"]) in
  let anonymous := ExplorationData.Build [rgb] [[1.5%float]] [[3; 4]]
                None (Some "sceneA") (Some ["maps"; "m.npy"]) in
  let w := World ∅ [] in
  ExplorationData.record ["out"] good w
    = ExplorationData.write_record good ["out"] good w
  /\ ExplorationData.record ["out"] short w = Raise AssertionError short w
  /\ ExplorationData.record ["out"] anonymous w = Raise AssertionError anonymous w.
Proof.
  cbv zeta. split; [|split].
  - apply (C3_record_raises_iff ["out"]
             (ExplorationData.Build [NdArray [1%N; 1%N; 3%N] [7; 7; 7]]
                [[1.5%float]] [[3; 4]]
                (Some (IdStr "7")) (Some "sceneA") (Some ["maps"; "m.npy"]))
             (World ∅ [])).
    vm_compute. reflexivity.
  - apply (C3_record_raises_iff ["out"]
             (ExplorationData.Build [NdArray [1%N; 1%N; 3%N] [7; 7; 7]]
                [] [[3; 4]]
                (Some (IdStr "7")) (Some "sceneA") (Some ["maps"; "m.npy"]))
             (World ∅ [])).
    vm_compute. reflexivity.
  - apply (C3_record_raises_iff ["out"]
             (ExplorationData.Build [NdArray [1%N; 1%N; 3%N] [7; 7; 7]]
                [[1.5%float]] [[3; 4]]
                None (Some "sceneA") (Some ["maps"; "m.npy"]))
             (World ∅ [])).
    vm_compute. reflexivity.
Defined.

(* --------------------------------------------------------------------- *)
(** ** The file system                                                    *)
(* --------------------------------------------------------------------- *)

Section FileSystem.
Implicit Types (fs : gmap path node) (p q : path).

Lemma dirname_snoc p (name : string) : dirname (p ++ [name]) = p.
Proof. unfold dirname. apply removelast_last. Qed.

Lemma snoc_neq_self p (name : string) : p ++ [name] <> p.
Proof.
  intros Heq. apply (f_equal (@length string)) in Heq.
  rewrite length_app in Heq. simpl in Heq. lia.
Qed.

Lemma path_exists_nonempty fs p : p <> [] -> path_exists fs p = exists_at fs p.
Proof. destruct p; [congruence | reflexivity]. Qed.

Lemma path_exists_snoc fs p (name : string) :
  path_exists fs (p ++ [name]) = exists_at fs (p ++ [name]).
Proof. apply path_exists_nonempty. intros H. now apply app_eq_nil in H as [_ H]. Qed.

Lemma node_at_snoc fs p (name : string) :
  node_at fs (p ++ [name]) = fs !! (p ++ [name]).
Proof. destruct p; reflexivity. Qed.

Lemma node_at_insert_ne fs p q (n : node) :
  p <> q -> node_at (<[q := n]> fs) p = node_at fs p.
Proof.
  intros Hne. destruct p; [reflexivity|]. simpl.
  apply lookup_insert_ne. congruence.
Qed.

Lemma isdir_at_insert_ne fs p q (n : node) :
  p <> q -> isdir_at (<[q := n]> fs) p = isdir_at fs p.
Proof. intros Hne. unfold isdir_at. now rewrite node_at_insert_ne. Qed.

Lemma isfile_at_insert_ne fs p q (n : node) :
  p <> q -> isfile_at (<[q := n]> fs) p = isfile_at fs p.
Proof. intros Hne. unfold isfile_at. now rewrite node_at_insert_ne. Qed.

Lemma write_at_inv fs p (c : content) fs' :
  write_at fs p c = Some fs' ->
  fs' = <[p := File c]> fs
  /\ isdir_at fs (dirname p) = true /\ isdir_at fs p = false.
Proof.
  unfold write_at. intros H.
  destruct (isdir_at fs (dirname p)); [|discriminate].
  destruct (isdir_at fs p); [discriminate|].
  injection H as <-. auto.
Qed.

Lemma only_adds_dirs_refl fs : only_adds_dirs fs fs.
Proof. intros q. now left. Qed.

Lemma only_adds_dirs_trans fs1 fs2 fs3 :
  only_adds_dirs fs1 fs2 -> only_adds_dirs fs2 fs3 -> only_adds_dirs fs1 fs3.
Proof.
  intros H12 H23 q. destruct (H12 q) as [E12|[E1 E2]], (H23 q) as [E23|[E2' E3]].
  - left. congruence.
  - right. split; congruence.
  - right. split; congruence.
  - congruence.
Qed.

Lemma mkdir_at_inv fs p fs' :
  mkdir_at fs p = Some fs' ->
  fs' = <[p := Dir]> fs /\ p <> [] /\ fs !! p = None.
Proof.
  unfold mkdir_at. intros H.
  destruct (exists_at fs p) eqn:Hex; [discriminate|].
  destruct (isdir_at fs (dirname p)); [|discriminate].
  injection H as <-. split; [reflexivity|].
  unfold exists_at in Hex. destruct p as [|c p]; [discriminate Hex|].
  split; [discriminate|]. cbn [node_at] in Hex.
  match type of Hex with
  | match ?t with _ => _ end = _ => destruct t eqn:E
  end; [discriminate Hex | reflexivity].
Qed.

Lemma mkdir_at_only_adds fs p fs' :
  mkdir_at fs p = Some fs' -> only_adds_dirs fs fs'.
Proof.
  intros H. apply mkdir_at_inv in H as (-> & _ & Hfree). intros q.
  destruct (decide (p = q)) as [<-|Hne].
  - right. split; [exact Hfree | apply lookup_insert_eq].
  - left. now apply lookup_insert_ne.
Qed.

Lemma makedirs_at_only_adds (exist_ok : bool) (rname : list string) :
  forall fs fs',
    (makedirs_at exist_ok rname fs = inl fs'
     \/ makedirs_at exist_ok rname fs = inr fs') ->
    only_adds_dirs fs fs'.
Proof.
  induction rname as [|c rhead IH]; intros fs fs' H.
  - simpl in H. destruct H as [H|H]; [discriminate|].
    injection H as <-. apply only_adds_dirs_refl.
  - cbn [makedirs_at] in H.
    set (after_head :=
           match rhead with
           | [] => inl fs
           | _ :: _ =>
               if exists_at fs (rev rhead) then inl fs
               else makedirs_at exist_ok rhead fs
           end) in H.
    assert (Hhead : forall fs1, (after_head = inl fs1 \/ after_head = inr fs1) ->
                                only_adds_dirs fs fs1).
    { intros fs1 H1. subst after_head. destruct rhead as [|c' rhead'].
      - destruct H1 as [H1|H1]; [|discriminate]. injection H1 as <-.
        apply only_adds_dirs_refl.
      - destruct (exists_at fs (rev (c' :: rhead'))).
        + destruct H1 as [H1|H1]; [|discriminate]. injection H1 as <-.
          apply only_adds_dirs_refl.
        + now apply IH. }
    destruct after_head as [fs1|fs1].
    + specialize (Hhead fs1 (or_introl eq_refl)).
      destruct (mkdir_at fs1 (rev (c :: rhead))) as [fs2|] eqn:Hmk.
      * destruct H as [H|H]; [|discriminate]. injection H as <-.
        eapply only_adds_dirs_trans; [exact Hhead|].
        eapply mkdir_at_only_adds; exact Hmk.
      * destruct (negb exist_ok || negb (isdir_at fs1 (rev (c :: rhead))));
          destruct H as [H|H]; try discriminate; injection H as <-; exact Hhead.
    + specialize (Hhead fs1 (or_intror eq_refl)).
      destruct H as [H|H]; [discriminate|]. injection H as <-. exact Hhead.
Qed.

(** When [os.makedirs] returns, the directory is there. *)
Lemma makedirs_at_isdir (exist_ok : bool) (rname : list string) fs fs' :
  makedirs_at exist_ok rname fs = inl fs' ->
  isdir_at fs' (rev rname) = true.
Proof.
  destruct rname as [|c rhead]; [discriminate|]. cbn [makedirs_at].
  match goal with |- match ?a with _ => _ end = _ -> _ => destruct a as [fs1|fs1] end;
    [|discriminate].
  destruct (mkdir_at fs1 (rev (c :: rhead))) as [fs2|] eqn:Hmk.
  - intros H. injection H as <-.
    apply mkdir_at_inv in Hmk as (-> & Hne & _).
    unfold isdir_at, node_at.
    destruct (rev (c :: rhead)) as [|x l] eqn:E; [reflexivity|].
    now rewrite lookup_insert_eq.
  - destruct (isdir_at fs1 (rev (c :: rhead))) eqn:Hd;
      destruct exist_ok; cbn; intros H; try discriminate;
      injection H as <-; exact Hd.
Qed.

End FileSystem.

(* --------------------------------------------------------------------- *)
(** ** Flushing the buffer                                                *)
(* --------------------------------------------------------------------- *)

Section Flush.
Import ExplorationData.

Lemma json_name_not_video (a b : string) :
  a +:+ "_" +:+ b +:+ ".json" <> "video.mp4".
Proof.
  intros H. apply (f_equal (fun s => endswith s ".json")) in H.
  assert (Hends : endswith (a +:+ "_" +:+ b +:+ ".json") ".json" = true).
  { unfold endswith. apply bool_decide_eq_true.
    rewrite !list_ascii_append.
    exists (list_ascii_of_string a ++ list_ascii_of_string "_"
              ++ list_ascii_of_string b).
    now rewrite <- !app_assoc. }
  rewrite Hends in H. vm_compute in H. discriminate H.
Qed.

(** The writes of a flush that returns, one after the other. *)
Lemma write_record_inv (dir : path) (d : t) (w : world) :
  is_ok (write_record d dir d w) = true ->
  exists fs1 fs2 fs3 : gmap path node,
    only_adds_dirs (files w) fs1
    /\ write_at fs1 (dir ++ [json_name d]) (Json (json_doc d)) = Some fs2
    /\ write_at fs2 (dir ++ ["video.mp4"]) (Mp4 (_rgb_images d)) = Some fs3
    /\ write_record d dir d w
       = Ok tt d (World fs3
                    (trace w ++ [ JsonDump (dir ++ [json_name d]) (json_doc d);
                                  ImagesToVideo (_rgb_images d)
                                                (dir ++ ["video.mp4"]) ])).
Proof.
  unfold write_record, json_dump_to, images_to_video, write_file, os_makedirs,
         emit.
  unfold_m.
  destruct (path_exists (files w) dir) eqn:Hex; cbn.
  - destruct (write_at (files w) _ _) as [fs2|] eqn:Hj; [|discriminate]. cbn.
    destruct (write_at fs2 _ _) as [fs3|] eqn:Hv; [|discriminate]. cbn.
    intros _. exists (files w), fs2, fs3.
    rewrite <- app_assoc. auto using only_adds_dirs_refl.
  - destruct (makedirs_at false (rev dir) (files w)) as [fs1|] eqn:Hmk;
      [|discriminate]. cbn.
    destruct (write_at fs1 _ _) as [fs2|] eqn:Hj; [|discriminate]. cbn.
    destruct (write_at fs2 _ _) as [fs3|] eqn:Hv; [|discriminate]. cbn.
    intros _. exists fs1, fs2, fs3.
    rewrite <- app_assoc. repeat split; auto.
    eapply makedirs_at_only_adds. left. exact Hmk.
Qed.

Lemma record_ok_inv (dir : path) (d : t) (w : world) :
  is_ok (record dir d w) = true ->
  lengths_agree d = true /\ ids_set d = true
  /\ record dir d w = write_record d dir d w.
Proof.
  rewrite record_asserts.
  destruct (lengths_agree d), (ids_set d); cbn; auto; discriminate.
Qed.

End Flush.

(** C8. Flush output: when [record] returns, the episode directory is a
    directory; exactly one JSON document has been written, to the file
    [{scene_id}_{episode_id}.json] in it, and it is the object with exactly
    the keys [ep_id], [ep_scene_id], [trajectory], [trajectory_pixels] and
    [map_filename] holding the buffered values: the episode id as the
    integer or the string it is, the scene id as a string, each pose as
    the list of its numbers, and the map's file name as the string of its
    components joined by [/]; after it the encoder was given the buffered
    frames and the path [episode_dir/video.mp4]; no other file was written
    or changed. *)
Theorem C8_flush_output (dir : path) (d : ExplorationData.t) (w : world) :
  is_ok (ExplorationData.record dir d w) = true ->
  exists (i : py_id) (s : string) (m : path),
    ExplorationData._ep_id d = Some i
    /\ ExplorationData._ep_scene_id d = Some s
    /\ ExplorationData._map_filename d = Some m
    /\ let json_path := dir ++ [s +:+ "_" +:+ str_of_id i +:+ ".json"] in
       let video_path := dir ++ ["video.mp4"] in
       let doc :=
         JDict [ ("ep_id", match i with IdInt z => JInt z | IdStr x => JStr x end);
                 ("ep_scene_id", JStr s);
                 ("trajectory",
                    JList (map (fun p => JList (map JFloat p))
                               (ExplorationData._trajectory d)));
                 ("trajectory_pixels",
                    JList (map (fun p => JList (map JInt p))
                               (ExplorationData._trajectory_pixels d)));
                 ("map_filename", JStr (String.concat "/" m)) ] in
       let w' := final_world (ExplorationData.record dir d w) in
       isdir_at (files w') dir = true
       /\ trace w' = trace w ++ [ JsonDump json_path doc;
                                  ImagesToVideo (ExplorationData._rgb_images d)
                                                video_path ]
       /\ files w' !! json_path = Some (File (Json doc))
       /\ files w' !! video_path
          = Some (File (Mp4 (ExplorationData._rgb_images d)))
       /\ (forall (p : path) (c : content),
             files w' !! p = Some (File c) ->
             p = json_path \/ p = video_path \/ files w !! p = Some (File c)).
Proof.
  intros Hok.
  destruct (record_ok_inv dir d w Hok) as (_ & Hids & Hrec).
  rewrite Hrec in Hok |- *.
  destruct (write_record_inv dir d w Hok) as (fs1 & fs2 & fs3 & Hdirs & Hj & Hv & Hrun).
  rewrite Hrun. cbn [final_world files trace].
  apply ids_set_iff in Hids as (Hi & Hs & Hm).
  destruct d as [rgb traj pix [i|] [s|] [m|]]; cbn in Hi, Hs, Hm; try congruence.
  exists i, s, m. cbn [ExplorationData._ep_id ExplorationData._ep_scene_id
                       ExplorationData._map_filename ExplorationData._rgb_images
                       ExplorationData._trajectory
                       ExplorationData._trajectory_pixels].
  do 3 (split; [reflexivity|]). cbv zeta.
  unfold ExplorationData.json_name, ExplorationData.json_doc in Hj.
  cbn in Hj, Hv.
  apply write_at_inv in Hj as (-> & Hparent & _).
  apply write_at_inv in Hv as (-> & _ & _).
  rewrite dirname_snoc in Hparent.
  set (json_path := dir ++ [s +:+ "_" +:+ str_of_id i +:+ ".json"]) in *.
  set (video_path := dir ++ ["video.mp4"]) in *.
  assert (Hjv : json_path <> video_path).
  { subst json_path video_path. intros H. apply app_inv_head in H.
    injection H as H. exact (json_name_not_video _ _ H). }
  split; [|split; [|split; [|split]]].
  - rewrite !isdir_at_insert_ne; [exact Hparent | |];
      intros H; symmetry in H; exact (snoc_neq_self _ _ H).
  - reflexivity.
  - rewrite lookup_insert_ne by congruence. apply lookup_insert_eq.
  - apply lookup_insert_eq.
  - intros p c Hp.
    destruct (decide (p = video_path)) as [->|Hpv]; [auto|].
    destruct (decide (p = json_path)) as [->|Hpj]; [auto|].
    right. right. rewrite !lookup_insert_ne in Hp by congruence.
    destruct (Hdirs p) as [E|[_ E]]; congruence.
Qed.

(** Two steps of episode 7 (a string id) flushed into a fresh tree, and
    one step of episode 12 (an integer id): what is dumped and what the
    encoder is given. *)
Lemma C8_flush_output_witness :
  let frame := NdArray [1%N; 1%N; 3%N] [7; 7; 7] in
  let d := ExplorationData.Build
             [frame; frame] [[1.5%float; 2%float]; [0.5%float; 4%float]]
             [[3; 4]; [5; 6]]
             (Some (IdStr "7")) (Some "sceneA")
             (Some ["out"; "sceneA"; "topdown_maps"; "m.npy"]) in
  let d12 := ExplorationData.Build [frame] [[1.5%float]] [[3; 4]]
               (Some (IdInt 12)) (Some "sceneA") (Some ["maps"; "m.npy"]) in
  let w' := final_world (ExplorationData.record ["out"; "sceneA"; "7"] d (World ∅ [])) in
  let w12 := final_world (ExplorationData.record ["out"; "sceneA"; "12"] d12
                            (World ∅ [])) in
  trace w'
  = [ JsonDump ["out"; "sceneA"; "7"; "sceneA_7.json"]
        (JDict [ ("ep_id", JStr "7"); ("ep_scene_id", JStr "sceneA");
                 ("trajectory",
                  JList [JList [JFloat 1.5; JFloat 2]; JList [JFloat 0.5; JFloat 4]]);
                 ("trajectory_pixels",
                  JList [JList [JInt 3; JInt 4]; JList [JInt 5; JInt 6]]);
                 ("map_filename", JStr "out/sceneA/topdown_maps/m.npy") ]);
      ImagesToVideo [frame; frame] ["out"; "sceneA"; "7"; "video.mp4"] ]
  /\ isdir_at (files w') ["out"; "sceneA"; "7"] = true
  /\ trace w12
     = [ JsonDump ["out"; "sceneA"; "12"; "sceneA_12.json"]
           (JDict [ ("ep_id", JInt 12); ("ep_scene_id", JStr "sceneA");
                    ("trajectory", JList [JList [JFloat 1.5]]);
                    ("trajectory_pixels", JList [JList [JInt 3; JInt 4]]);
                    ("map_filename", JStr "maps/m.npy") ]);
         ImagesToVideo [frame] ["out"; "sceneA"; "12"; "video.mp4"] ].
Proof.
  cbv zeta.
  destruct (C8_flush_output ["out"; "sceneA"; "7"]
              (ExplorationData.Build
                 [NdArray [1%N; 1%N; 3%N] [7; 7; 7]; NdArray [1%N; 1%N; 3%N] [7; 7; 7]]
                 [[1.5%float; 2%float]; [0.5%float; 4%float]]
                 [[3; 4]; [5; 6]]
                 (Some (IdStr "7")) (Some "sceneA")
                 (Some ["out"; "sceneA"; "topdown_maps"; "m.npy"]))
              (World ∅ []))
    as (i & s & m & Hi & Hs & Hm & Hdir & Htrace & _).
  { vm_compute. reflexivity. }
  cbn in Hi, Hs, Hm. injection Hi as <-. injection Hs as <-. injection Hm as <-.
  destruct (C8_flush_output ["out"; "sceneA"; "12"]
              (ExplorationData.Build [NdArray [1%N; 1%N; 3%N] [7; 7; 7]]
                 [[1.5%float]] [[3; 4]]
                 (Some (IdInt 12)) (Some "sceneA") (Some ["maps"; "m.npy"]))
              (World ∅ []))
    as (i & s & m & Hi & Hs & Hm & _ & Htrace12 & _).
  { vm_compute. reflexivity. }
  cbn in Hi, Hs, Hm. injection Hi as <-. injection Hs as <-. injection Hm as <-.
  split; [rewrite Htrace; vm_compute; reflexivity|].
  split; [exact Hdir|].
  rewrite Htrace12. vm_compute. reflexivity.
Defined.

(* --------------------------------------------------------------------- *)
(** ** The sensor: map store, quota and reset                             *)
(* --------------------------------------------------------------------- *)

Section Sensor.
Import STEpisodeGenerator.

Lemma map_filename_npy (self : t) :
  npy_path (map_filename_of self) = map_filename_of self.
Proof.
  unfold npy_path, map_filename_of.
  change [_scene_id (super self); "topdown_maps";
          hash_2d_binary_array (top_down_map (super self)) +:+ ".npy"]
    with ([_scene_id (super self); "topdown_maps"]
          ++ [hash_2d_binary_array (top_down_map (super self)) +:+ ".npy"]).
  rewrite !app_assoc, last_snoc, endswith_append. reflexivity.
Qed.

Lemma map_filename_nonempty (self : t) : map_filename_of self <> [].
Proof. unfold map_filename_of. intros H. now apply app_eq_nil in H as [_ H]. Qed.

(** The map store, case by case. *)
Lemma store_if_absent_spec (self : t) (w : world) :
  let mf := map_filename_of self in
  let packed := packbits (flatten (top_down_map (super self))) in
  store_if_absent self w =
    if isfile_at (files w) mf then Ok mf (with_ids self) w
    else match makedirs_at true (rev (dirname mf)) (files w) with
         | inr fs1 => Raise OSError (with_ids self) (World fs1 (trace w))
         | inl fs1 =>
             match write_at fs1 mf (Npy packed) with
             | Some fs2 =>
                 Ok mf (with_ids self)
                    (World fs2 (trace w ++ [NpSave mf packed]))
             | None => Raise OSError (with_ids self) (World fs1 (trace w))
             end
         end.
Proof.
  cbv zeta. unfold store_if_absent, save_map, np_save, write_file, os_makedirs,
    on_data, emit.
  unfold_m. cbv beta iota zeta. rewrite !map_filename_npy, set_ids_spec.
  cbv beta iota zeta. fold (with_ids self).
  destruct (isfile_at (files w) (map_filename_of self)); [reflexivity|]. cbn.
  destruct (makedirs_at true _ (files w)) as [fs1|fs1]; [|reflexivity]. cbn.
  destruct (write_at fs1 _ _); reflexivity.
Qed.

Lemma write_at_isfile (fs fs' : gmap path node) (p : path) (c : content) :
  p <> [] -> write_at fs p c = Some fs' -> isfile_at fs' p = true.
Proof.
  intros Hne H. apply write_at_inv in H as (-> & _ & _).
  unfold isfile_at, node_at. destruct p; [congruence|].
  now rewrite lookup_insert_eq.
Qed.

Lemma np_saves_app (tr1 tr2 : list event) :
  np_saves (tr1 ++ tr2) = (np_saves tr1 + np_saves tr2)%nat.
Proof. unfold np_saves. now rewrite List.filter_app, length_app. Qed.

(** Once the file is there, every later call for the same name returns
    it and leaves the world as it is. *)
Lemma store_each_hit (selves : list t) (w : world) (p : path) :
  Forall (fun self => map_filename_of self = p) selves ->
  isfile_at (files w) p = true ->
  store_each selves w = (map (fun _ => p) selves, w).
Proof.
  intros Hall Hfile. induction Hall as [|self selves Hp _ IH]; [reflexivity|].
  cbn [store_each map]. rewrite store_if_absent_spec. cbv zeta.
  rewrite Hp, Hfile, IH. reflexivity.
Qed.

End Sensor.

Section MapStore.
Import STEpisodeGenerator.

Lemma same_map_same_filename (self : t) (out : path) (scene : string)
    (tdm : ndarray bool) :
  _output_dir self = out ->
  _scene_id (super self) = scene ->
  shape (top_down_map (super self)) = shape tdm ->
  buffer (top_down_map (super self)) = buffer tdm ->
  map_filename_of self
  = out ++ [scene; "topdown_maps"; hash_2d_binary_array tdm +:+ ".npy"].
Proof.
  intros <- <- Hshape Hbuf. unfold map_filename_of, hash_2d_binary_array, flatten.
  now rewrite Hshape, Hbuf.
Qed.

Lemma store_each_bound (selves : list t) (p : path) :
  Forall (fun self => map_filename_of self = p) selves ->
  forall w : world,
    Forall (fun q => q = p) (store_each selves w).1
    /\ (np_saves (trace (store_each selves w).2) <= np_saves (trace w) + 1)%nat.
Proof.
  induction 1 as [|self selves Hp Hall IH]; intros w.
  - cbn [store_each fst snd]. split; [constructor | lia].
  - cbn [store_each]. rewrite store_if_absent_spec. cbv zeta. rewrite Hp.
    destruct (isfile_at (files w) p) eqn:Hfile.
    + destruct (IH w) as [IHp IHn].
      destruct (store_each selves w) as [ps w'']. cbn in *.
      split; [constructor; [reflexivity | exact IHp] | exact IHn].
    + destruct (makedirs_at true (rev (dirname p)) (files w)) as [fs1|fs1].
      * destruct (write_at fs1 p _) as [fs2|] eqn:Hw.
        -- assert (Hnow : isfile_at fs2 p = true).
           { eapply write_at_isfile; [|exact Hw].
             rewrite <- Hp. apply map_filename_nonempty. }
           rewrite (store_each_hit selves (World fs2 _) p Hall Hnow).
           cbn [fst snd trace].
           split.
           ++ constructor; [reflexivity|].
              clear. induction selves; cbn; constructor; auto.
           ++ rewrite np_saves_app. cbn [np_saves List.filter is_np_save length].
              lia.
        -- cbn [fst snd trace]. split; [constructor | lia].
      * cbn [fst snd trace]. split; [constructor | lia].
Qed.

End MapStore.

(** C7. Map store idempotence: calls of the map store for bit-identical
    maps (same shape, same content) of one scene, made one after the other
    on the same file system, all return the same path, derived from the
    digest, and together perform at most one physical write; a call that
    finds a file at that path returns the path and writes nothing, and a
    call that does not find one returns the same path, with the file there
    afterwards. *)
Theorem C7_store_if_absent_idempotent
    (selves : list STEpisodeGenerator.t) (w : world)
    (out : path) (scene : string) (tdm : ndarray bool) :
  Forall (fun self =>
            STEpisodeGenerator._output_dir self = out
            /\ STEpisodeGenerator._scene_id (STEpisodeGenerator.super self) = scene
            /\ shape (STEpisodeGenerator.top_down_map (STEpisodeGenerator.super self))
               = shape tdm
            /\ buffer (STEpisodeGenerator.top_down_map (STEpisodeGenerator.super self))
               = buffer tdm) selves ->
  let p := out ++ [scene; "topdown_maps"; hash_2d_binary_array tdm +:+ ".npy"] in
  Forall (fun q => q = p) (store_each selves w).1
  /\ (np_saves (trace (store_each selves w).2) <= np_saves (trace w) + 1)%nat
  /\ Forall (fun self =>
       forall w0 : world,
         (isfile_at (files w0) p = true ->
          STEpisodeGenerator.store_if_absent self w0
          = Ok p (STEpisodeGenerator.with_ids self) w0)
         /\ (forall q self' w',
               STEpisodeGenerator.store_if_absent self w0 = Ok q self' w' ->
               q = p /\ isfile_at (files w') p = true)) selves.
Proof.
  intros Hall. cbv zeta.
  set (p := out ++ [scene; "topdown_maps"; hash_2d_binary_array tdm +:+ ".npy"]).
  assert (Hp : Forall (fun self => STEpisodeGenerator.map_filename_of self = p) selves).
  { eapply Forall_impl; [exact Hall|]. intros self (Ho & Hs & Hsh & Hb).
    now apply same_map_same_filename. }
  destruct (store_each_bound selves p Hp w) as [Hpaths Hwrites].
  split; [exact Hpaths|]. split; [exact Hwrites|].
  eapply Forall_impl; [exact Hp|]. intros self Hself w0. split.
  - intros Hfile. rewrite store_if_absent_spec. cbv zeta. now rewrite Hself, Hfile.
  - intros q self' w'. rewrite store_if_absent_spec. cbv zeta. rewrite Hself.
    destruct (isfile_at (files w0) p) eqn:Hfile.
    + intros H. injection H as <- <- <-. auto.
    + destruct (makedirs_at true _ _) as [fs1|fs1]; [|discriminate].
      destruct (write_at fs1 p _) as [fs2|] eqn:Hw; [|discriminate].
      intros H. injection H as <- <- <-. cbn.
      split; [reflexivity|].
      eapply write_at_isfile; [|exact Hw].
      rewrite <- Hself. apply map_filename_nonempty.
Qed.

(** Two episodes of one scene with the same map, on an empty tree: one
    write, the same path twice. *)
Lemma C7_store_if_absent_idempotent_witness :
  let tdm := NdArray [2%N; 3%N] [true; false; true; true; true; false] in
  let sensor (ep : string) :=
    STEpisodeGenerator.__init__ ["data"; "spatiotemporal_episodes"] 1000
      (STEpisodeGenerator.Base "sceneA" (Episode (IdStr ep) "sceneA.glb") tdm []) in
  let run := store_each [sensor "7"; sensor "8"] (World ∅ []) in
  let p := ["data"; "spatiotemporal_episodes"; "sceneA"; "topdown_maps";
            hash_2d_binary_array tdm +:+ ".npy"] in
  run.1 = [p; p]
  /\ Forall (fun q => q = p) run.1
  /\ (np_saves (trace run.2) <= np_saves [] + 1)%nat.
Proof.
  cbv zeta. split; [vm_compute; reflexivity|].
  pose proof
    (C7_store_if_absent_idempotent
       [ STEpisodeGenerator.__init__ ["data"; "spatiotemporal_episodes"] 1000
           (STEpisodeGenerator.Base "sceneA" (Episode (IdStr "7") "sceneA.glb")
              (NdArray [2%N; 3%N] [true; false; true; true; true; false]) []);
         STEpisodeGenerator.__init__ ["data"; "spatiotemporal_episodes"] 1000
           (STEpisodeGenerator.Base "sceneA" (Episode (IdStr "8") "sceneA.glb")
              (NdArray [2%N; 3%N] [true; false; true; true; true; false]) []) ]
       (World ∅ []) ["data"; "spatiotemporal_episodes"] "sceneA"
       (NdArray [2%N; 3%N] [true; false; true; true; true; false])) as H.
  destruct H as (Hpaths & Hwrites & _).
  { repeat constructor. }
  split; [exact Hpaths | exact Hwrites].
Defined.

Section Lifecycle.
Import STEpisodeGenerator.

Lemma json_dumps_app (tr1 tr2 : list event) :
  json_dumps (tr1 ++ tr2) = (json_dumps tr1 + json_dumps tr2)%nat.
Proof. unfold json_dumps. now rewrite List.filter_app, length_app. Qed.

(** The quota check and the flush, case by case. *)
Lemma persist_episode_spec (self : t) (w : world) :
  let ep_id := episode_id (_episode (super self)) in
  let episode_dir := scene_dir_of self ++ [str_of_id ep_id] in
  let num_done := length (glob_star_slash (files w) (scene_dir_of self)) in
  persist_episode self w =
    if (Z.of_nat num_done >=? _num_episodes self)%Z
    then Exit self
           (emit (Print ("Already saved " +:+ str_of_Z (_num_episodes self)
                         +:+ " episodes for " +:+ _scene_id (super self))) w)
    else
      match ExplorationData.record episode_dir (_exploration_data self)
              (emit (Print ("Saved " +:+ str_of_nat num_done +:+ " of "
                            +:+ str_of_Z (_num_episodes self)
                            +:+ " episodes for " +:+ _scene_id (super self))) w)
      with
      | Ok _ d w2 =>
          Ok tt (with_data d self)
             (emit (Print ("Saved episode " +:+ str_of_id ep_id +:+ " in "
                           +:+ path_str episode_dir)) w2)
      | Raise e d w2 => Raise e (with_data d self) w2
      | Exit d w2 => Exit (with_data d self) w2
      end.
Proof.
  cbv zeta. unfold persist_episode, glob_count, on_data. unfold_m.
  cbv beta iota zeta.
  destruct (Z.of_nat _ >=? _num_episodes self)%Z; [reflexivity|].
  cbv beta iota zeta.
  destruct (ExplorationData.record _ _ _); reflexivity.
Qed.

Lemma save_last_episode_spec (self : t) (w : world) :
  _save_last_episode self w =
    match store_if_absent self w with
    | Ok _ self1 w1 => persist_episode self1 w1
    | Raise e self1 w1 => Raise e self1 w1
    | Exit self1 w1 => Exit self1 w1
    end.
Proof. reflexivity. Qed.

Section WithBase.
Variable base_reset : episode -> base -> base.
Variable base_get_observation : rgb_image -> base -> ndarray Z * base.
Variable pixel_coords : base -> ndarray Z.

(** [_reset], case by case. *)
Lemma reset_spec (ep : episode) (self : t) (w : world) :
  _reset base_reset ep self w =
    if _is_last_episode_valid self
    then match _save_last_episode self w with
         | Ok _ s1 w1 =>
             Ok tt (Build (_output_dir s1) (_num_episodes s1)
                          ExplorationData.__init__
                          (base_reset ep (super s1))) w1
         | Raise e s1 w1 => Raise e s1 w1
         | Exit s1 w1 => Exit s1 w1
         end
    else Ok tt (Build (_output_dir self) (_num_episodes self)
                      ExplorationData.__init__
                      (base_reset ep (super self)))
            (emit (Print "Last episode was too short, not saving it") w).
Proof.
  unfold _reset. unfold_m. cbv beta iota zeta.
  destruct (_is_last_episode_valid self); [|reflexivity].
  destruct (_save_last_episode self w); reflexivity.
Qed.

Lemma get_observation_spec (rgb : rgb_image) (self : t) (w : world) :
  let ab := base_get_observation rgb (super self) in
  get_observation base_get_observation pixel_coords rgb self w =
    Ok ab.1
       (Build (_output_dir self) (_num_episodes self)
          (final_self (ExplorationData.append rgb (_curr_pose ab.2)
                         (pixel_coords ab.2) (_exploration_data self) w))
          ab.2) w.
Proof.
  cbv zeta. unfold get_observation. unfold_m.
  destruct (base_get_observation rgb (super self)) as [action b].
  reflexivity.
Qed.

(** Each observation is one step in the buffer; the world is not
    touched. *)
Lemma observe_all_spec (frames : list rgb_image) :
  forall (self : t) (w : world),
    let o := observe_all base_get_observation pixel_coords frames self w in
    is_ok o = true /\ final_world o = w
    /\ _output_dir (final_self o) = _output_dir self
    /\ _num_episodes (final_self o) = _num_episodes self
    /\ ExplorationData.__len__ (_exploration_data (final_self o))
       = (ExplorationData.__len__ (_exploration_data self) + length frames)%nat.
Proof.
  induction frames as [|rgb frames IH]; intros self w; cbv zeta.
  - cbn. auto.
  - cbn [observe_all]. unfold mbind, M_bind, bind.
    rewrite get_observation_spec. cbv zeta.
    rewrite append_spec. cbn [final_self]. cbv beta iota.
    match goal with
    | |- context [observe_all _ _ frames ?s w] =>
        destruct (IH s w) as (H1 & H2 & H3 & H4 & H5);
        destruct (observe_all base_get_observation pixel_coords frames s w)
    end; try discriminate H1.
    cbn [is_ok final_world final_self _output_dir _num_episodes
         _exploration_data] in *.
    repeat split; try assumption.
    rewrite H5. unfold ExplorationData.__len__.
    cbn [ExplorationData._rgb_images]. rewrite length_app. cbn [length]. lia.
Qed.

End WithBase.

End Lifecycle.

Section Persisting.
Import STEpisodeGenerator.

(** A flush that returns has added the JSON dump and the encoder call to
    the trace, and left the buffer as it was. *)
Lemma record_ok_trace (dir : path) (d : ExplorationData.t) (w : world) :
  is_ok (ExplorationData.record dir d w) = true ->
  final_self (ExplorationData.record dir d w) = d
  /\ trace (final_world (ExplorationData.record dir d w))
     = trace w ++ [ JsonDump (dir ++ [ExplorationData.json_name d])
                             (ExplorationData.json_doc d);
                    ImagesToVideo (ExplorationData._rgb_images d)
                                  (dir ++ ["video.mp4"]) ].
Proof.
  intros Hok. destruct (record_ok_inv dir d w Hok) as (_ & _ & Hrec).
  rewrite Hrec in Hok |- *.
  destruct (write_record_inv dir d w Hok) as (fs1 & fs2 & fs3 & _ & _ & _ & Hrun).
  rewrite Hrun. auto.
Qed.

Lemma store_if_absent_dumps (self : t) (w : world) :
  json_dumps (trace (final_world (store_if_absent self w)))
  = json_dumps (trace w).
Proof.
  rewrite store_if_absent_spec. cbv zeta.
  destruct (isfile_at _ _); [reflexivity|].
  destruct (makedirs_at _ _ _) as [fs1|fs1]; [|reflexivity].
  destruct (write_at _ _ _); [|reflexivity].
  cbn [final_world trace]. rewrite json_dumps_app. cbn. lia.
Qed.

(** A persister that returns has written exactly one episode record. *)
Lemma save_last_episode_ok_dumps (self : t) (w : world) :
  is_ok (_save_last_episode self w) = true ->
  json_dumps (trace (final_world (_save_last_episode self w)))
  = S (json_dumps (trace w)).
Proof.
  rewrite save_last_episode_spec.
  pose proof (store_if_absent_dumps self w) as Hstore.
  destruct (store_if_absent self w) as [p self1 w1| |]; try discriminate.
  cbn [final_world] in Hstore. rewrite <- Hstore.
  rewrite persist_episode_spec. cbv zeta.
  destruct (Z.of_nat _ >=? _)%Z; [discriminate|].
  match goal with
  | |- context [ExplorationData.record ?dir ?d ?w0] =>
      pose proof (record_ok_trace dir d w0) as Hrec;
      destruct (ExplorationData.record dir d w0) as [a d2 w2| |]
  end; try discriminate.
  intros _. destruct (Hrec eq_refl) as [_ Htr]. cbn [final_world] in Htr |- *.
  unfold emit in *. cbn [trace] in *. rewrite Htr.
  rewrite !json_dumps_app. cbn. lia.
Qed.

Lemma record_never_exits (dir : path) (d : ExplorationData.t) (w : world) :
  is_exit (ExplorationData.record dir d w) = false.
Proof.
  rewrite record_asserts.
  destruct (ExplorationData.lengths_agree d && ExplorationData.ids_set d);
    [|reflexivity].
  pose proof (write_record_outcome dir d w) as H.
  destruct (ExplorationData.write_record d dir d w); [reflexivity..|contradiction].
Qed.

(** A persister that quits has written no episode record. *)
Lemma save_last_episode_exit_dumps (self : t) (w : world) :
  is_exit (_save_last_episode self w) = true ->
  json_dumps (trace (final_world (_save_last_episode self w)))
  = json_dumps (trace w).
Proof.
  rewrite save_last_episode_spec.
  pose proof (store_if_absent_dumps self w) as Hstore.
  destruct (store_if_absent self w) as [p self1 w1| |];
    [|discriminate | intros _; exact Hstore].
  cbn [final_world] in Hstore. rewrite <- Hstore.
  rewrite persist_episode_spec. cbv zeta.
  destruct (Z.of_nat _ >=? _)%Z.
  - intros _. cbn [final_world]. unfold emit. cbn [trace].
    rewrite json_dumps_app. cbn. lia.
  - match goal with
    | |- context [ExplorationData.record ?dir ?d ?w0] =>
        pose proof (record_never_exits dir d w0) as Hrec;
        destruct (ExplorationData.record dir d w0)
    end; cbn in Hrec |- *; discriminate.
Qed.

End Persisting.

(** C2, as the claim states it, at concrete inputs: an episode of 11
    steps reaches an episode boundary on an empty tree, once with a quota
    of zero episodes and once with a quota of one.  The buffer holds more
    than 10 steps, so the episode is handed to the persister; the
    persister stores the map, finds the quota met and quits.  No episode
    record is written: "persisted if and only if the length is greater
    than 10" fails from right to left. *)
Lemma C2_long_episode_not_persisted :
  let next := Episode (IdStr "8") "sceneA.glb" in
  let persisted (o : outcome STEpisodeGenerator.t unit) : Prop :=
    json_dumps (trace (final_world o)) <> json_dumps (trace empty_world) in
  let n (self : STEpisodeGenerator.t) : nat :=
    ExplorationData.__len__ (STEpisodeGenerator._exploration_data self) in
  let o0 := STEpisodeGenerator._reset demo_reset next (demo_sensor 11 0) empty_world in
  let o1 := STEpisodeGenerator._reset demo_reset next (demo_sensor 11 1) empty_world in
  n (demo_sensor 11 0) = 11%nat
  /\ STEpisodeGenerator._is_last_episode_valid (demo_sensor 11 0) = true
  /\ is_exit o0 = true
  /\ json_dumps (trace (final_world o0)) = 0%nat
  /\ last (trace (final_world o0)) = Some (Print "Already saved 0 episodes for sceneA")
  /\ ~ (persisted o0 <-> (10 < n (demo_sensor 11 0))%nat)
  /\ n (demo_sensor 11 1) = 11%nat
  /\ is_exit o1 = true
  /\ json_dumps (trace (final_world o1)) = 0%nat
  /\ ~ (persisted o1 <-> (10 < n (demo_sensor 11 1))%nat).
Proof.
  cbv zeta.
  do 5 (split; [vm_compute; reflexivity|]).
  split.
  { intros [_ H]. apply H; [vm_compute; lia | vm_compute; reflexivity]. }
  do 3 (split; [vm_compute; reflexivity|]).
  intros [_ H]. apply H; [vm_compute; lia | vm_compute; reflexivity].
Qed.

(** C2, amended. Discard threshold: at an episode boundary the buffered
    episode is handed to the persister if and only if the buffer holds
    strictly more than 10 steps.  With 10 steps or fewer [_reset] only
    prints that the episode was too short and starts a fresh buffer: no
    file is touched and no episode record is written.  With 11 steps or
    more the outcome of [_reset] is that of [_save_last_episode], followed
    by the fresh buffer when it returns; an episode record is written in
    [_reset] only then, and is written whenever the persister returns;
    when the persister quits (the quota is met), so does [_reset], and no
    episode record is written.  The length of the buffer is the number of
    observations since it was created. *)
Theorem C2_discard_threshold
    (base_reset : episode -> STEpisodeGenerator.base -> STEpisodeGenerator.base)
    (base_get_observation : rgb_image -> STEpisodeGenerator.base ->
                            ndarray Z * STEpisodeGenerator.base)
    (pixel_coords : STEpisodeGenerator.base -> ndarray Z)
    (ep : episode) (self : STEpisodeGenerator.t) (w : world) :
  let n := ExplorationData.__len__ (STEpisodeGenerator._exploration_data self) in
  let o := STEpisodeGenerator._reset base_reset ep self w in
  (STEpisodeGenerator._is_last_episode_valid self = true <-> (10 < n)%nat)
  /\ ((n <= 10)%nat ->
      o = Ok tt (STEpisodeGenerator.Build
                   (STEpisodeGenerator._output_dir self)
                   (STEpisodeGenerator._num_episodes self)
                   ExplorationData.__init__
                   (base_reset ep (STEpisodeGenerator.super self)))
             (emit (Print "Last episode was too short, not saving it") w))
  /\ ((10 < n)%nat ->
      o = match STEpisodeGenerator._save_last_episode self w with
          | Ok _ s1 w1 =>
              Ok tt (STEpisodeGenerator.Build
                       (STEpisodeGenerator._output_dir s1)
                       (STEpisodeGenerator._num_episodes s1)
                       ExplorationData.__init__
                       (base_reset ep (STEpisodeGenerator.super s1))) w1
          | Raise e s1 w1 => Raise e s1 w1
          | Exit s1 w1 => Exit s1 w1
          end)
  /\ (json_dumps (trace (final_world o)) <> json_dumps (trace w) -> (10 < n)%nat)
  /\ ((10 < n)%nat ->
      is_ok (STEpisodeGenerator._save_last_episode self w) = true ->
      json_dumps (trace (final_world o)) = S (json_dumps (trace w)))
  /\ (forall (frames : list rgb_image) (self0 : STEpisodeGenerator.t) (w0 : world),
        ExplorationData.__len__
          (STEpisodeGenerator._exploration_data
             (final_self (observe_all base_get_observation pixel_coords
                            frames self0 w0)))
        = (ExplorationData.__len__ (STEpisodeGenerator._exploration_data self0)
           + length frames)%nat)
  /\ ((10 < n)%nat ->
      is_exit (STEpisodeGenerator._save_last_episode self w) = true ->
      is_exit o = true
      /\ json_dumps (trace (final_world o)) = json_dumps (trace w)).
Proof.
  cbv zeta. rewrite reset_spec.
  unfold STEpisodeGenerator._is_last_episode_valid.
  set (n := ExplorationData.__len__ (STEpisodeGenerator._exploration_data self)).
  destruct (Nat.ltb_spec 10 n) as [Hlt|Hge].
  - split; [tauto|]. split; [lia|]. split; [reflexivity|]. split; [auto|].
    split; [|split].
    + intros _ Hok. pose proof (save_last_episode_ok_dumps self w Hok) as Hd.
      destruct (STEpisodeGenerator._save_last_episode self w); try discriminate.
      exact Hd.
    + intros frames self0 w0.
      apply (observe_all_spec base_get_observation pixel_coords frames self0 w0).
    + intros _ Hexit.
      pose proof (save_last_episode_exit_dumps self w Hexit) as Hd.
      destruct (STEpisodeGenerator._save_last_episode self w); try discriminate.
      split; [reflexivity | exact Hd].
  - split; [split; [discriminate | lia]|]. split; [reflexivity|].
    split; [lia|]. split.
    + cbn [final_world]. unfold emit. cbn [trace]. rewrite json_dumps_app. cbn.
      intros H. exfalso. apply H. lia.
    + split; [lia|]. split; [|lia]. intros frames self0 w0.
      apply (observe_all_spec base_get_observation pixel_coords frames self0 w0).
Qed.

(** Ten steps are dropped, eleven are saved. *)
Lemma C2_discard_threshold_witness :
  let next := Episode (IdStr "8") "sceneA.glb" in
  STEpisodeGenerator._reset demo_reset next (demo_sensor 10 1000) empty_world
  = Ok tt (STEpisodeGenerator.__init__ demo_output_dir 1000
             (demo_reset next (demo_base "7")))
       (World ∅ [Print "Last episode was too short, not saving it"])
  /\ json_dumps
       (trace (final_world
                 (STEpisodeGenerator._reset demo_reset next (demo_sensor 11 1000)
                    empty_world))) = 1%nat.
Proof.
  cbv zeta.
  pose proof (C2_discard_threshold demo_reset demo_get_observation
                demo_pixel_coords (Episode (IdStr "8") "sceneA.glb")
                (demo_sensor 10 1000) empty_world) as H10.
  pose proof (C2_discard_threshold demo_reset demo_get_observation
                demo_pixel_coords (Episode (IdStr "8") "sceneA.glb")
                (demo_sensor 11 1000) empty_world) as H11.
  cbv zeta in H10, H11.
  destruct H10 as (_ & Hdrop & _). destruct H11 as (_ & _ & _ & _ & Hsave & _).
  split.
  - rewrite Hdrop; [vm_compute; reflexivity | vm_compute; lia].
  - rewrite Hsave; [vm_compute; reflexivity | vm_compute; lia
                   | vm_compute; reflexivity].
Defined.

(* --------------------------------------------------------------------- *)
(** ** Frames after a flush                                               *)
(* --------------------------------------------------------------------- *)

Section Frames.
Import STEpisodeGenerator.

Lemma save_last_episode_keeps_frames (self : t) (w : world) :
  is_ok (_save_last_episode self w) = true ->
  ExplorationData._rgb_images
    (_exploration_data (final_self (_save_last_episode self w)))
  = ExplorationData._rgb_images (_exploration_data self).
Proof.
  rewrite save_last_episode_spec, store_if_absent_spec. cbv zeta.
  assert (Hpersist : forall w1,
    is_ok (persist_episode (with_ids self) w1) = true ->
    ExplorationData._rgb_images
      (_exploration_data (final_self (persist_episode (with_ids self) w1)))
    = ExplorationData._rgb_images (_exploration_data self)).
  { intros w1. rewrite persist_episode_spec. cbv zeta.
    destruct (Z.of_nat _ >=? _)%Z; [discriminate|].
    match goal with
    | |- context [ExplorationData.record ?dir ?d ?w0] =>
        pose proof (record_ok_trace dir d w0) as Hrec;
        destruct (ExplorationData.record dir d w0) as [a d2 w2| |]
    end; try discriminate.
    intros _. destruct (Hrec eq_refl) as [Hd _]. cbn [final_self] in Hd |- *.
    subst d2. reflexivity. }
  destruct (isfile_at _ _); [apply Hpersist|].
  destruct (makedirs_at _ _ _) as [fs1|fs1]; [|discriminate].
  destruct (write_at _ _ _); [apply Hpersist | discriminate].
Qed.

Lemma reset_fresh_buffer
    (base_reset : episode -> base -> base) (ep : episode) (self : t) (w : world) :
  is_ok (_reset base_reset ep self w) = true ->
  _exploration_data (final_self (_reset base_reset ep self w))
  = ExplorationData.__init__.
Proof.
  rewrite reset_spec.
  destruct (_is_last_episode_valid self); [|reflexivity].
  destruct (_save_last_episode self w); [reflexivity | discriminate | discriminate].
Qed.

End Frames.

(** C4, as the claim states it, at a concrete input: a one-step buffer is
    flushed successfully into an empty tree and still holds its frame
    afterwards. *)
Lemma C4_buffer_retains_frames_after_flush :
  let o := ExplorationData.record (demo_output_dir ++ ["sceneA"; "7"])
             demo_buffer empty_world in
  is_ok o = true
  /\ ExplorationData._rgb_images (final_self o) = [demo_frame 0]
  /\ ~ (is_ok o = true -> ExplorationData._rgb_images (final_self o) = []).
Proof.
  cbv zeta. split; [vm_compute; reflexivity|].
  split; [vm_compute; reflexivity|].
  intros H. specialize (H ltac:(vm_compute; reflexivity)).
  vm_compute in H. discriminate H.
Qed.

(** C4, amended. Frame release: a flush that returns has handed the
    buffered frames, with the path [episode_dir/video.mp4], to the video
    encoder as its last effect and leaves the buffer, frames included,
    exactly as it was; so does the persister as a whole.  The frames are
    let go when [_reset], after the flush, replaces the sensor's buffer by
    a fresh empty one. *)
Theorem C4_frames_released_at_reset
    (base_reset : episode -> STEpisodeGenerator.base -> STEpisodeGenerator.base)
    (ep : episode) (dir : path) (d : ExplorationData.t)
    (self : STEpisodeGenerator.t) (w : world) :
  (is_ok (ExplorationData.record dir d w) = true ->
   final_self (ExplorationData.record dir d w) = d
   /\ last (trace (final_world (ExplorationData.record dir d w)))
      = Some (ImagesToVideo (ExplorationData._rgb_images d)
                            (dir ++ ["video.mp4"])))
  /\ (is_ok (STEpisodeGenerator._save_last_episode self w) = true ->
      ExplorationData._rgb_images
        (STEpisodeGenerator._exploration_data
           (final_self (STEpisodeGenerator._save_last_episode self w)))
      = ExplorationData._rgb_images (STEpisodeGenerator._exploration_data self))
  /\ (is_ok (STEpisodeGenerator._reset base_reset ep self w) = true ->
      STEpisodeGenerator._exploration_data
        (final_self (STEpisodeGenerator._reset base_reset ep self w))
      = ExplorationData.__init__).
Proof.
  split; [|split].
  - intros Hok. destruct (record_ok_trace dir d w Hok) as [Hd Htr].
    split; [exact Hd|]. rewrite Htr.
    change [JsonDump (dir ++ [ExplorationData.json_name d])
              (ExplorationData.json_doc d);
            ImagesToVideo (ExplorationData._rgb_images d) (dir ++ ["video.mp4"])]
      with ([JsonDump (dir ++ [ExplorationData.json_name d])
               (ExplorationData.json_doc d)]
            ++ [ImagesToVideo (ExplorationData._rgb_images d)
                  (dir ++ ["video.mp4"])]).
    rewrite app_assoc. apply last_snoc.
  - apply save_last_episode_keeps_frames.
  - apply reset_fresh_buffer.
Qed.

(** Eleven steps: still in the buffer after the persister, gone after
    [_reset]. *)
Lemma C4_frames_released_at_reset_witness :
  let next := Episode (IdStr "8") "sceneA.glb" in
  let self := demo_sensor 11 1000 in
  length (ExplorationData._rgb_images
            (STEpisodeGenerator._exploration_data
               (final_self (STEpisodeGenerator._save_last_episode self empty_world))))
  = 11%nat
  /\ STEpisodeGenerator._exploration_data
       (final_self (STEpisodeGenerator._reset demo_reset next self empty_world))
     = ExplorationData.__init__
  /\ final_self (ExplorationData.record (demo_output_dir ++ ["sceneA"; "7"])
                   demo_buffer empty_world) = demo_buffer.
Proof.
  cbv zeta.
  destruct (C4_frames_released_at_reset demo_reset
              (Episode (IdStr "8") "sceneA.glb")
              (demo_output_dir ++ ["sceneA"; "7"]) demo_buffer
              (demo_sensor 11 1000) empty_world) as (Hrec & Hsave & Hreset).
  split; [|split].
  - rewrite Hsave; vm_compute; reflexivity.
  - apply Hreset. vm_compute. reflexivity.
  - apply Hrec. vm_compute. reflexivity.
Defined.

(* --------------------------------------------------------------------- *)
(** ** The quota                                                          *)
(* --------------------------------------------------------------------- *)

(** C1. Quota enforcement, evaluated where the code departs from it.
    First input: a valid episode of 11 steps, a quota of one episode, and a
    scene directory with no episode in it.  The map store has just created
    [scene_dir/topdown_maps], the pattern [scene_dir/*/] matches it, so the
    count is 1 and the persister prints that one episode is already saved
    and quits: no episode record is written although 0 < 1.
    Second input: a quota of two.  Episode 7 is saved (the count was 1);
    for episode 8 the scene directory holds one episode directory and the
    map directory, the count is 2, and the persister quits although
    1 < 2. *)
Theorem C1_quota_counts_the_map_directory :
  let scene_dir := demo_output_dir ++ ["sceneA"] in
  let self := demo_sensor 11 1 in
  let o := STEpisodeGenerator._save_last_episode self empty_world in
  let first := STEpisodeGenerator._save_last_episode (demo_sensor 11 2) empty_world in
  let second := STEpisodeGenerator._save_last_episode (demo_sensor_for "8" 11 2)
                  (final_world first) in
  (STEpisodeGenerator._is_last_episode_valid self = true
   /\ glob_star_slash (files empty_world) scene_dir = []
   /\ (Z.of_nat 0 <? STEpisodeGenerator._num_episodes self) = true
   /\ final_self o = STEpisodeGenerator.with_ids self
   /\ glob_star_slash (files (final_world o)) scene_dir
      = [scene_dir ++ ["topdown_maps"]]
   /\ json_dumps (trace (final_world o)) = 0%nat
   /\ trace (final_world o)
      = [ NpSave (scene_dir ++ ["topdown_maps";
                                hash_2d_binary_array demo_map +:+ ".npy"])
                 (packbits (flatten demo_map));
          Print "Already saved 1 episodes for sceneA" ]
   /\ is_exit o = true)
  /\ (is_ok first = true
      /\ json_dumps (trace (final_world first)) = 1%nat
      /\ Forall (fun p => p = scene_dir ++ ["7"] \/ p = scene_dir ++ ["topdown_maps"])
                (glob_star_slash (files (final_world first)) scene_dir)
      /\ length (glob_star_slash (files (final_world first)) scene_dir) = 2%nat
      /\ is_exit second = true
      /\ json_dumps (trace (final_world second)) = 1%nat
      /\ last (trace (final_world second))
         = Some (Print "Already saved 2 episodes for sceneA")).
Proof.
  cbv zeta. split.
  - do 7 (split; [vm_compute; reflexivity|]).
    vm_compute. reflexivity.
  - do 2 (split; [vm_compute; reflexivity|]).
    split.
    { vm_compute.
      constructor; [right; reflexivity|].
      constructor; [left; reflexivity|]. constructor. }
    do 3 (split; [vm_compute; reflexivity|]).
    vm_compute. reflexivity.
Qed.

(* ===================================================================== *)
(** * Further properties of the code                                      *)
(* ===================================================================== *)

(* --------------------------------------------------------------------- *)
(** ** Observations and the buffer                                        *)
(* --------------------------------------------------------------------- *)

Section Observations.
Import STEpisodeGenerator.
Variable base_reset : episode -> base -> base.
Variable base_get_observation : rgb_image -> base -> ndarray Z * base.
Variable pixel_coords : base -> ndarray Z.

Lemma observe_all_frames (frames : list rgb_image) :
  forall (self : t) (w : world),
    let o := observe_all base_get_observation pixel_coords frames self w in
    let d := _exploration_data self in
    let d' := _exploration_data (final_self o) in
    is_ok o = true /\ final_world o = w
    /\ _output_dir (final_self o) = _output_dir self
    /\ _num_episodes (final_self o) = _num_episodes self
    /\ ExplorationData._rgb_images d' = ExplorationData._rgb_images d ++ frames
    /\ length (ExplorationData._trajectory d')
       = (length (ExplorationData._trajectory d) + length frames)%nat
    /\ length (ExplorationData._trajectory_pixels d')
       = (length (ExplorationData._trajectory_pixels d) + length frames)%nat
    /\ ExplorationData._ep_id d' = ExplorationData._ep_id d
    /\ ExplorationData._ep_scene_id d' = ExplorationData._ep_scene_id d
    /\ ExplorationData._map_filename d' = ExplorationData._map_filename d.
Proof.
  induction frames as [|rgb frames IH]; intros self w; cbv zeta.
  - cbn. rewrite app_nil_r. repeat split; lia.
  - cbn [observe_all]. unfold mbind, M_bind, bind.
    rewrite get_observation_spec. cbv zeta.
    rewrite append_spec. cbn [final_self]. cbv beta iota.
    match goal with
    | |- context [observe_all _ _ frames ?s w] =>
        destruct (IH s w) as (H1 & H2 & H3 & H4 & H5 & H6 & H7 & H8 & H9 & H10);
        destruct (observe_all base_get_observation pixel_coords frames s w)
    end; try discriminate H1.
    cbn [is_ok final_world final_self _output_dir _num_episodes
         _exploration_data ExplorationData._rgb_images
         ExplorationData._trajectory ExplorationData._trajectory_pixels
         ExplorationData._ep_id ExplorationData._ep_scene_id
         ExplorationData._map_filename] in *.
    rewrite H5, H6, H7, !length_app, <- app_assoc. cbn [length app].
    repeat split; try assumption; lia.
Qed.

End Observations.

Section Alignment.
Import ExplorationData.

Lemma lookup_map {A B} (f : A -> B) (l : list A) (i : nat) :
  map f l !! i = f <$> (l !! i).
Proof.
  revert i. induction l as [|a l IH]; intros [|i]; cbn; auto.
Qed.

End Alignment.

(** X2. Index alignment: in a buffer filled by [append] calls on a fresh
    buffer, the frame, the pose and the pixel pose at any index [i] are
    those given to the [i]-th call (the pixel pose as its list of
    elements); past the last call all three lookups fail together. *)
Theorem X2_append_index_aligned
    (steps : list (rgb_image * list float * ndarray Z)) (w : world) (i : nat) :
  let d := final_self (ExplorationData.append_all steps
                         ExplorationData.__init__ w) in
  ExplorationData._rgb_images d !! i = (fun s => s.1.1) <$> steps !! i
  /\ ExplorationData._trajectory d !! i = (fun s => s.1.2) <$> steps !! i
  /\ ExplorationData._trajectory_pixels d !! i
     = (fun s => buffer s.2) <$> steps !! i.
Proof.
  cbv zeta. rewrite append_all_spec. cbn [final_self].
  cbn [ExplorationData._rgb_images ExplorationData._trajectory
       ExplorationData._trajectory_pixels ExplorationData.__init__ app].
  rewrite !lookup_map. auto.
Qed.

(* --------------------------------------------------------------------- *)
(** ** What the persister does to the sensor                              *)
(* --------------------------------------------------------------------- *)

Section SensorState.
Import STEpisodeGenerator.

(** [record] never assigns a field of the buffer, however it ends. *)
Lemma record_final_self (dir : path) (d : ExplorationData.t) (w : world) :
  final_self (ExplorationData.record dir d w) = d.
Proof.
  rewrite record_asserts.
  destruct (ExplorationData.lengths_agree d && ExplorationData.ids_set d);
    [|reflexivity].
  pose proof (write_record_outcome dir d w) as H.
  destruct (ExplorationData.write_record d dir d w); cbn;
    [exact H | exact (proj2 H) | contradiction].
Qed.

Lemma with_data_same (self : t) : with_data (_exploration_data self) self = self.
Proof. destruct self; reflexivity. Qed.

Lemma persist_episode_final_self (self : t) (w : world) :
  final_self (persist_episode self w) = self.
Proof.
  rewrite persist_episode_spec. cbv zeta.
  destruct (Z.of_nat _ >=? _)%Z; [reflexivity|].
  match goal with
  | |- context [ExplorationData.record ?dir ?d ?w0] =>
      pose proof (record_final_self dir d w0) as Hrec;
      destruct (ExplorationData.record dir d w0)
  end; cbn [final_self] in *; subst; apply with_data_same.
Qed.

Lemma store_if_absent_final_self (self : t) (w : world) :
  final_self (store_if_absent self w) = with_ids self.
Proof.
  rewrite store_if_absent_spec. cbv zeta.
  destruct (isfile_at _ _); [reflexivity|].
  destruct (makedirs_at _ _ _); [|reflexivity].
  destruct (write_at _ _ _); reflexivity.
Qed.

Lemma save_last_episode_final_self (self : t) (w : world) :
  final_self (_save_last_episode self w) = with_ids self.
Proof.
  rewrite save_last_episode_spec.
  pose proof (store_if_absent_final_self self w) as Hs.
  destruct (store_if_absent self w) as [p s1 w1| |]; cbn [final_self] in *;
    try exact Hs.
  rewrite persist_episode_final_self. exact Hs.
Qed.

Lemma with_ids_lengths (self : t) :
  ExplorationData.lengths_agree (_exploration_data (with_ids self))
  = ExplorationData.lengths_agree (_exploration_data self).
Proof. reflexivity. Qed.

Lemma with_ids_ids_set (self : t) :
  ExplorationData.ids_set (_exploration_data (with_ids self)) = true.
Proof. reflexivity. Qed.

Lemma persist_episode_no_assertion (self : t) (w : world) :
  ExplorationData.lengths_agree (_exploration_data self) = true ->
  ExplorationData.ids_set (_exploration_data self) = true ->
  failed_assertion (persist_episode self w) = false.
Proof.
  intros Hlen Hids. rewrite persist_episode_spec. cbv zeta.
  destruct (Z.of_nat _ >=? _)%Z; [reflexivity|].
  rewrite record_asserts, Hlen, Hids. cbn [andb].
  match goal with
  | |- context [ExplorationData.write_record ?d ?dir ?d ?w0] =>
      pose proof (write_record_no_assertion dir d w0) as Hio;
      destruct (ExplorationData.write_record d dir d w0) as [| e ? ? |]
  end; try reflexivity.
  exact Hio.
Qed.

Lemma save_last_episode_no_assertion (self : t) (w : world) :
  ExplorationData.lengths_agree (_exploration_data self) = true ->
  failed_assertion (_save_last_episode self w) = false.
Proof.
  intros Hlen. rewrite save_last_episode_spec.
  pose proof (store_if_absent_final_self self w) as Hs.
  rewrite store_if_absent_spec in *. cbv zeta in *.
  destruct (isfile_at _ _).
  - apply persist_episode_no_assertion; [exact Hlen | reflexivity].
  - destruct (makedirs_at _ _ _); [|reflexivity].
    destruct (write_at _ _ _); [|reflexivity].
    apply persist_episode_no_assertion; [exact Hlen | reflexivity].
Qed.

Section WithBase.
Variable base_reset : episode -> base -> base.
Variable base_get_observation : rgb_image -> base -> ndarray Z * base.
Variable pixel_coords : base -> ndarray Z.

Lemma reset_no_assertion (ep : episode) (self : t) (w : world) :
  ExplorationData.lengths_agree (_exploration_data self) = true ->
  failed_assertion (_reset base_reset ep self w) = false.
Proof.
  intros Hlen. rewrite reset_spec.
  destruct (_is_last_episode_valid self); [|reflexivity].
  pose proof (save_last_episode_no_assertion self w Hlen) as H.
  destruct (_save_last_episode self w); [reflexivity | exact H | reflexivity].
Qed.

Lemma reachable_lengths_agree (self : t) :
  reachable base_reset base_get_observation pixel_coords self ->
  ExplorationData.lengths_agree (_exploration_data self) = true.
Proof.
  induction 1 as [out q b | self rgb w _ IH | self ep w _ _ Hok].
  - reflexivity.
  - rewrite get_observation_spec. cbv zeta. rewrite append_spec.
    cbn [final_self _exploration_data].
    apply lengths_agree_iff in IH as [H1 H2]. apply lengths_agree_iff. cbn.
    rewrite !length_app. cbn. lia.
  - rewrite (reset_fresh_buffer base_reset ep self w Hok). reflexivity.
Qed.

Lemma reachable_observe_all (frames : list rgb_image) :
  forall (self : t) (w : world),
    reachable base_reset base_get_observation pixel_coords self ->
    reachable base_reset base_get_observation pixel_coords
      (final_self (observe_all base_get_observation pixel_coords frames self w)).
Proof.
  induction frames as [|rgb frames IH]; intros self w Hr; [exact Hr|].
  cbn [observe_all]. unfold mbind, M_bind, bind.
  pose proof (reach_observation base_reset base_get_observation pixel_coords
                self rgb w Hr) as Hstep.
  rewrite get_observation_spec in *. cbv zeta in *. cbn [final_self] in Hstep.
  cbv beta iota. apply IH. exact Hstep.
Qed.

End WithBase.

End SensorState.

(** X3. The persister changes nothing in the sensor but the identity of
    its buffer: however [_save_last_episode] ends (it returns, it raises,
    or it quits on the quota), the sensor is left with its configuration,
    its inherited state, its frames and its trajectories untouched, and
    with the episode id, the scene id and the map's file name attached to
    the buffer. *)
Theorem X3_save_last_episode_only_sets_ids
    (self : STEpisodeGenerator.t) (w : world) :
  let self' := final_self (STEpisodeGenerator._save_last_episode self w) in
  let d := STEpisodeGenerator._exploration_data self in
  let d' := STEpisodeGenerator._exploration_data self' in
  self' = STEpisodeGenerator.with_ids self
  /\ STEpisodeGenerator._output_dir self' = STEpisodeGenerator._output_dir self
  /\ STEpisodeGenerator._num_episodes self' = STEpisodeGenerator._num_episodes self
  /\ STEpisodeGenerator.super self' = STEpisodeGenerator.super self
  /\ ExplorationData._rgb_images d' = ExplorationData._rgb_images d
  /\ ExplorationData._trajectory d' = ExplorationData._trajectory d
  /\ ExplorationData._trajectory_pixels d' = ExplorationData._trajectory_pixels d
  /\ ExplorationData._ep_id d'
     = Some (episode_id (STEpisodeGenerator._episode (STEpisodeGenerator.super self)))
  /\ ExplorationData._ep_scene_id d'
     = Some (STEpisodeGenerator._scene_id (STEpisodeGenerator.super self))
  /\ ExplorationData._map_filename d'
     = Some (STEpisodeGenerator.map_filename_of self).
Proof.
  cbv zeta. rewrite save_last_episode_final_self. repeat split; reflexivity.
Qed.

(** X4. No assertion failure in normal use: in every sensor state reached
    from [__init__] through [get_observation] and [_reset], the three
    sequences of the buffer have the same length, and neither
    [_save_last_episode] nor [_reset] called in that state ends in an
    [AssertionError], whatever the file system holds. *)
Theorem X4_reachable_never_fails_assertion
    (base_reset : episode -> STEpisodeGenerator.base -> STEpisodeGenerator.base)
    (base_get_observation : rgb_image -> STEpisodeGenerator.base ->
                            ndarray Z * STEpisodeGenerator.base)
    (pixel_coords : STEpisodeGenerator.base -> ndarray Z)
    (self : STEpisodeGenerator.t) (ep : episode) (w : world) :
  reachable base_reset base_get_observation pixel_coords self ->
  let d := STEpisodeGenerator._exploration_data self in
  (length (ExplorationData._rgb_images d) = length (ExplorationData._trajectory d)
   /\ length (ExplorationData._trajectory d)
      = length (ExplorationData._trajectory_pixels d))
  /\ failed_assertion (STEpisodeGenerator._save_last_episode self w) = false
  /\ failed_assertion (STEpisodeGenerator._reset base_reset ep self w) = false.
Proof.
  intros Hr. cbv zeta.
  pose proof (reachable_lengths_agree _ _ _ self Hr) as Hlen.
  split; [now apply lengths_agree_iff|].
  split; [now apply save_last_episode_no_assertion
         | now apply reset_no_assertion].
Qed.

(** Episode 7 with 11 steps, then a reset, then 3 steps of episode 8. *)
Lemma X4_reachable_never_fails_assertion_witness :
  let next := Episode (IdStr "8") "sceneA.glb" in
  let after := final_self (STEpisodeGenerator._reset demo_reset next
                             (demo_sensor 11 1000) empty_world) in
  let self := final_self (observe_all demo_get_observation demo_pixel_coords
                            (map demo_frame (seq 0 3)) after empty_world) in
  reachable demo_reset demo_get_observation demo_pixel_coords self
  /\ failed_assertion (STEpisodeGenerator._reset demo_reset next self empty_world)
     = false.
Proof.
  cbv zeta.
  assert (Hr : reachable demo_reset demo_get_observation demo_pixel_coords
                 (final_self
                    (observe_all demo_get_observation demo_pixel_coords
                       (map demo_frame (seq 0 3))
                       (final_self
                          (STEpisodeGenerator._reset demo_reset
                             (Episode (IdStr "8") "sceneA.glb")
                             (demo_sensor 11 1000) empty_world))
                       empty_world))).
  { apply reachable_observe_all. apply reach_reset.
    - unfold demo_sensor, demo_sensor_for. apply reachable_observe_all.
      apply reach_init.
    - vm_compute. reflexivity. }
  split; [exact Hr|].
  apply (X4_reachable_never_fails_assertion demo_reset demo_get_observation
           demo_pixel_coords _ (Episode (IdStr "8") "sceneA.glb") empty_world Hr).
Defined.

Section NextEpisode.
Import STEpisodeGenerator.

Lemma reset_ok_state
    (base_reset : episode -> base -> base) (ep : episode) (self : t) (w : world) :
  is_ok (_reset base_reset ep self w) = true ->
  final_self (_reset base_reset ep self w)
  = Build (_output_dir self) (_num_episodes self) ExplorationData.__init__
          (base_reset ep (super self)).
Proof.
  rewrite reset_spec.
  destruct (_is_last_episode_valid self); [|reflexivity].
  pose proof (save_last_episode_final_self self w) as Hs.
  destruct (_save_last_episode self w) as [a s1 w1| |]; try discriminate.
  cbn [final_self] in *. subst s1. reflexivity.
Qed.

End NextEpisode.

(** X5. No leakage between episodes: when [_reset] returns, whether the
    finished episode was saved or dropped, the sensor keeps its output
    directory and its quota, its inherited state is the one the base
    class's reset produced from the old one, and the buffer filled by the
    following observations holds exactly the new frames, with one pose and
    one pixel pose each and with no identity attached. *)
Theorem X5_next_episode_starts_empty
    (base_reset : episode -> STEpisodeGenerator.base -> STEpisodeGenerator.base)
    (base_get_observation : rgb_image -> STEpisodeGenerator.base ->
                            ndarray Z * STEpisodeGenerator.base)
    (pixel_coords : STEpisodeGenerator.base -> ndarray Z)
    (ep : episode) (self : STEpisodeGenerator.t) (w w2 : world)
    (frames : list rgb_image) :
  is_ok (STEpisodeGenerator._reset base_reset ep self w) = true ->
  let s1 := final_self (STEpisodeGenerator._reset base_reset ep self w) in
  let s2 := final_self (observe_all base_get_observation pixel_coords
                          frames s1 w2) in
  let d2 := STEpisodeGenerator._exploration_data s2 in
  STEpisodeGenerator._output_dir s1 = STEpisodeGenerator._output_dir self
  /\ STEpisodeGenerator._num_episodes s1 = STEpisodeGenerator._num_episodes self
  /\ STEpisodeGenerator.super s1 = base_reset ep (STEpisodeGenerator.super self)
  /\ ExplorationData._rgb_images d2 = frames
  /\ length (ExplorationData._trajectory d2) = length frames
  /\ length (ExplorationData._trajectory_pixels d2) = length frames
  /\ ExplorationData._ep_id d2 = None
  /\ ExplorationData._ep_scene_id d2 = None
  /\ ExplorationData._map_filename d2 = None.
Proof.
  intros Hok. cbv zeta. rewrite (reset_ok_state base_reset ep self w Hok).
  match goal with
  | |- context [observe_all _ _ frames ?s w2] =>
      destruct (observe_all_frames base_get_observation pixel_coords frames s w2)
        as (_ & _ & _ & _ & H5 & H6 & H7 & H8 & H9 & H10)
  end.
  cbn in H5, H6, H7, H8, H9, H10.
  repeat split; try reflexivity; assumption.
Qed.

(** Eleven steps of episode 7 saved, then three steps of episode 8. *)
Lemma X5_next_episode_starts_empty_witness :
  let next := Episode (IdStr "8") "sceneA.glb" in
  let s1 := final_self (STEpisodeGenerator._reset demo_reset next
                          (demo_sensor 11 1000) empty_world) in
  let s2 := final_self (observe_all demo_get_observation demo_pixel_coords
                          [demo_frame 20; demo_frame 21; demo_frame 22]
                          s1 empty_world) in
  ExplorationData._rgb_images (STEpisodeGenerator._exploration_data s2)
  = [demo_frame 20; demo_frame 21; demo_frame 22].
Proof.
  cbv zeta.
  apply (X5_next_episode_starts_empty demo_reset demo_get_observation
           demo_pixel_coords (Episode (IdStr "8") "sceneA.glb")
           (demo_sensor 11 1000) empty_world empty_world
           [demo_frame 20; demo_frame 21; demo_frame 22]).
  vm_compute. reflexivity.
Defined.

(* --------------------------------------------------------------------- *)
(** ** The quota check                                                    *)
(* --------------------------------------------------------------------- *)

Section Quota.
Import STEpisodeGenerator.

(** The persister quits exactly when the count reaches the quota, and
    then it has only printed. *)
Lemma persist_episode_exit (self : t) (w : world) :
  let count := length (glob_star_slash (files w) (scene_dir_of self)) in
  (is_exit (persist_episode self w) = true
   <-> (_num_episodes self <= Z.of_nat count)%Z)
  /\ (is_exit (persist_episode self w) = true ->
      final_world (persist_episode self w)
      = emit (Print ("Already saved " +:+ str_of_Z (_num_episodes self)
                     +:+ " episodes for " +:+ _scene_id (super self))) w).
Proof.
  cbv zeta. rewrite persist_episode_spec. cbv zeta.
  destruct (Z.geb_spec (Z.of_nat (length (glob_star_slash (files w)
                                           (scene_dir_of self))))
                       (_num_episodes self)) as [Hge|Hlt].
  - cbn. split; [split; [lia | reflexivity] | reflexivity].
  - match goal with
    | |- context [ExplorationData.record ?dir ?d ?w0] =>
        pose proof (record_never_exits dir d w0) as Hrec;
        destruct (ExplorationData.record dir d w0)
    end; cbn in *; try discriminate Hrec;
      (split; [split; [discriminate | lia] | discriminate]).
Qed.

Lemma store_if_absent_never_exits (self : t) (w : world) :
  is_exit (store_if_absent self w) = false.
Proof.
  rewrite store_if_absent_spec. cbv zeta.
  destruct (isfile_at _ _); [reflexivity|].
  destruct (makedirs_at _ _ _); [|reflexivity].
  destruct (write_at _ _ _); reflexivity.
Qed.

(** When the map store returns, the map's file is there. *)
Lemma store_if_absent_ok_isfile (self : t) (w : world) :
  is_ok (store_if_absent self w) = true ->
  isfile_at (files (final_world (store_if_absent self w))) (map_filename_of self)
  = true.
Proof.
  rewrite store_if_absent_spec. cbv zeta.
  destruct (isfile_at _ _) eqn:Hfile; [intros _; exact Hfile|].
  destruct (makedirs_at _ _ _) as [fs1|fs1]; [|discriminate].
  destruct (write_at fs1 _ _) as [fs2|] eqn:Hw; [|discriminate].
  intros _. cbn [final_world files].
  eapply write_at_isfile; [apply map_filename_nonempty | exact Hw].
Qed.

Lemma scene_dir_of_with_ids (self : t) :
  scene_dir_of (with_ids self) = scene_dir_of self.
Proof. reflexivity. Qed.

End Quota.

(** X6. A quota of zero or less saves nothing: with [num_episodes <= 0]
    the persister never returns and never writes an episode record; as
    soon as the map store has returned, it quits. *)
Theorem X6_nonpositive_quota_never_saves
    (self : STEpisodeGenerator.t) (w : world) :
  (STEpisodeGenerator._num_episodes self <= 0)%Z ->
  let o := STEpisodeGenerator._save_last_episode self w in
  is_ok o = false
  /\ json_dumps (trace (final_world o)) = json_dumps (trace w)
  /\ (is_ok (STEpisodeGenerator.store_if_absent self w) = true ->
      is_exit o = true).
Proof.
  intros Hq. cbv zeta. rewrite save_last_episode_spec.
  pose proof (store_if_absent_dumps self w) as Hd.
  pose proof (store_if_absent_final_self self w) as Hs.
  destruct (STEpisodeGenerator.store_if_absent self w) as [p s1 w1| |];
    cbn [final_world final_self is_ok] in *;
    [|split; [reflexivity | split; [exact Hd | discriminate]]..].
  subst s1.
  destruct (persist_episode_exit (STEpisodeGenerator.with_ids self) w1)
    as [Hiff Hworld]. cbv zeta in Hiff, Hworld.
  assert (Hexit : is_exit (STEpisodeGenerator.persist_episode
                             (STEpisodeGenerator.with_ids self) w1) = true).
  { apply Hiff. change (STEpisodeGenerator._num_episodes
                          (STEpisodeGenerator.with_ids self))
      with (STEpisodeGenerator._num_episodes self). lia. }
  specialize (Hworld Hexit). rewrite Hworld.
  destruct (STEpisodeGenerator.persist_episode _ w1); try discriminate Hexit.
  split; [reflexivity|]. split; [|auto].
  unfold emit. cbn [trace]. rewrite json_dumps_app, Hd. cbn. lia.
Qed.

(** A quota of zero on an empty tree: the map is stored, then the process
    quits. *)
Lemma X6_nonpositive_quota_never_saves_witness :
  is_exit (STEpisodeGenerator._save_last_episode (demo_sensor 11 0) empty_world)
  = true.
Proof.
  apply (X6_nonpositive_quota_never_saves (demo_sensor 11 0) empty_world).
  - vm_compute. discriminate.
  - vm_compute. reflexivity.
Defined.

(** When and how [_save_last_episode] quits. *)
Lemma save_last_episode_exit
    (self : STEpisodeGenerator.t) (w : world) :
  let o := STEpisodeGenerator._save_last_episode self w in
  let stored := STEpisodeGenerator.store_if_absent self w in
  let count := length (glob_star_slash (files (final_world stored))
                         (STEpisodeGenerator.scene_dir_of self)) in
  (is_exit o = true
   <-> is_ok stored = true
       /\ (STEpisodeGenerator._num_episodes self <= Z.of_nat count)%Z)
  /\ (is_exit o = true ->
      files (final_world o) = files (final_world stored)
      /\ isfile_at (files (final_world o))
                   (STEpisodeGenerator.map_filename_of self) = true
      /\ json_dumps (trace (final_world o)) = json_dumps (trace w)
      /\ last (trace (final_world o))
         = Some (Print ("Already saved "
                        +:+ str_of_Z (STEpisodeGenerator._num_episodes self)
                        +:+ " episodes for "
                        +:+ STEpisodeGenerator._scene_id
                              (STEpisodeGenerator.super self)))).
Proof.
  cbv zeta. rewrite save_last_episode_spec.
  pose proof (store_if_absent_dumps self w) as Hd.
  pose proof (store_if_absent_final_self self w) as Hs.
  pose proof (store_if_absent_never_exits self w) as Hne.
  pose proof (store_if_absent_ok_isfile self w) as Hfile.
  destruct (STEpisodeGenerator.store_if_absent self w) as [p s1 w1| |];
    cbn [final_world final_self is_ok is_exit] in *; try discriminate Hne.
  - subst s1.
    destruct (persist_episode_exit (STEpisodeGenerator.with_ids self) w1)
      as [Hiff Hworld]. cbv zeta in Hiff, Hworld.
    rewrite scene_dir_of_with_ids in Hiff.
    change (STEpisodeGenerator._num_episodes (STEpisodeGenerator.with_ids self))
      with (STEpisodeGenerator._num_episodes self) in *.
    change (STEpisodeGenerator._scene_id
              (STEpisodeGenerator.super (STEpisodeGenerator.with_ids self)))
      with (STEpisodeGenerator._scene_id (STEpisodeGenerator.super self)) in *.
    split; [rewrite Hiff; tauto|].
    intros Hexit. rewrite (Hworld Hexit). unfold emit. cbn [files trace].
    split; [reflexivity|]. split; [exact (Hfile eq_refl)|].
    split; [rewrite json_dumps_app, Hd; cbn; lia | apply last_snoc].
  - split; [split; [discriminate | intros [H _]; discriminate H] | discriminate].
Qed.

(** X7. Quitting on the quota: when the output directory and the scene id
    are made of plain names without the pattern characters of [glob]
    (so that [glob] reads the scene directory literally),
    [_save_last_episode] quits exactly when the map store has returned and
    the number of directories directly under the scene directory (the
    matches of [scene_dir/*/]) in the tree it left is at least
    [num_episodes].  In that case the map's file is in place (it is stored
    before the check), no episode record has been written, the tree is the
    one the map store left, and the last line printed is the "Already
    saved" message. *)
Theorem X7_quota_exit
    (self : STEpisodeGenerator.t) (w : world) :
  literal_path (STEpisodeGenerator.scene_dir_of self) = true ->
  let o := STEpisodeGenerator._save_last_episode self w in
  let stored := STEpisodeGenerator.store_if_absent self w in
  let count := length (glob_star_slash (files (final_world stored))
                         (STEpisodeGenerator.scene_dir_of self)) in
  (is_exit o = true
   <-> is_ok stored = true
       /\ (STEpisodeGenerator._num_episodes self <= Z.of_nat count)%Z)
  /\ (is_exit o = true ->
      files (final_world o) = files (final_world stored)
      /\ isfile_at (files (final_world o))
                   (STEpisodeGenerator.map_filename_of self) = true
      /\ json_dumps (trace (final_world o)) = json_dumps (trace w)
      /\ last (trace (final_world o))
         = Some (Print ("Already saved "
                        +:+ str_of_Z (STEpisodeGenerator._num_episodes self)
                        +:+ " episodes for "
                        +:+ STEpisodeGenerator._scene_id
                              (STEpisodeGenerator.super self)))).
Proof. intros _. apply save_last_episode_exit. Qed.

(** The quota of one on an empty tree. *)
Lemma X7_quota_exit_witness :
  let o := STEpisodeGenerator._save_last_episode (demo_sensor 11 1) empty_world in
  literal_path (STEpisodeGenerator.scene_dir_of (demo_sensor 11 1)) = true
  /\ isfile_at (files (final_world o))
               (STEpisodeGenerator.map_filename_of (demo_sensor 11 1)) = true
  /\ json_dumps (trace (final_world o)) = 0%nat
  /\ last (trace (final_world o)) = Some (Print "Already saved 1 episodes for sceneA").
Proof.
  cbv zeta.
  assert (Hlit : literal_path (STEpisodeGenerator.scene_dir_of (demo_sensor 11 1))
                 = true) by (vm_compute; reflexivity).
  split; [exact Hlit|].
  destruct (X7_quota_exit (demo_sensor 11 1) empty_world Hlit) as [_ H].
  cbv zeta in H. destruct H as (_ & Hfile & Hdumps & Hlast).
  { vm_compute. reflexivity. }
  split; [exact Hfile|]. split; [exact Hdumps|].
  rewrite Hlast. vm_compute. reflexivity.
Defined.

(* --------------------------------------------------------------------- *)
(** ** Well-formed trees and the directory count                          *)
(* --------------------------------------------------------------------- *)

Section WellFormed.
Import STEpisodeGenerator.
Implicit Types (fs : gmap path node) (p q : path).

Lemma dirname_neq_self p : p <> [] -> dirname p <> p.
Proof.
  intros Hne Heq. destruct (exists_last Hne) as (l & a & ->).
  rewrite dirname_snoc in Heq. symmetry in Heq. exact (snoc_neq_self _ _ Heq).
Qed.

Lemma isdir_at_lookup fs p : p <> [] -> isdir_at fs p = true -> fs !! p = Some Dir.
Proof.
  intros Hne. unfold isdir_at, node_at. destruct p; [congruence|].
  destruct (fs !! _) as [[|c]|]; congruence.
Qed.

Lemma isfile_at_lookup fs p :
  isfile_at fs p = true -> exists c, fs !! p = Some (File c) /\ p <> [].
Proof.
  unfold isfile_at, node_at. destruct p; [discriminate|].
  destruct (fs !! _) as [[|c]|]; try discriminate. intros _. eauto.
Qed.

Lemma well_formed_insert fs p (n : node) :
  well_formed fs -> p <> [] ->
  isdir_at fs (dirname p) = true ->
  isdir_at fs p = false ->
  well_formed (<[p := n]> fs).
Proof.
  intros Hwf Hne Hparent Hnotdir q m Hq.
  assert (Hkeep : forall r, r <> p -> isdir_at fs r = true ->
                            isdir_at (<[p := n]> fs) r = true).
  { intros r Hr Hd. now rewrite isdir_at_insert_ne. }
  destruct (decide (q = p)) as [->|Hqp].
  - apply Hkeep; [now apply dirname_neq_self | exact Hparent].
  - rewrite lookup_insert_ne in Hq by congruence.
    pose proof (Hwf q m Hq) as Hd.
    apply Hkeep; [|exact Hd]. intros Heq. rewrite Heq in Hd. congruence.
Qed.

Lemma mkdir_at_well_formed fs p fs' :
  well_formed fs -> mkdir_at fs p = Some fs' -> well_formed fs'.
Proof.
  intros Hwf H. unfold mkdir_at in H.
  destruct (exists_at fs p) eqn:Hex; [discriminate|].
  destruct (isdir_at fs (dirname p)) eqn:Hparent; [|discriminate].
  injection H as <-.
  assert (Hnd : isdir_at fs p = false).
  { unfold exists_at in Hex. unfold isdir_at.
    destruct (node_at fs p); [discriminate | reflexivity]. }
  apply well_formed_insert; auto.
  intros ->. discriminate Hex.
Qed.

Lemma makedirs_at_well_formed (exist_ok : bool) (rname : list string) :
  forall fs fs',
    well_formed fs ->
    (makedirs_at exist_ok rname fs = inl fs'
     \/ makedirs_at exist_ok rname fs = inr fs') ->
    well_formed fs'.
Proof.
  induction rname as [|c rhead IH]; intros fs fs' Hwf H.
  - simpl in H. destruct H as [H|H]; [discriminate|]. now injection H as <-.
  - cbn [makedirs_at] in H.
    set (after_head :=
           match rhead with
           | [] => inl fs
           | _ :: _ =>
               if exists_at fs (rev rhead) then inl fs
               else makedirs_at exist_ok rhead fs
           end) in H.
    assert (Hhead : forall fs1, (after_head = inl fs1 \/ after_head = inr fs1) ->
                                well_formed fs1).
    { intros fs1 H1. subst after_head. destruct rhead as [|c' rhead'].
      - destruct H1 as [H1|H1]; [|discriminate]. now injection H1 as <-.
      - destruct (exists_at fs (rev (c' :: rhead'))).
        + destruct H1 as [H1|H1]; [|discriminate]. now injection H1 as <-.
        + now apply (IH fs). }
    destruct after_head as [fs1|fs1].
    + specialize (Hhead fs1 (or_introl eq_refl)).
      destruct (mkdir_at fs1 (rev (c :: rhead))) as [fs2|] eqn:Hmk.
      * destruct H as [H|H]; [|discriminate]. injection H as <-.
        eapply mkdir_at_well_formed; eauto.
      * destruct (negb exist_ok || negb (isdir_at fs1 (rev (c :: rhead))));
          destruct H as [H|H]; try discriminate; now injection H as <-.
    + specialize (Hhead fs1 (or_intror eq_refl)).
      destruct H as [H|H]; [discriminate|]. now injection H as <-.
Qed.

Lemma write_at_well_formed fs p (c : content) fs' :
  well_formed fs -> write_at fs p c = Some fs' -> well_formed fs'.
Proof.
  intros Hwf H. apply write_at_inv in H as (-> & Hparent & Hnd).
  apply well_formed_insert; auto.
  intros ->. discriminate Hnd.
Qed.

(** The map store keeps the tree well-formed. *)
Lemma store_if_absent_well_formed (self : t) (w : world) :
  well_formed (files w) ->
  well_formed (files (final_world (store_if_absent self w))).
Proof.
  intros Hwf. rewrite store_if_absent_spec. cbv zeta.
  destruct (isfile_at _ _); [exact Hwf|].
  destruct (makedirs_at _ _ _) as [fs1|fs1] eqn:Hmk.
  - assert (Hwf1 : well_formed fs1)
      by (eapply makedirs_at_well_formed; [exact Hwf | left; exact Hmk]).
    destruct (write_at fs1 _ _) as [fs2|] eqn:Hw; [|exact Hwf1].
    eapply write_at_well_formed; eauto.
  - eapply makedirs_at_well_formed; [exact Hwf | right; exact Hmk].
Qed.

Lemma map_filename_dirname (self : t) :
  dirname (map_filename_of self) = scene_dir_of self ++ ["topdown_maps"].
Proof.
  unfold map_filename_of, scene_dir_of.
  change [_scene_id (super self); "topdown_maps";
          hash_2d_binary_array (top_down_map (super self)) +:+ ".npy"]
    with ([_scene_id (super self); "topdown_maps"]
          ++ [hash_2d_binary_array (top_down_map (super self)) +:+ ".npy"]).
  rewrite app_assoc, dirname_snoc, <- app_assoc. reflexivity.
Qed.

(** In a well-formed tree holding the map's file, the pattern
    [scene_dir/*/] matches the map directory. *)
Lemma glob_sees_map_directory fs (self : t) :
  well_formed fs ->
  isfile_at fs (map_filename_of self) = true ->
  scene_dir_of self ++ ["topdown_maps"]
    ∈ glob_star_slash fs (scene_dir_of self).
Proof.
  intros Hwf Hfile.
  apply isfile_at_lookup in Hfile as (c & Hmf & _).
  pose proof (Hwf _ _ Hmf) as Hmaps. rewrite map_filename_dirname in Hmaps.
  apply isdir_at_lookup in Hmaps as Hmaps';
    [|intros H; now apply app_eq_nil in H as [_ H]].
  pose proof (Hwf _ _ Hmaps') as Hscene. rewrite dirname_snoc in Hscene.
  unfold glob_star_slash. rewrite Hscene.
  apply list_elem_of_fmap.
  exists (scene_dir_of self ++ ["topdown_maps"], Dir). split; [reflexivity|].
  apply elem_of_map_to_list, map_lookup_filter_Some. split; [exact Hmaps'|].
  unfold matches_star_slash. cbn [fst snd].
  rewrite last_snoc, dirname_snoc.
  rewrite !bool_decide_eq_true_2 by reflexivity. reflexivity.
Qed.

End WellFormed.

(** X8. The map directory is counted: when the output directory and the
    scene id are made of plain names without the pattern characters of
    [glob], on a well-formed tree, once the map store has returned, the
    pattern [scene_dir/*/] matches [scene_dir/topdown_maps], so the count
    compared with the quota is at least one whatever the number of saved
    episodes; with [num_episodes <= 1] the persister therefore quits and
    no episode record is ever written. *)
Theorem X8_map_directory_is_counted
    (self : STEpisodeGenerator.t) (w : world) :
  literal_path (STEpisodeGenerator.scene_dir_of self) = true ->
  well_formed (files w) ->
  is_ok (STEpisodeGenerator.store_if_absent self w) = true ->
  let stored := final_world (STEpisodeGenerator.store_if_absent self w) in
  let scene_dir := STEpisodeGenerator.scene_dir_of self in
  scene_dir ++ ["topdown_maps"] ∈ glob_star_slash (files stored) scene_dir
  /\ (1 <= length (glob_star_slash (files stored) scene_dir))%nat
  /\ ((STEpisodeGenerator._num_episodes self <= 1)%Z ->
      is_exit (STEpisodeGenerator._save_last_episode self w) = true
      /\ json_dumps (trace (final_world
                              (STEpisodeGenerator._save_last_episode self w)))
         = json_dumps (trace w)).
Proof.
  intros _ Hwf Hok. cbv zeta.
  pose proof (store_if_absent_well_formed self w Hwf) as Hwf1.
  pose proof (store_if_absent_ok_isfile self w Hok) as Hfile.
  pose proof (glob_sees_map_directory _ self Hwf1 Hfile) as Hin.
  assert (Hcount : (1 <= length (glob_star_slash
                                   (files (final_world
                                             (STEpisodeGenerator.store_if_absent
                                                self w)))
                                   (STEpisodeGenerator.scene_dir_of self)))%nat).
  { destruct (glob_star_slash _ _) as [|x l]; [|cbn; lia].
    now apply elem_of_nil in Hin. }
  split; [exact Hin|]. split; [exact Hcount|].
  intros Hq. destruct (save_last_episode_exit self w) as [Hiff Heff].
  cbv zeta in Hiff, Heff.
  assert (Hexit : is_exit (STEpisodeGenerator._save_last_episode self w) = true).
  { apply Hiff. split; [exact Hok | lia]. }
  split; [exact Hexit|]. now destruct (Heff Hexit) as (_ & _ & Hd & _).
Qed.

(** A quota of one on an empty tree: nothing is ever saved. *)
Lemma X8_map_directory_is_counted_witness :
  literal_path (STEpisodeGenerator.scene_dir_of (demo_sensor 11 1)) = true
  /\ well_formed (files empty_world)
  /\ is_exit (STEpisodeGenerator._save_last_episode (demo_sensor 11 1) empty_world)
     = true.
Proof.
  assert (Hlit : literal_path (STEpisodeGenerator.scene_dir_of (demo_sensor 11 1))
                 = true) by (vm_compute; reflexivity).
  assert (Hwf : well_formed (files empty_world)).
  { intros p n H. cbn in H. rewrite lookup_empty in H. discriminate H. }
  split; [exact Hlit|]. split; [exact Hwf|].
  destruct (X8_map_directory_is_counted (demo_sensor 11 1) empty_world Hlit Hwf)
    as (_ & _ & Hquit).
  { vm_compute. reflexivity. }
  apply Hquit. vm_compute. discriminate.
Defined.

(* --------------------------------------------------------------------- *)
(** ** What ends up on disk                                               *)
(* --------------------------------------------------------------------- *)

Section OnDisk.
Import STEpisodeGenerator.
Implicit Types (fs : gmap path node) (p q : path).

Lemma last_char_npy (x : string) :
  last (list_ascii_of_string (x +:+ ".npy")) = Some "y"%char.
Proof.
  rewrite list_ascii_append.
  change (list_ascii_of_string ".npy") with (["."; "n"; "p"] ++ ["y"])%char.
  rewrite app_assoc. apply last_snoc.
Qed.

Lemma last_char_json (a b : string) :
  last (list_ascii_of_string (a +:+ "_" +:+ b +:+ ".json")) = Some "n"%char.
Proof.
  rewrite !list_ascii_append.
  change (list_ascii_of_string ".json") with (["."; "j"; "s"; "o"] ++ ["n"])%char.
  rewrite !app_assoc. apply last_snoc.
Qed.

Lemma npy_name_not_json (x a b : string) :
  x +:+ ".npy" <> a +:+ "_" +:+ b +:+ ".json".
Proof.
  intros H. pose proof (last_char_npy x) as Hx.
  rewrite H, last_char_json in Hx. discriminate Hx.
Qed.

Lemma npy_name_not_video (x : string) : x +:+ ".npy" <> "video.mp4".
Proof.
  intros H. pose proof (last_char_npy x) as Hx. rewrite H in Hx.
  discriminate Hx.
Qed.

(** The tree and the trace after a flush that returned. *)
Lemma record_ok_files (dir : path) (d : ExplorationData.t) (w : world) :
  is_ok (ExplorationData.record dir d w) = true ->
  let json_path := dir ++ [ExplorationData.json_name d] in
  let video_path := dir ++ ["video.mp4"] in
  exists fs1 : gmap path node,
    only_adds_dirs (files w) fs1
    /\ isdir_at fs1 dir = true
    /\ final_world (ExplorationData.record dir d w)
       = World (<[video_path := File (Mp4 (ExplorationData._rgb_images d))]>
                  (<[json_path := File (Json (ExplorationData.json_doc d))]> fs1))
               (trace w ++ [ JsonDump json_path (ExplorationData.json_doc d);
                             ImagesToVideo (ExplorationData._rgb_images d)
                                           video_path ]).
Proof.
  intros Hok. cbv zeta.
  destruct (record_ok_inv dir d w Hok) as (_ & _ & Hrec).
  rewrite Hrec in Hok |- *.
  destruct (write_record_inv dir d w Hok) as (fs1 & fs2 & fs3 & Hdirs & Hj & Hv & Hrun).
  apply write_at_inv in Hj as (-> & Hparent & _).
  apply write_at_inv in Hv as (-> & _ & _).
  rewrite dirname_snoc in Hparent.
  exists fs1. rewrite Hrun. auto.
Qed.

End OnDisk.

(** What a persister that returned has left on disk and in the trace. *)
Lemma save_last_episode_layout
    (self : STEpisodeGenerator.t) (w : world) :
  is_ok (STEpisodeGenerator._save_last_episode self w) = true ->
  let b := STEpisodeGenerator.super self in
  let d := STEpisodeGenerator._exploration_data self in
  let scene := STEpisodeGenerator._scene_id b in
  let ep := episode_id (STEpisodeGenerator._episode b) in
  let scene_dir := STEpisodeGenerator.scene_dir_of self in
  let map_file := STEpisodeGenerator.map_filename_of self in
  let episode_dir := scene_dir ++ [str_of_id ep] in
  let json_path := episode_dir ++ [scene +:+ "_" +:+ str_of_id ep +:+ ".json"] in
  let video_path := episode_dir ++ ["video.mp4"] in
  let doc :=
    JDict [ ("ep_id", match ep with IdInt z => JInt z | IdStr x => JStr x end);
            ("ep_scene_id", JStr scene);
            ("trajectory",
               JList (map (fun p => JList (map JFloat p))
                          (ExplorationData._trajectory d)));
            ("trajectory_pixels",
               JList (map (fun p => JList (map JInt p))
                          (ExplorationData._trajectory_pixels d)));
            ("map_filename", JStr (String.concat "/" map_file)) ] in
  let stored := final_world (STEpisodeGenerator.store_if_absent self w) in
  let count := length (glob_star_slash (files stored) scene_dir) in
  let w' := final_world (STEpisodeGenerator._save_last_episode self w) in
  (Z.of_nat count < STEpisodeGenerator._num_episodes self)%Z
  /\ isfile_at (files w') map_file = true
  /\ isdir_at (files w') episode_dir = true
  /\ files w' !! json_path = Some (File (Json doc))
  /\ files w' !! video_path = Some (File (Mp4 (ExplorationData._rgb_images d)))
  /\ trace w'
     = trace stored
       ++ [ Print ("Saved " +:+ str_of_nat count +:+ " of "
                   +:+ str_of_Z (STEpisodeGenerator._num_episodes self)
                   +:+ " episodes for " +:+ scene);
            JsonDump json_path doc;
            ImagesToVideo (ExplorationData._rgb_images d) video_path;
            Print ("Saved episode " +:+ str_of_id ep +:+ " in "
                   +:+ String.concat "/" episode_dir) ].
Proof.
  intros Hok. cbv zeta. revert Hok. rewrite save_last_episode_spec.
  pose proof (store_if_absent_final_self self w) as Hs.
  pose proof (store_if_absent_ok_isfile self w) as Hfile.
  destruct (STEpisodeGenerator.store_if_absent self w) as [p s1 w1| |];
    try discriminate.
  cbn [final_self final_world is_ok] in *. subst s1.
  specialize (Hfile eq_refl).
  rewrite persist_episode_spec. cbv zeta.
  rewrite scene_dir_of_with_ids.
  change (STEpisodeGenerator._num_episodes (STEpisodeGenerator.with_ids self))
    with (STEpisodeGenerator._num_episodes self).
  change (STEpisodeGenerator.super (STEpisodeGenerator.with_ids self))
    with (STEpisodeGenerator.super self).
  destruct (Z.geb_spec (Z.of_nat (length (glob_star_slash (files w1)
                                    (STEpisodeGenerator.scene_dir_of self))))
                       (STEpisodeGenerator._num_episodes self)) as [Hge|Hlt];
    [discriminate|].
  match goal with
  | |- context [ExplorationData.record ?dir ?d0 ?w0] =>
      pose proof (record_ok_files dir d0 w0) as Hrec;
      destruct (ExplorationData.record dir d0 w0) as [a d2 w2| |]
  end; try discriminate.
  intros _. destruct (Hrec eq_refl) as (fs1 & Hdirs & Hdir & Hw2).
  cbv zeta in Hw2. cbn [final_world] in Hw2 |- *. subst w2.
  unfold emit. cbn [files trace].
  set (scene_dir := STEpisodeGenerator.scene_dir_of self) in *.
  set (ep := episode_id (STEpisodeGenerator._episode (STEpisodeGenerator.super self))) in *.
  set (scene := STEpisodeGenerator._scene_id (STEpisodeGenerator.super self)) in *.
  change (ExplorationData.json_name
            (STEpisodeGenerator._exploration_data (STEpisodeGenerator.with_ids self)))
    with (scene +:+ "_" +:+ str_of_id ep +:+ ".json") in *.
  set (json_path := (scene_dir ++ [str_of_id ep])
                      ++ [scene +:+ "_" +:+ str_of_id ep +:+ ".json"]) in *.
  set (video_path := (scene_dir ++ [str_of_id ep]) ++ ["video.mp4"]) in *.
  assert (Hmj : STEpisodeGenerator.map_filename_of self <> json_path).
  { subst json_path scene_dir. unfold STEpisodeGenerator.map_filename_of,
      STEpisodeGenerator.scene_dir_of.
    rewrite <- !app_assoc. intros H. apply app_inv_head in H.
    cbn [app] in H. apply (f_equal (fun l => nth 2 l "")) in H. cbn [nth] in H.
    exact (npy_name_not_json _ _ _ H). }
  assert (Hmv : STEpisodeGenerator.map_filename_of self <> video_path).
  { subst video_path scene_dir. unfold STEpisodeGenerator.map_filename_of,
      STEpisodeGenerator.scene_dir_of.
    rewrite <- !app_assoc. intros H. apply app_inv_head in H.
    cbn [app] in H. apply (f_equal (fun l => nth 2 l "")) in H. cbn [nth] in H.
    exact (npy_name_not_video _ H). }
  assert (Hjv : json_path <> video_path).
  { subst json_path video_path. intros H. apply app_inv_head in H.
    injection H as H. exact (json_name_not_video _ _ H). }
  split; [lia|]. split; [|split; [|split; [|split]]].
  - rewrite (isfile_at_insert_ne _ _ _ _ Hmv), (isfile_at_insert_ne _ _ _ _ Hmj).
    apply isfile_at_lookup in Hfile as (c & Hc & Hne).
    unfold emit in Hdirs. cbn [files] in Hdirs.
    destruct (Hdirs (STEpisodeGenerator.map_filename_of self))
      as [Heq|[Hnone _]]; [|congruence].
    rewrite Hc in Heq. unfold isfile_at, node_at.
    destruct (STEpisodeGenerator.map_filename_of self) as [|x l];
      [congruence|].
    now rewrite Heq.
  - rewrite !isdir_at_insert_ne; [exact Hdir | |];
      intros H; symmetry in H; exact (snoc_neq_self _ _ H).
  - rewrite lookup_insert_ne by congruence. apply lookup_insert_eq.
  - apply lookup_insert_eq.
  - rewrite <- !app_assoc. reflexivity.
Qed.

(** X9. Layout of a saved episode: when the output directory and the
    scene id are made of plain names without the pattern characters of
    [glob], the episode id prints as a plain name, and
    [_save_last_episode] returns, the number of directories directly under
    the scene directory was below the quota and the tree holds, under the
    scene directory, the map's file [topdown_maps/{key}.npy], the episode
    directory named by the episode id, in it the JSON document
    [{scene_id}_{episode_id}.json], and the video of the buffered frames.
    In the document [ep_id] is the episode id (an integer or a string, as
    it was given), [ep_scene_id] the scene id, [trajectory] and
    [trajectory_pixels] the two buffered trajectories, and [map_filename]
    the path of that very map file, its components joined by [/].  After
    the map store the trace shows the progress line with the count, one
    JSON dump, one encoder call and the closing line. *)
Theorem X9_saved_episode_layout
    (self : STEpisodeGenerator.t) (w : world) :
  literal_path (STEpisodeGenerator.scene_dir_of self) = true ->
  is_name (str_of_id (episode_id (STEpisodeGenerator._episode
                                    (STEpisodeGenerator.super self)))) = true ->
  is_ok (STEpisodeGenerator._save_last_episode self w) = true ->
  let b := STEpisodeGenerator.super self in
  let d := STEpisodeGenerator._exploration_data self in
  let scene := STEpisodeGenerator._scene_id b in
  let ep := episode_id (STEpisodeGenerator._episode b) in
  let scene_dir := STEpisodeGenerator.scene_dir_of self in
  let map_file := STEpisodeGenerator.map_filename_of self in
  let episode_dir := scene_dir ++ [str_of_id ep] in
  let json_path := episode_dir ++ [scene +:+ "_" +:+ str_of_id ep +:+ ".json"] in
  let video_path := episode_dir ++ ["video.mp4"] in
  let doc :=
    JDict [ ("ep_id", match ep with IdInt z => JInt z | IdStr x => JStr x end);
            ("ep_scene_id", JStr scene);
            ("trajectory",
               JList (map (fun p => JList (map JFloat p))
                          (ExplorationData._trajectory d)));
            ("trajectory_pixels",
               JList (map (fun p => JList (map JInt p))
                          (ExplorationData._trajectory_pixels d)));
            ("map_filename", JStr (String.concat "/" map_file)) ] in
  let stored := final_world (STEpisodeGenerator.store_if_absent self w) in
  let count := length (glob_star_slash (files stored) scene_dir) in
  let w' := final_world (STEpisodeGenerator._save_last_episode self w) in
  (Z.of_nat count < STEpisodeGenerator._num_episodes self)%Z
  /\ isfile_at (files w') map_file = true
  /\ isdir_at (files w') episode_dir = true
  /\ files w' !! json_path = Some (File (Json doc))
  /\ files w' !! video_path = Some (File (Mp4 (ExplorationData._rgb_images d)))
  /\ trace w'
     = trace stored
       ++ [ Print ("Saved " +:+ str_of_nat count +:+ " of "
                   +:+ str_of_Z (STEpisodeGenerator._num_episodes self)
                   +:+ " episodes for " +:+ scene);
            JsonDump json_path doc;
            ImagesToVideo (ExplorationData._rgb_images d) video_path;
            Print ("Saved episode " +:+ str_of_id ep +:+ " in "
                   +:+ String.concat "/" episode_dir) ].
Proof. intros _ _. apply save_last_episode_layout. Qed.

(** The first episode of the demo scene, with a quota of 1000: what is
    on disk and what was printed. *)
Lemma X9_saved_episode_layout_witness :
  let self := demo_sensor 11 1000 in
  let w' := final_world (STEpisodeGenerator._save_last_episode self empty_world) in
  let key := "471ae2e922e7ebc82738035d6687c9c9c4166b5d472492e9a4482a27d98ef2be_2_3" in
  literal_path (STEpisodeGenerator.scene_dir_of self) = true
  /\ isfile_at (files w')
       ["data"; "spatiotemporal_episodes"; "sceneA"; "topdown_maps"; key +:+ ".npy"]
     = true
  /\ isdir_at (files w') ["data"; "spatiotemporal_episodes"; "sceneA"; "7"] = true
  /\ files w' !! ["data"; "spatiotemporal_episodes"; "sceneA"; "7"; "sceneA_7.json"]
     = Some (File (Json
         (JDict [ ("ep_id", JStr "7"); ("ep_scene_id", JStr "sceneA");
                  ("trajectory",
                   JList (repeat (JList [JFloat 1.5; JFloat 2]) 11));
                  ("trajectory_pixels",
                   JList (repeat (JList [JInt 3; JInt 4]) 11));
                  ("map_filename",
                   JStr ("data/spatiotemporal_episodes/sceneA/topdown_maps/"
                         +:+ key +:+ ".npy")) ])))
  /\ List.filter (fun e => match e with Print _ => true | _ => false end)
                 (trace w')
     = [ Print "Saved 1 of 1000 episodes for sceneA";
         Print "Saved episode 7 in data/spatiotemporal_episodes/sceneA/7" ].
Proof.
  cbv zeta.
  assert (Hlit : literal_path (STEpisodeGenerator.scene_dir_of (demo_sensor 11 1000))
                 = true) by (vm_compute; reflexivity).
  split; [exact Hlit|].
  destruct (X9_saved_episode_layout (demo_sensor 11 1000) empty_world Hlit)
    as (_ & _ & _ & Hjson & _ & Htrace);
    [vm_compute; reflexivity | vm_compute; reflexivity |].
  cbv zeta in Hjson, Htrace.
  split; [vm_compute; reflexivity|].
  split; [vm_compute; reflexivity|].
  split; [etransitivity; [|exact Hjson]; vm_compute; reflexivity|].
  rewrite Htrace. vm_compute. reflexivity.
Defined.

(* --------------------------------------------------------------------- *)
(** ** Saving a map                                                       *)
(* --------------------------------------------------------------------- *)

Section SaveMap.
Context {Self : Type}.
Implicit Types (fs : gmap path node) (p q : path) (self : Self).

Lemma save_map_spec (arr : ndarray bool) p self (w : world) :
  let packed := packbits (flatten arr) in
  save_map arr p self w =
    match makedirs_at true (rev (dirname p)) (files w) with
    | inr fs1 => Raise OSError self (World fs1 (trace w))
    | inl fs1 =>
        match write_at fs1 (npy_path p) (Npy packed) with
        | Some fs2 =>
            Ok tt self (World fs2 (trace w ++ [NpSave (npy_path p) packed]))
        | None => Raise OSError self (World fs1 (trace w))
        end
    end.
Proof.
  cbv zeta. unfold save_map, np_save, write_file, os_makedirs, emit. unfold_m.
  destruct (makedirs_at true _ (files w)) as [fs1|fs1]; [|reflexivity]. cbn.
  destruct (write_at fs1 _ _); reflexivity.
Qed.

(** The files of a tree are untouched while directories are made. *)
Lemma only_adds_dirs_files fs fs' q (c : content) :
  only_adds_dirs fs fs' ->
  (fs' !! q = Some (File c) <-> fs !! q = Some (File c)).
Proof.
  intros H. destruct (H q) as [Heq|[Hnone Hdir]].
  - now rewrite Heq.
  - rewrite Hnone, Hdir. split; discriminate.
Qed.

(** [os.makedirs] fails on a name taken by a regular file. *)
Lemma makedirs_at_blocked (exist_ok : bool) (rname : list string) fs :
  isfile_at fs (rev rname) = true ->
  exists fs1, makedirs_at exist_ok rname fs = inr fs1 /\ only_adds_dirs fs fs1.
Proof.
  intros Hfile. destruct rname as [|c rhead]; [discriminate Hfile|].
  pose proof (makedirs_at_only_adds exist_ok (c :: rhead) fs) as Hadds.
  cbn [makedirs_at] in *.
  set (after_head :=
         match rhead with
         | [] => inl fs
         | _ :: _ =>
             if exists_at fs (rev rhead) then inl fs
             else makedirs_at exist_ok rhead fs
         end) in *.
  assert (Hhead : forall fs1, after_head = inl fs1 -> only_adds_dirs fs fs1).
  { intros fs1 H1. subst after_head. destruct rhead as [|c' rhead'].
    - injection H1 as <-. apply only_adds_dirs_refl.
    - destruct (exists_at fs (rev (c' :: rhead'))).
      + injection H1 as <-. apply only_adds_dirs_refl.
      + eapply makedirs_at_only_adds. left. exact H1. }
  destruct after_head as [fs1|fs1].
  - specialize (Hhead fs1 eq_refl).
    apply isfile_at_lookup in Hfile as (c0 & Hc0 & Hne).
    assert (Hc1 : fs1 !! rev (c :: rhead) = Some (File c0))
      by now apply (only_adds_dirs_files fs fs1).
    remember (rev (c :: rhead)) as name eqn:Hname.
    assert (Hex : exists_at fs1 name = true).
    { clear -Hc1 Hne. unfold exists_at, node_at. destruct name; [reflexivity|].
      cbv beta iota. destruct (fs1 !! _); [reflexivity | discriminate Hc1]. }
    assert (Hnd : isdir_at fs1 name = false).
    { clear -Hc1 Hne. unfold isdir_at, node_at. destruct name; [congruence|].
      cbv beta iota. destruct (fs1 !! _) as [[|c1]|]; try reflexivity.
      discriminate Hc1. }
    unfold mkdir_at. rewrite Hex in *. rewrite Hnd in *.
    rewrite orb_true_r in *. exists fs1. split; [reflexivity | exact Hhead].
  - exists fs1. split; [reflexivity|]. apply Hadds. now right.
Qed.

End SaveMap.

(** X10. A saved map can be read back: when [save_map] returns, the file
    named as [np.save] names it holds the packed bits of the array, which
    unpack to the array itself under its shape; the directory of the given
    path is a directory; the only effect recorded is that one write; and
    every other file of the tree is exactly as before. *)
Theorem X10_save_map_on_disk
    (Self : Type) (arr : ndarray bool) (p : path) (self : Self) (w : world) :
  well_shaped arr ->
  is_ok (save_map arr p self w) = true ->
  let w' := final_world (save_map arr p self w) in
  (exists packed : list Z,
     files w' !! npy_path p = Some (File (Npy packed))
     /\ unpack_with_shape (shape arr) packed = arr
     /\ trace w' = trace w ++ [NpSave (npy_path p) packed])
  /\ isdir_at (files w') (dirname p) = true
  /\ (forall (q : path) (c : content),
        q <> npy_path p ->
        (files w' !! q = Some (File c) <-> files w !! q = Some (File c))).
Proof.
  intros Hshape. rewrite save_map_spec. cbv zeta.
  destruct (makedirs_at true _ (files w)) as [fs1|fs1] eqn:Hmk; [|discriminate].
  destruct (write_at fs1 _ _) as [fs2|] eqn:Hw; [|discriminate].
  intros _. cbn [final_world files trace].
  apply write_at_inv in Hw as (-> & _ & Hnd).
  split; [|split].
  - exists (packbits (flatten arr)). split; [apply lookup_insert_eq|].
    split; [|reflexivity].
    destruct arr as [shp buf]. unfold well_shaped in Hshape. cbn in Hshape.
    unfold unpack_with_shape, flatten. cbn. f_equal.
    rewrite <- Hshape. apply unpack_pack.
  - apply makedirs_at_isdir in Hmk. rewrite rev_involutive in Hmk.
    rewrite isdir_at_insert_ne; [exact Hmk|]. intros Heq.
    rewrite Heq in Hmk. congruence.
  - intros q c Hq. rewrite lookup_insert_ne by congruence.
    apply only_adds_dirs_files. eapply makedirs_at_only_adds. left. exact Hmk.
Qed.

(** The demo map saved into an empty tree. *)
Lemma X10_save_map_on_disk_witness :
  let p := demo_output_dir ++ ["sceneA"; "topdown_maps"; "m.npy"] in
  isdir_at (files (final_world (save_map demo_map p tt empty_world)))
           (dirname p) = true.
Proof.
  cbv zeta.
  apply (X10_save_map_on_disk unit demo_map
           (demo_output_dir ++ ["sceneA"; "topdown_maps"; "m.npy"]) tt
           empty_world).
  - reflexivity.
  - vm_compute. reflexivity.
Defined.

(** X11. A regular file in the way: when the directory part of the path
    is taken by a regular file, [save_map] ends in an [OSError]; nothing
    is written, the trace is unchanged and every file of the tree is as
    before. *)
Theorem X11_save_map_blocked_by_file
    (Self : Type) (arr : ndarray bool) (p : path) (self : Self) (w : world) :
  isfile_at (files w) (dirname p) = true ->
  exists fs1 : gmap path node,
    save_map arr p self w = Raise OSError self (World fs1 (trace w))
    /\ (forall (q : path) (c : content),
          fs1 !! q = Some (File c) <-> files w !! q = Some (File c)).
Proof.
  intros Hfile. rewrite save_map_spec. cbv zeta.
  rewrite <- (rev_involutive (dirname p)) in Hfile.
  destruct (makedirs_at_blocked true (rev (dirname p)) (files w) Hfile)
    as (fs1 & Hmk & Hadds).
  rewrite Hmk. exists fs1. split; [reflexivity|].
  intros q c. now apply only_adds_dirs_files.
Qed.

(** [topdown_maps] exists as a regular file. *)
Lemma X11_save_map_blocked_by_file_witness :
  let blocked := World {[ ["topdown_maps"] := File (Npy []) ]} [] in
  is_ok (save_map demo_map ["topdown_maps"; "m.npy"] tt blocked) = false.
Proof.
  cbv zeta.
  destruct (X11_save_map_blocked_by_file unit demo_map ["topdown_maps"; "m.npy"]
              tt (World {[ ["topdown_maps"] := File (Npy []) ]} []))
    as (fs1 & Hraise & _).
  { vm_compute. reflexivity. }
  rewrite Hraise. reflexivity.
Defined.

(* --------------------------------------------------------------------- *)
(** ** Flushing into an existing place                                    *)
(* --------------------------------------------------------------------- *)

Section ExistingPlace.
Import ExplorationData.
Implicit Types (fs : gmap path node) (p q : path).

Lemma isdir_at_insert_file fs p q (c : content) :
  isdir_at fs p = false ->
  isdir_at (<[p := File c]> fs) q = isdir_at fs q.
Proof.
  intros Hnd. destruct (decide (q = p)) as [->|Hne].
  - rewrite Hnd. unfold isdir_at, node_at.
    destruct p; [discriminate Hnd|]. now rewrite lookup_insert_eq.
  - now apply isdir_at_insert_ne.
Qed.

(** Writing a regular file does not change what [d/*/] matches. *)
Lemma glob_insert_file fs p (c : content) (d : path) :
  isdir_at fs p = false ->
  glob_star_slash (<[p := File c]> fs) d = glob_star_slash fs d.
Proof.
  intros Hnd. unfold glob_star_slash.
  rewrite (isdir_at_insert_file fs p d c Hnd).
  destruct (isdir_at fs d); [|reflexivity].
  rewrite map_filter_insert_not'; [reflexivity | |].
  - unfold matches_star_slash. cbn [fst snd].
    destruct (last p); [|discriminate].
    rewrite (bool_decide_eq_false_2 (File c = Dir)) by discriminate.
    rewrite andb_false_r. discriminate.
  - intros y Hy. unfold matches_star_slash. cbn [fst snd].
    destruct (last p); [|discriminate].
    assert (Hyd : y <> Dir).
    { intros ->. unfold isdir_at, node_at in Hnd.
      destruct p; [discriminate Hnd|]. revert Hnd.
      destruct (fs !! _); [|discriminate Hy]. injection Hy as ->. discriminate. }
    rewrite (bool_decide_eq_false_2 (y = Dir)) by exact Hyd.
    rewrite andb_false_r. discriminate.
Qed.

End ExistingPlace.

(** X12. The episode directory taken by a regular file: when a regular
    file has the name of the episode directory, [record] on a consistent
    buffer skips the creation of the directory (the name exists) and then
    ends in an [OSError] at the first write; the buffer, the tree and the
    trace are as before. *)
Theorem X12_record_blocked_by_file
    (dir : path) (d : ExplorationData.t) (w : world) :
  ExplorationData.lengths_agree d = true ->
  ExplorationData.ids_set d = true ->
  isfile_at (files w) dir = true ->
  ExplorationData.record dir d w = Raise OSError d w.
Proof.
  intros Hlen Hids Hfile. rewrite record_asserts, Hlen, Hids. cbn [andb].
  unfold ExplorationData.write_record, json_dump_to, write_file, write_at.
  unfold_m.
  assert (Hex : path_exists (files w) dir = true).
  { rewrite path_exists_nonempty by (intros ->; discriminate Hfile).
    unfold isfile_at in Hfile. unfold exists_at.
    destruct (node_at (files w) dir); [reflexivity | discriminate]. }
  assert (Hnd : isdir_at (files w) dir = false).
  { unfold isfile_at in Hfile. unfold isdir_at.
    destruct (node_at (files w) dir) as [[|c]|]; try discriminate; reflexivity. }
  rewrite Hex. cbn. rewrite dirname_snoc, Hnd. reflexivity.
Qed.

(** A file called [7] where the directory of episode 7 should be. *)
Lemma X12_record_blocked_by_file_witness :
  let dir := demo_output_dir ++ ["sceneA"; "7"] in
  let w := World {[ dir := File (Npy []) ]} [] in
  ExplorationData.record dir demo_buffer w = Raise OSError demo_buffer w.
Proof.
  cbv zeta.
  apply (X12_record_blocked_by_file (demo_output_dir ++ ["sceneA"; "7"])
           demo_buffer
           (World {[ demo_output_dir ++ ["sceneA"; "7"] := File (Npy []) ]} []));
    vm_compute; reflexivity.
Defined.

(** X13. Flushing into an existing episode directory: when the episode
    directory is already a directory and [record] returns, it has created
    no directory; it has replaced whatever the two target files held by
    the new JSON document and the new video and has touched nothing else,
    so the directories found directly under any directory [d] (the matches
    of [d/*/]) are the same as before: saving an episode id again
    overwrites the earlier record and does not move the count. *)
Theorem X13_record_overwrites_existing_episode
    (dir : path) (d : ExplorationData.t) (w : world) :
  isdir_at (files w) dir = true ->
  is_ok (ExplorationData.record dir d w) = true ->
  let json_path := dir ++ [ExplorationData.json_name d] in
  let video_path := dir ++ ["video.mp4"] in
  let w' := final_world (ExplorationData.record dir d w) in
  files w'
  = <[video_path := File (Mp4 (ExplorationData._rgb_images d))]>
      (<[json_path := File (Json (ExplorationData.json_doc d))]> (files w))
  /\ trace w'
     = trace w ++ [ JsonDump json_path (ExplorationData.json_doc d);
                    ImagesToVideo (ExplorationData._rgb_images d) video_path ]
  /\ (forall d0 : path,
        glob_star_slash (files w') d0 = glob_star_slash (files w) d0).
Proof.
  intros Hdir Hok. cbv zeta.
  destruct (record_ok_inv dir d w Hok) as (_ & _ & Hrec).
  rewrite Hrec in Hok |- *. clear Hrec.
  assert (Hne : dir <> []).
  { intros ->. cbn in Hok. discriminate Hok. }
  revert Hok.
  unfold ExplorationData.write_record, json_dump_to, images_to_video,
    write_file, emit.
  unfold_m.
  assert (Hex : exists_at (files w) dir = true).
  { unfold isdir_at in Hdir. unfold exists_at.
    destruct (node_at (files w) dir); [reflexivity | discriminate]. }
  rewrite (path_exists_nonempty _ _ Hne), Hex.
  cbn [negb]. cbv beta iota.
  destruct (write_at (files w) _ _) as [fs2|] eqn:Hj; [|discriminate].
  cbv beta iota. cbn [files trace].
  destruct (write_at fs2 _ _) as [fs3|] eqn:Hv; [|discriminate].
  intros _. cbn [final_world files trace].
  apply write_at_inv in Hj as (-> & _ & Hjd).
  apply write_at_inv in Hv as (-> & _ & Hvd).
  split; [reflexivity|]. split; [now rewrite <- app_assoc|].
  intros d0. rewrite glob_insert_file by exact Hvd. now apply glob_insert_file.
Qed.

(** The directory of episode 7 saved into twice, the second time with
    another trajectory: the document of the second save is the one on
    disk, and the scene directory counts what it counted before. *)
Lemma X13_record_overwrites_existing_episode_witness :
  let dir := demo_output_dir ++ ["sceneA"; "7"] in
  let second :=
    ExplorationData.Build [demo_frame 1] [[0.5%float; 4%float]] [[5; 6]]
      (Some (IdStr "7")) (Some "sceneA")
      (Some (demo_output_dir ++ ["sceneA"; "topdown_maps"; "m.npy"])) in
  let w := final_world (ExplorationData.record dir demo_buffer empty_world) in
  let w' := final_world (ExplorationData.record dir second w) in
  is_ok (ExplorationData.record dir second w) = true
  /\ files w !! (dir ++ ["sceneA_7.json"])
     = Some (File (Json (ExplorationData.json_doc demo_buffer)))
  /\ files w' !! (dir ++ ["sceneA_7.json"])
     = Some (File (Json
         (JDict [ ("ep_id", JStr "7"); ("ep_scene_id", JStr "sceneA");
                  ("trajectory", JList [JList [JFloat 0.5; JFloat 4]]);
                  ("trajectory_pixels", JList [JList [JInt 5; JInt 6]]);
                  ("map_filename",
                   JStr "data/spatiotemporal_episodes/sceneA/topdown_maps/m.npy") ])))
  /\ glob_star_slash (files w') (demo_output_dir ++ ["sceneA"])
     = glob_star_slash (files w) (demo_output_dir ++ ["sceneA"])
  /\ glob_star_slash (files w) (demo_output_dir ++ ["sceneA"])
     = [demo_output_dir ++ ["sceneA"; "7"]].
Proof.
  cbv zeta.
  destruct (X13_record_overwrites_existing_episode
              (demo_output_dir ++ ["sceneA"; "7"])
              (ExplorationData.Build [demo_frame 1] [[0.5%float; 4%float]] [[5; 6]]
                 (Some (IdStr "7")) (Some "sceneA")
                 (Some (demo_output_dir ++ ["sceneA"; "topdown_maps"; "m.npy"])))
              (final_world (ExplorationData.record
                              (demo_output_dir ++ ["sceneA"; "7"])
                              demo_buffer empty_world)))
    as (_ & _ & Hglob); [vm_compute; reflexivity | vm_compute; reflexivity |].
  cbv zeta in Hglob.
  split; [vm_compute; reflexivity|].
  split; [vm_compute; reflexivity|].
  split; [vm_compute; reflexivity|].
  split; [apply Hglob | vm_compute; reflexivity].
Defined.

(* --------------------------------------------------------------------- *)
(** ** More on bit packing                                                *)
(* --------------------------------------------------------------------- *)

Section Padding.

Lemma pack_byte_full b0 b1 b2 b3 b4 b5 b6 b7 (rest : list bool) :
  pack_byte (b0 :: b1 :: b2 :: b3 :: b4 :: b5 :: b6 :: b7 :: rest)
  = pack_byte [b0; b1; b2; b3; b4; b5; b6; b7].
Proof. reflexivity. Qed.

Lemma packbits_full b0 b1 b2 b3 b4 b5 b6 b7 (rest : list bool) :
  packbits (b0 :: b1 :: b2 :: b3 :: b4 :: b5 :: b6 :: b7 :: rest)
  = pack_byte [b0; b1; b2; b3; b4; b5; b6; b7] :: packbits rest.
Proof. reflexivity. Qed.

Lemma mod8_skip (n : nat) : (S (S (S (S (S (S (S (S n))))))) mod 8 = n mod 8)%nat.
Proof.
  replace (S (S (S (S (S (S (S (S n)))))))) with (n + 1 * 8)%nat by lia.
  apply Nat.Div0.mod_add.
Qed.

(** The number of zero bits that fill the last byte. *)
Lemma unpack_pack_padded_bounded (n : nat) :
  forall bits : list bool,
    (length bits < n)%nat ->
    unpackbits (packbits bits)
    = bits ++ repeat false ((8 - length bits mod 8) mod 8).
Proof.
  induction n as [|n IH]; intros bits Hlen; [lia|].
  destruct bits as [|b0 [|b1 [|b2 [|b3 [|b4 [|b5 [|b6 [|b7 rest]]]]]]]].
  1: reflexivity.
  1-7: cbn [packbits]; rewrite unpackbits_single;
       repeat match goal with b : bool |- _ => destruct b end; reflexivity.
  rewrite packbits_full, unpackbits_cons, unpack_pack_full.
  rewrite IH by (simpl in Hlen; lia).
  cbn [length]. rewrite mod8_skip. reflexivity.
Qed.

Lemma packbits_range_bounded (n : nat) :
  forall bits : list bool,
    (length bits < n)%nat ->
    Forall (fun b => 0 <= b < 256) (packbits bits).
Proof.
  induction n as [|n IH]; intros bits Hlen; [lia|].
  destruct bits as [|b0 [|b1 [|b2 [|b3 [|b4 [|b5 [|b6 [|b7 rest]]]]]]]].
  1: constructor.
  1-7: cbn [packbits]; constructor; [apply packed_byte_range; simpl; lia
                                    | constructor].
  rewrite packbits_full. constructor.
  - apply packed_byte_range. simpl. lia.
  - apply IH. simpl in Hlen. lia.
Qed.

(** A trailing [False] in a started byte is not seen in the bytes. *)
Lemma packbits_trailing_false_bounded (n : nat) :
  forall bits : list bool,
    (length bits < n)%nat ->
    (length bits mod 8 <> 0)%nat ->
    packbits (bits ++ [false]) = packbits bits.
Proof.
  induction n as [|n IH]; intros bits Hlen Hmod; [lia|].
  destruct bits as [|b0 [|b1 [|b2 [|b3 [|b4 [|b5 [|b6 [|b7 rest]]]]]]]].
  1: now contradiction Hmod.
  1-7: repeat match goal with b : bool |- _ => destruct b end; reflexivity.
  change ((b0 :: b1 :: b2 :: b3 :: b4 :: b5 :: b6 :: b7 :: rest) ++ [false])
    with (b0 :: b1 :: b2 :: b3 :: b4 :: b5 :: b6 :: b7 :: (rest ++ [false])).
  rewrite !packbits_full. f_equal.
  apply IH; [simpl in Hlen; lia|].
  cbn [length] in Hmod. now rewrite mod8_skip in Hmod.
Qed.

End Padding.

(** X14. What [np.packbits] stores: unpacking the packed bytes gives the
    truth values followed by as many [False] as are needed to fill the
    last byte (none when the count is a multiple of eight), and every
    packed value is a byte. *)
Theorem X14_packbits_zero_padding (bits : list bool) :
  unpackbits (packbits bits)
  = bits ++ repeat false ((8 - length bits mod 8) mod 8)
  /\ Forall (fun b => 0 <= b < 256) (packbits bits).
Proof.
  split.
  - apply (unpack_pack_padded_bounded (S (length bits))). lia.
  - apply (packbits_range_bounded (S (length bits))). lia.
Qed.

(** X15. The packed bytes determine a map of known size: two sequences of
    truth values of the same length with the same packed bytes are equal,
    so two maps of the same shape stored as the same bytes are the same
    map. *)
Theorem X15_packbits_injective_at_length (a b : ndarray bool) :
  shape a = shape b ->
  length (buffer a) = length (buffer b) ->
  packbits (flatten a) = packbits (flatten b) ->
  a = b.
Proof.
  destruct a as [sa la], b as [sb lb]. unfold flatten. cbn.
  intros -> Hlen Hpack. f_equal.
  rewrite <- (unpack_pack la), <- (unpack_pack lb), Hlen, Hpack. reflexivity.
Qed.

(** Two 3 x 3 maps. *)
Lemma X15_packbits_injective_at_length_witness :
  let a := NdArray [3%N; 3%N]
             [true; false; true; true; true; false; false; false; true] in
  let b := NdArray [3%N; 3%N]
             (map negb [false; true; false; false; false; true; true; true; false]) in
  a = b.
Proof.
  cbv zeta.
  apply (X15_packbits_injective_at_length
           (NdArray [3%N; 3%N]
              [true; false; true; true; true; false; false; false; true])
           (NdArray [3%N; 3%N]
              (map negb [false; true; false; false; false; true; true; true; false])));
    reflexivity.
Defined.

(** X16. The packed bytes alone do not determine the size: when the number
    of elements is not a multiple of eight, the map followed by one more
    [False] element packs to the same bytes, so the stored file can only
    be read back with the shape that the file name carries. *)
Theorem X16_packbits_forgets_length (bits : list bool) :
  (length bits mod 8 <> 0)%nat ->
  packbits (bits ++ [false]) = packbits bits
  /\ length (bits ++ [false]) <> length bits.
Proof.
  intros Hmod. split.
  - apply (packbits_trailing_false_bounded (S (length bits))); [lia | exact Hmod].
  - rewrite length_app. cbn. lia.
Qed.

(** Six elements and seven. *)
Lemma X16_packbits_forgets_length_witness :
  packbits ([true; false; true; true; true; false] ++ [false])
  = packbits [true; false; true; true; true; false].
Proof.
  apply (X16_packbits_forgets_length [true; false; true; true; true; false]).
  vm_compute. discriminate.
Defined.

(* --------------------------------------------------------------------- *)
(** ** More on the digest key and the map's path                          *)
(* --------------------------------------------------------------------- *)

Section KeyAndPath.
Import STEpisodeGenerator.

Lemma all_chars_append (P : ascii -> bool) (s t : string) :
  all_chars P (s +:+ t) = all_chars P s && all_chars P t.
Proof.
  induction s as [|c s IH]; simpl; [reflexivity|].
  now rewrite IH, andb_assoc.
Qed.

Lemma string_length_append (s t : string) :
  String.length (s +:+ t) = (String.length s + String.length t)%nat.
Proof.
  induction s as [|c s IH]; simpl; [reflexivity | now rewrite IH].
Qed.

Lemma digit_is_key_char (c : ascii) : is_digit c = true -> is_key_char c = true.
Proof.
  unfold is_digit, is_key_char, is_hex_digit. intros ->. reflexivity.
Qed.

Lemma hex_is_key_char (c : ascii) : is_hex_digit c = true -> is_key_char c = true.
Proof. unfold is_key_char. intros ->. reflexivity. Qed.

Lemma shape_suffix_key_chars (shp : list N) :
  all_chars is_key_char (String.concat "_" (map str_of_N shp)) = true.
Proof.
  induction shp as [|n [|m shp] IH].
  - reflexivity.
  - cbn. apply (all_chars_weaken is_digit); [apply digit_is_key_char|].
    apply str_of_N_digits.
  - cbn [map] in *. rewrite concat_cons2, !all_chars_append, IH.
    rewrite (all_chars_weaken is_digit is_key_char _ digit_is_key_char
               (str_of_N_digits n)).
    reflexivity.
Qed.

Lemma append_inv_tail (s1 s2 t : string) : s1 +:+ t = s2 +:+ t -> s1 = s2.
Proof.
  intros H. apply (f_equal list_ascii_of_string) in H.
  rewrite !list_ascii_append in H. apply app_inv_tail in H.
  rewrite <- (string_of_list_ascii_of_string s1),
          <- (string_of_list_ascii_of_string s2).
  now rewrite H.
Qed.

(** A field without the separator ends at the first separator. *)
Lemma sep_split (P : ascii -> bool) (sep : ascii) (x y r r' : string) :
  P sep = false ->
  all_chars P x = true -> all_chars P y = true ->
  x +:+ String sep r = y +:+ String sep r' -> x = y /\ r = r'.
Proof.
  intros Hsep. revert y.
  induction x as [|c x IH]; intros [|c' y] Hx Hy Heq; simpl in *.
  - injection Heq as ->. auto.
  - injection Heq as <- _. rewrite Hsep in Hy. discriminate Hy.
  - injection Heq as -> _. rewrite Hsep in Hx. discriminate Hx.
  - injection Heq as -> Heq.
    apply andb_true_iff in Hx as [_ Hx]. apply andb_true_iff in Hy as [_ Hy].
    destruct (IH _ Hx Hy Heq) as [-> ->]. auto.
Qed.

Lemma sep_absent (P : ascii -> bool) (sep : ascii) (x y r : string) :
  P sep = false -> all_chars P x = true -> x <> y +:+ String sep r.
Proof.
  intros Hsep. revert y.
  induction x as [|c x IH]; intros [|c' y] Hx Heq; simpl in *;
    try discriminate.
  - injection Heq as -> _. rewrite Hsep in Hx. discriminate Hx.
  - injection Heq as -> Heq. apply andb_true_iff in Hx as [_ Hx].
    exact (IH _ Hx Heq).
Qed.

(** Joining non-empty fields that do not hold the separator loses
    nothing. *)
Lemma concat_sep_inj (P : ascii -> bool) (sep : ascii) (l1 l2 : list string) :
  P sep = false ->
  Forall (fun s => s <> "" /\ all_chars P s = true) l1 ->
  Forall (fun s => s <> "" /\ all_chars P s = true) l2 ->
  String.concat (String sep "") l1 = String.concat (String sep "") l2 ->
  l1 = l2.
Proof.
  intros Hsep H1. revert l2.
  induction H1 as [|x l1 [Hx Hxu] H1 IH]; intros l2 H2 Heq.
  - destruct H2 as [|y l2 [Hy _] H2]; [reflexivity|].
    exfalso. destruct l2 as [|y' l2]; simpl in Heq; [congruence|].
    symmetry in Heq. exact (append_nonempty _ _ Hy Heq).
  - destruct H2 as [|y l2 [Hy Hyu] H2].
    + exfalso. destruct l1 as [|x' l1]; simpl in Heq; [congruence|].
      exact (append_nonempty _ _ Hx Heq).
    + destruct l1 as [|x' l1], l2 as [|y' l2].
      * simpl in Heq. congruence.
      * exfalso. rewrite concat_cons2 in Heq. simpl String.concat in Heq at 1.
        exact (sep_absent P sep _ _ _ Hsep Hxu Heq).
      * exfalso. rewrite concat_cons2 in Heq. symmetry in Heq.
        simpl String.concat in Heq at 2.
        exact (sep_absent P sep _ _ _ Hsep Hyu Heq).
      * rewrite !concat_cons2 in Heq.
        destruct (sep_split P sep _ _ _ _ Hsep Hxu Hyu Heq) as [-> Hrest].
        f_equal. apply IH; assumption.
Qed.

(** The characters of a name: anything but the separator and NUL. *)
Lemma is_name_field (s : string) :
  is_name s = true ->
  s <> ""
  /\ all_chars (fun c => negb (Ascii.eqb c "/") && negb (Ascii.eqb c "000")) s
     = true.
Proof.
  unfold is_name. rewrite !andb_true_iff. intros [[[Hne _] _] Hchars].
  split; [|exact Hchars]. intros ->. discriminate Hne.
Qed.

Lemma key_char_in_name (c : ascii) :
  is_key_char c = true ->
  negb (Ascii.eqb c "/") && negb (Ascii.eqb c "000") = true.
Proof.
  unfold is_key_char, is_hex_digit. intros H.
  destruct (Ascii.eqb_spec c "/") as [->|_]; [discriminate H|].
  destruct (Ascii.eqb_spec c "000") as [->|_]; [discriminate H|].
  reflexivity.
Qed.

(** The components of the map's file name are names. *)
Lemma map_filename_fields (self : t) :
  forallb is_name (_output_dir self) = true ->
  is_name (_scene_id (super self)) = true ->
  Forall (fun s => s <> ""
                   /\ all_chars (fun c => negb (Ascii.eqb c "/")
                                          && negb (Ascii.eqb c "000")) s = true)
         (map_filename_of self).
Proof.
  intros Hout Hscene. unfold map_filename_of. apply Forall_app. split.
  - induction (_output_dir self) as [|a l IH]; [constructor|].
    cbn [forallb] in Hout. apply andb_true_iff in Hout as [Ha Hl].
    constructor; [now apply is_name_field | now apply IH].
  - constructor; [now apply is_name_field|].
    constructor; [split; [discriminate | reflexivity]|].
    constructor; [|constructor]. split.
    + intros H. apply (f_equal String.length) in H.
      unfold hash_2d_binary_array in H.
      rewrite !string_length_append, hexdigest_length in H. discriminate H.
    + rewrite all_chars_append. apply andb_true_iff. split; [|reflexivity].
      unfold hash_2d_binary_array.
      rewrite !all_chars_append, !andb_true_iff. repeat split.
      * apply (all_chars_weaken is_key_char); [apply key_char_in_name|].
        apply (all_chars_weaken is_hex_digit); [apply hex_is_key_char|].
        apply hexdigest_hex.
      * apply (all_chars_weaken is_key_char); [apply key_char_in_name|].
        apply shape_suffix_key_chars.
Qed.

End KeyAndPath.

(** X17. The key is a plain file name: it has at least 65 characters, and
    each of them is a lower-case hexadecimal digit or an underscore, so it
    contains neither a path separator nor a dot, whatever the array. *)
Theorem X17_digest_key_characters (arr : ndarray bool) :
  all_chars is_key_char (hash_2d_binary_array arr) = true
  /\ (65 <= String.length (hash_2d_binary_array arr))%nat
  /\ is_key_char "/" = false /\ is_key_char "." = false.
Proof.
  unfold hash_2d_binary_array. split; [|split; [|split; reflexivity]].
  - rewrite !all_chars_append, shape_suffix_key_chars.
    rewrite (all_chars_weaken is_hex_digit is_key_char _ hex_is_key_char
               (hexdigest_hex _)).
    reflexivity.
  - rewrite !string_length_append, hexdigest_length. cbn. lia.
Qed.

(** X18. One file per scene, shape and digest: when the output
    directories and the scene ids of two sensors are made of plain names
    (not empty, without [/]), the two sensors build the same file name
    for their maps (the components joined by [/]) only if they have the
    same output directory and the same scene id and their maps have the
    same shape and the same SHA-256 digest of their bytes. *)
Theorem X18_map_file_identifies_scene_and_map (s1 s2 : STEpisodeGenerator.t) :
  forallb is_name (STEpisodeGenerator._output_dir s1) = true ->
  forallb is_name (STEpisodeGenerator._output_dir s2) = true ->
  is_name (STEpisodeGenerator._scene_id (STEpisodeGenerator.super s1)) = true ->
  is_name (STEpisodeGenerator._scene_id (STEpisodeGenerator.super s2)) = true ->
  String.concat "/" (STEpisodeGenerator.map_filename_of s1)
  = String.concat "/" (STEpisodeGenerator.map_filename_of s2) ->
  let m1 := STEpisodeGenerator.top_down_map (STEpisodeGenerator.super s1) in
  let m2 := STEpisodeGenerator.top_down_map (STEpisodeGenerator.super s2) in
  STEpisodeGenerator._output_dir s1 = STEpisodeGenerator._output_dir s2
  /\ STEpisodeGenerator._scene_id (STEpisodeGenerator.super s1)
     = STEpisodeGenerator._scene_id (STEpisodeGenerator.super s2)
  /\ shape m1 = shape m2
  /\ Sha256.hexdigest (map (fun b : bool => if b then 1 else 0) (buffer m1))
     = Sha256.hexdigest (map (fun b : bool => if b then 1 else 0) (buffer m2)).
Proof.
  intros Ho1 Ho2 Hs1 Hs2 Hstr.
  assert (H : STEpisodeGenerator.map_filename_of s1
              = STEpisodeGenerator.map_filename_of s2).
  { apply (concat_sep_inj
             (fun c => negb (Ascii.eqb c "/") && negb (Ascii.eqb c "000")) "/");
      [reflexivity | now apply map_filename_fields
      | now apply map_filename_fields | exact Hstr]. }
  revert H. unfold STEpisodeGenerator.map_filename_of. intros H. cbv zeta.
  apply app_inj_2 in H as [Hout Hrest]; [|reflexivity].
  split; [exact Hout|].
  pose proof (f_equal (fun l => nth 0 l "") Hrest) as Hscene.
  pose proof (f_equal (fun l => nth 2 l "") Hrest) as Hkey.
  cbn [nth] in Hscene, Hkey. split; [exact Hscene|].
  apply append_inv_tail in Hkey.
  split; [now apply hash_key_inj_shape|].
  unfold hash_2d_binary_array in Hkey.
  apply append_eq_length in Hkey as [Hhex _]; [exact Hhex|].
  now rewrite !hexdigest_length.
Qed.

(** Two sensors of the demo scene, on different episodes, build the same
    file name; a sensor with another output directory builds another
    one. *)
Lemma X18_map_file_identifies_scene_and_map_witness :
  let s1 := demo_sensor_for "7" 3 10 in
  let s2 := demo_sensor_for "8" 5 10 in
  String.concat "/" (STEpisodeGenerator.map_filename_of s1)
  = "data/spatiotemporal_episodes/sceneA/topdown_maps/471ae2e922e7ebc82738035d6687c9c9c4166b5d472492e9a4482a27d98ef2be_2_3.npy"
  /\ STEpisodeGenerator._output_dir s1 = STEpisodeGenerator._output_dir s2
  /\ shape (STEpisodeGenerator.top_down_map (STEpisodeGenerator.super s1))
     = shape (STEpisodeGenerator.top_down_map (STEpisodeGenerator.super s2)).
Proof.
  cbv zeta. split; [vm_compute; reflexivity|].
  destruct (X18_map_file_identifies_scene_and_map
              (demo_sensor_for "7" 3 10) (demo_sensor_for "8" 5 10))
    as (Hout & _ & Hshape & _); try (vm_compute; reflexivity).
  cbv zeta in Hshape. split; [exact Hout | exact Hshape].
Defined.

(* --------------------------------------------------------------------- *)
(** ** The first episode of a new scene                                   *)
(* --------------------------------------------------------------------- *)

Section NewScene.
Import STEpisodeGenerator.
Implicit Types (fs : gmap path node) (p q d : path).

Lemma exists_at_false_lookup fs p : exists_at fs p = false -> fs !! p = None.
Proof.
  unfold exists_at, node_at. destruct p; [discriminate|].
  destruct (fs !! _); [discriminate | reflexivity].
Qed.

Lemma lookup_none_not_dir fs p : p <> [] -> fs !! p = None -> isdir_at fs p = false.
Proof.
  intros Hne H. unfold isdir_at, node_at. destruct p; [congruence|].
  now rewrite H.
Qed.

Lemma lookup_none_not_file fs p : fs !! p = None -> isfile_at fs p = false.
Proof.
  intros H. unfold isfile_at, node_at. destruct p; [reflexivity|].
  now rewrite H.
Qed.

Lemma lookup_dir_isdir fs p : fs !! p = Some Dir -> isdir_at fs p = true.
Proof.
  intros H. unfold isdir_at, node_at. destruct p; [reflexivity|].
  now rewrite H.
Qed.

Lemma lookup_none_not_exists fs p :
  p <> [] -> fs !! p = None -> exists_at fs p = false.
Proof.
  intros Hne H. unfold exists_at, node_at. destruct p; [congruence|].
  now rewrite H.
Qed.

Lemma isdir_at_exists fs p : isdir_at fs p = true -> exists_at fs p = true.
Proof.
  unfold isdir_at, exists_at. destruct (node_at fs p); [reflexivity | discriminate].
Qed.

(** In a well-formed tree nothing lies under a name that does not
    exist. *)
Lemma nothing_under_missing fs d (k : list string) :
  well_formed fs -> exists_at fs d = false -> fs !! (d ++ k) = None.
Proof.
  intros Hwf Hd. induction k as [|a k IH] using rev_ind.
  - rewrite app_nil_r. now apply exists_at_false_lookup.
  - destruct (fs !! (d ++ k ++ [a])) as [n|] eqn:E; [|reflexivity].
    exfalso. pose proof (Hwf _ _ E) as Hparent.
    rewrite app_assoc, dirname_snoc in Hparent.
    apply isdir_at_lookup in Hparent.
    + pose proof (eq_trans (eq_sym IH) Hparent) as X. discriminate X.
    + intros H. apply app_eq_nil in H as [-> _]. discriminate Hd.
Qed.

(** [os.makedirs] changes the tree at prefixes of the name only. *)
Lemma makedirs_at_only_prefixes (exist_ok : bool) (rname : list string) :
  forall fs fs',
    (makedirs_at exist_ok rname fs = inl fs'
     \/ makedirs_at exist_ok rname fs = inr fs') ->
    forall q, fs' !! q <> fs !! q -> exists k, rev rname = q ++ k.
Proof.
  induction rname as [|c rhead IH]; intros fs fs' H q Hq.
  - simpl in H. destruct H as [H|H]; [discriminate|].
    injection H as <-. congruence.
  - cbn [makedirs_at] in H.
    set (after_head :=
           match rhead with
           | [] => inl fs
           | _ :: _ =>
               if exists_at fs (rev rhead) then inl fs
               else makedirs_at exist_ok rhead fs
           end) in H.
    assert (Hhead : forall fs1, (after_head = inl fs1 \/ after_head = inr fs1) ->
                                fs1 !! q <> fs !! q ->
                                exists k, rev (c :: rhead) = q ++ k).
    { intros fs1 H1 Hq1.
      assert (Hsame : fs1 = fs \/ exists k, rev rhead = q ++ k).
      { subst after_head. destruct rhead as [|c' rhead'].
        - left. destruct H1 as [H1|H1]; [|discriminate]. now injection H1.
        - destruct (exists_at fs (rev (c' :: rhead'))).
          + left. destruct H1 as [H1|H1]; [|discriminate]. now injection H1.
          + right. eapply IH; eauto. }
      destruct Hsame as [->|(k & Hk)]; [congruence|].
      exists (k ++ [c]). cbn [rev]. rewrite Hk. now rewrite app_assoc. }
    destruct after_head as [fs1|fs1].
    + destruct (mkdir_at fs1 (rev (c :: rhead))) as [fs2|] eqn:Hmk.
      * destruct H as [H|H]; [|discriminate]. injection H as <-.
        apply mkdir_at_inv in Hmk as (-> & _ & _).
        destruct (decide (rev (c :: rhead) = q)) as [<-|Hne].
        -- exists []. now rewrite app_nil_r.
        -- rewrite lookup_insert_ne in Hq by exact Hne.
           apply (Hhead fs1); auto.
      * destruct (negb exist_ok || negb (isdir_at fs1 (rev (c :: rhead))));
          destruct H as [H|H]; try discriminate; injection H as <-;
          apply (Hhead fs1); auto.
    + destruct H as [H|H]; [discriminate|]. injection H as <-.
      apply (Hhead fs1); auto.
Qed.

(** [os.makedirs(name, exist_ok=True)] returns unless a regular file has
    the name of one of the directories. *)
Lemma makedirs_at_succeeds (rname : list string) :
  forall fs,
    (forall q k, q <> [] -> rev rname = q ++ k -> isfile_at fs q = false) ->
    rname <> [] ->
    exists fs1, makedirs_at true rname fs = inl fs1.
Proof.
  induction rname as [|c rhead IH]; intros fs Hfree Hne; [congruence|].
  cbn [makedirs_at].
  set (after_head :=
         match rhead with
         | [] => inl fs
         | _ :: _ =>
             if exists_at fs (rev rhead) then inl fs
             else makedirs_at true rhead fs
         end).
  assert (Hhead : exists fs1, after_head = inl fs1
                              /\ only_adds_dirs fs fs1
                              /\ isdir_at fs1 (rev rhead) = true).
  { subst after_head. destruct rhead as [|c' rhead'].
    - exists fs. auto using only_adds_dirs_refl.
    - destruct (exists_at fs (rev (c' :: rhead'))) eqn:Hex.
      + exists fs. split; [reflexivity|]. split; [apply only_adds_dirs_refl|].
        assert (Hnf : isfile_at fs (rev (c' :: rhead')) = false).
        { apply (Hfree _ [c]); [|reflexivity].
          cbn [rev]. intros H. now apply app_eq_nil in H as [_ H]. }
        unfold exists_at in Hex. unfold isfile_at in Hnf. unfold isdir_at.
        destruct (node_at fs (rev (c' :: rhead'))) as [[|c0]|];
          try reflexivity; discriminate.
      + destruct (IH fs) as (fs1 & Hfs1).
        * intros q k Hq Hk. apply (Hfree q (k ++ [c])); [exact Hq|].
          cbn [rev] in *. rewrite Hk. now rewrite app_assoc.
        * discriminate.
        * exists fs1. split; [exact Hfs1|].
          split; [eapply makedirs_at_only_adds; left; exact Hfs1|].
          now apply makedirs_at_isdir in Hfs1. }
  destruct Hhead as (fs1 & -> & Hadds & Hparent).
  destruct (mkdir_at fs1 (rev (c :: rhead))) as [fs2|] eqn:Hmk; [eauto|].
  assert (Hd : isdir_at fs1 (rev (c :: rhead)) = true).
  { unfold mkdir_at in Hmk. cbn [rev] in *. rewrite dirname_snoc, Hparent in Hmk.
    destruct (exists_at fs1 (rev rhead ++ [c])) eqn:Hex; [|discriminate].
    assert (Hnf : isfile_at fs (rev rhead ++ [c]) = false).
    { apply (Hfree _ []); [|now rewrite app_nil_r].
      intros H. now apply app_eq_nil in H as [_ H]. }
    unfold exists_at in Hex. unfold isdir_at.
    rewrite node_at_snoc in *.
    destruct (fs1 !! (rev rhead ++ [c])) as [[|c0]|] eqn:E;
      try reflexivity; try discriminate.
    apply (only_adds_dirs_files fs fs1 _ c0 Hadds) in E.
    unfold isfile_at in Hnf. rewrite node_at_snoc in Hnf.
    revert Hnf. destruct (fs !! _) as [[|c1]|]; discriminate. }
  rewrite Hd. cbn. eauto.
Qed.

(** One level: the parent is there and the name is free. *)
Lemma makedirs_at_one_level (exist_ok : bool) (parent : path) (name : string) fs :
  isdir_at fs parent = true ->
  exists_at fs (parent ++ [name]) = false ->
  makedirs_at exist_ok (rev (parent ++ [name])) fs
  = inl (<[parent ++ [name] := Dir]> fs).
Proof.
  intros Hparent Hfree. rewrite rev_app_distr. cbn [rev app makedirs_at].
  rewrite rev_involutive.
  assert (Hhead : match rev parent with
                  | [] => inl fs
                  | _ :: _ =>
                      if exists_at fs parent then inl fs
                      else makedirs_at exist_ok (rev parent) fs
                  end = (inl fs : gmap path node + gmap path node)).
  { destruct (rev parent); [reflexivity|].
    now rewrite (isdir_at_exists _ _ Hparent). }
  rewrite Hhead. unfold mkdir_at. rewrite Hfree, dirname_snoc, Hparent.
  reflexivity.
Qed.

End NewScene.

Section NewSceneStore.
Import STEpisodeGenerator.
Implicit Types (fs : gmap path node) (p q d : path).

Lemma map_filename_under_scene (self : t) :
  map_filename_of self
  = scene_dir_of self
    ++ ["topdown_maps";
        hash_2d_binary_array (top_down_map (super self)) +:+ ".npy"].
Proof. unfold map_filename_of, scene_dir_of. now rewrite <- app_assoc. Qed.

(** The hypotheses on the tree: it is well-formed, the scene directory
    does not exist, and no regular file has the name of a directory on the
    way to the output directory. *)
Lemma new_scene_free (self : t) fs (q k : path) :
  well_formed fs ->
  exists_at fs (scene_dir_of self) = false ->
  (forall q, q <> [] -> q `prefix_of` _output_dir self -> isfile_at fs q = false) ->
  q <> [] ->
  scene_dir_of self ++ ["topdown_maps"] = q ++ k ->
  isfile_at fs q = false.
Proof.
  intros Hwf Hscene Hout Hq Heq. unfold scene_dir_of in Heq.
  rewrite <- app_assoc in Heq. cbn [app] in Heq.
  apply app_eq_inv in Heq as [(k0 & Hk0 & _)|(k0 & Hk0 & Hrest)].
  - apply Hout; [exact Hq|]. now exists k0.
  - destruct k0 as [|a k0].
    + rewrite app_nil_r in Hk0. subst q. apply Hout; [exact Hq|].
      exists []. now rewrite app_nil_r.
    + cbn [app] in Hrest. injection Hrest as <- Hrest.
      assert (Hnone : fs !! q = None).
      { subst q. change (_scene_id (super self) :: k0)
          with ([_scene_id (super self)] ++ k0).
        rewrite app_assoc. now apply nothing_under_missing. }
      now apply lookup_none_not_file.
Qed.

Lemma new_scene_store (self : t) (w : world) :
  well_formed (files w) ->
  exists_at (files w) (scene_dir_of self) = false ->
  (forall q, q <> [] -> q `prefix_of` _output_dir self ->
             isfile_at (files w) q = false) ->
  let mf := map_filename_of self in
  let maps := scene_dir_of self ++ ["topdown_maps"] in
  let packed := packbits (flatten (top_down_map (super self))) in
  exists fs1 : gmap path node,
    store_if_absent self w
    = Ok mf (with_ids self)
         (World (<[mf := File (Npy packed)]> fs1) (trace w ++ [NpSave mf packed]))
    /\ only_adds_dirs (files w) fs1
    /\ well_formed fs1
    /\ isdir_at fs1 maps = true
    /\ isdir_at fs1 (scene_dir_of self) = true
    /\ (forall q, fs1 !! q <> files w !! q -> exists k, maps = q ++ k)
    /\ fs1 !! mf = None.
Proof.
  intros Hwf Hscene Hout. cbv zeta. rewrite store_if_absent_spec. cbv zeta.
  assert (Hmf : files w !! map_filename_of self = None).
  { rewrite map_filename_under_scene. now apply nothing_under_missing. }
  assert (Hnf : isfile_at (files w) (map_filename_of self) = false)
    by now apply lookup_none_not_file.
  rewrite Hnf, map_filename_dirname.
  destruct (makedirs_at_succeeds (rev (scene_dir_of self ++ ["topdown_maps"]))
              (files w)) as (fs1 & Hmk).
  { intros q k Hq Hk. rewrite rev_involutive in Hk.
    eapply new_scene_free; eauto. }
  { intros H. apply (f_equal (@length string)) in H.
    rewrite length_rev, length_app in H. cbn in H. lia. }
  rewrite Hmk.
  assert (Hadds : only_adds_dirs (files w) fs1)
    by (eapply makedirs_at_only_adds; left; exact Hmk).
  assert (Hwf1 : well_formed fs1)
    by (eapply makedirs_at_well_formed; [exact Hwf | left; exact Hmk]).
  assert (Hmaps : isdir_at fs1 (scene_dir_of self ++ ["topdown_maps"]) = true).
  { apply makedirs_at_isdir in Hmk. now rewrite rev_involutive in Hmk. }
  assert (Hpre : forall q, fs1 !! q <> files w !! q ->
                           exists k, scene_dir_of self ++ ["topdown_maps"] = q ++ k).
  { intros q Hq.
    destruct (makedirs_at_only_prefixes true _ (files w) fs1 (or_introl Hmk) q Hq)
      as (k & Hk).
    rewrite rev_involutive in Hk. eauto. }
  assert (Hsd : isdir_at fs1 (scene_dir_of self) = true).
  { apply isdir_at_lookup in Hmaps;
      [|intros H; now apply app_eq_nil in H as [_ H]].
    pose proof (Hwf1 _ _ Hmaps) as H. now rewrite dirname_snoc in H. }
  assert (Hmf1 : fs1 !! map_filename_of self = None).
  { destruct (Hadds (map_filename_of self)) as [Heq|[_ Hdir]].
    - now rewrite Heq.
    - exfalso. destruct (Hpre (map_filename_of self)) as (k & Hk).
      + rewrite Hdir, Hmf. discriminate.
      + rewrite map_filename_under_scene in Hk.
        apply (f_equal (@length string)) in Hk.
        rewrite !length_app in Hk. cbn in Hk. lia. }
  unfold write_at.
  rewrite <- map_filename_dirname in Hmaps. rewrite Hmaps.
  rewrite (lookup_none_not_dir fs1 _ (map_filename_nonempty self) Hmf1).
  cbn [negb andb]. exists fs1.
  rewrite map_filename_dirname in Hmaps. auto 10.
Qed.

(** After the map store in a new scene, [scene_dir/*/] matches the map
    directory and nothing else. *)
Lemma new_scene_glob (self : t) fs fs1 (c : content) :
  well_formed fs ->
  exists_at fs (scene_dir_of self) = false ->
  only_adds_dirs fs fs1 ->
  isdir_at fs1 (scene_dir_of self ++ ["topdown_maps"]) = true ->
  isdir_at fs1 (scene_dir_of self) = true ->
  (forall q, fs1 !! q <> fs !! q ->
             exists k, scene_dir_of self ++ ["topdown_maps"] = q ++ k) ->
  glob_star_slash (<[map_filename_of self := File c]> fs1) (scene_dir_of self)
  = [scene_dir_of self ++ ["topdown_maps"]].
Proof.
  intros Hwf Hscene Hadds Hmaps Hsd Hpre.
  set (sd := scene_dir_of self) in *.
  assert (Hmapsne : sd ++ ["topdown_maps"] <> [])
    by (intros H; now apply app_eq_nil in H as [_ H]).
  assert (Hmf_ne : sd ++ ["topdown_maps"] <> map_filename_of self).
  { rewrite map_filename_under_scene. fold sd. intros H.
    apply app_inv_head in H. discriminate H. }
  assert (Hsd_ne : sd <> map_filename_of self).
  { rewrite map_filename_under_scene. fold sd. intros H.
    apply (f_equal (@length string)) in H. rewrite length_app in H.
    cbn in H. lia. }
  unfold glob_star_slash. rewrite isdir_at_insert_ne by exact Hsd_ne.
  rewrite Hsd.
  assert (Hfilter :
    filter (fun e => matches_star_slash sd e = true)
           (<[map_filename_of self := File c]> fs1)
    = {[ sd ++ ["topdown_maps"] := Dir ]}).
  { apply map_eq. intros q. apply option_eq. intros x.
    rewrite map_lookup_filter_Some, lookup_singleton_Some. split.
    - intros [Hq Hmatch]. unfold matches_star_slash in Hmatch. cbn [fst snd] in Hmatch.
      destruct (last q) as [name|] eqn:Hlast; [|discriminate].
      apply andb_true_iff in Hmatch as [Hmatch Hx].
      apply andb_true_iff in Hmatch as [Hdn _].
      apply bool_decide_eq_true in Hdn. apply bool_decide_eq_true in Hx. subst x.
      assert (Hqsd : q = sd ++ [name]).
      { destruct q as [|a q'] using rev_ind; [discriminate Hlast|].
        rewrite last_snoc in Hlast. injection Hlast as ->.
        now rewrite dirname_snoc in Hdn; subst. }
      assert (Hq1 : fs1 !! q = Some Dir).
      { destruct (decide (q = map_filename_of self)) as [->|Hne].
        - rewrite lookup_insert_eq in Hq. discriminate Hq.
        - now rewrite lookup_insert_ne in Hq by congruence. }
      assert (Hq0 : fs !! q = None)
        by (rewrite Hqsd; now apply nothing_under_missing).
      destruct (Hpre q) as (k & Hk); [rewrite Hq1, Hq0; discriminate|].
      rewrite Hqsd, <- app_assoc in Hk. apply app_inv_head in Hk.
      cbn [app] in Hk. injection Hk as <- _. auto.
    - intros [<- <-]. split.
      + rewrite lookup_insert_ne by congruence.
        now apply isdir_at_lookup.
      + unfold matches_star_slash. cbn [fst snd].
        rewrite last_snoc, dirname_snoc.
        rewrite !bool_decide_eq_true_2 by reflexivity. reflexivity. }
  rewrite Hfilter, map_to_list_singleton. reflexivity.
Qed.

End NewSceneStore.

Section NewSceneFlush.
Import STEpisodeGenerator.
Implicit Types (fs : gmap path node) (p q d : path).

(** The two writes of a flush into a directory that is there. *)
Lemma write_record_into_dir (dir : path) (b : ExplorationData.t) (w : world) :
  dir <> [] ->
  isdir_at (files w) dir = true ->
  isdir_at (files w) (dir ++ [ExplorationData.json_name b]) = false ->
  isdir_at (files w) (dir ++ ["video.mp4"]) = false ->
  is_ok (ExplorationData.write_record b dir b w) = true.
Proof.
  intros Hne Hdir Hj Hv.
  unfold ExplorationData.write_record, json_dump_to, images_to_video,
    write_file, write_at, emit.
  unfold_m. rewrite (path_exists_nonempty _ _ Hne), (isdir_at_exists _ _ Hdir).
  cbn [negb]. cbv beta iota.
  rewrite !dirname_snoc, Hdir, Hj. cbn [negb andb]. cbv beta iota.
  cbn [files trace].
  rewrite (isdir_at_insert_file _ _ dir _ Hj), Hdir.
  rewrite (isdir_at_insert_file _ _ (dir ++ ["video.mp4"]) _ Hj), Hv.
  reflexivity.
Qed.

(** A flush returns when the buffer is consistent, the parent of the
    episode directory is a directory, the episode directory is missing or
    a directory, and no directory has the name of a target file. *)
Lemma record_succeeds (parent : path) (name : string)
    (b : ExplorationData.t) (w : world) :
  ExplorationData.lengths_agree b = true ->
  ExplorationData.ids_set b = true ->
  isdir_at (files w) parent = true ->
  (exists_at (files w) (parent ++ [name]) = false
   \/ isdir_at (files w) (parent ++ [name]) = true) ->
  isdir_at (files w) ((parent ++ [name]) ++ [ExplorationData.json_name b]) = false ->
  isdir_at (files w) ((parent ++ [name]) ++ ["video.mp4"]) = false ->
  is_ok (ExplorationData.record (parent ++ [name]) b w) = true.
Proof.
  intros Hlen Hids Hparent Hdir Hj Hv.
  rewrite record_asserts, Hlen, Hids. cbn [andb].
  assert (Hnil : parent ++ [name] <> [])
    by (intros H; now apply app_eq_nil in H as [_ H]).
  destruct Hdir as [Hfree|Hdir]; [|now apply write_record_into_dir].
  pose proof (write_record_into_dir (parent ++ [name]) b
                (World (<[parent ++ [name] := Dir]> (files w)) (trace w))
                Hnil) as Hin.
  cbn [files] in Hin.
  assert (Hne1 : (parent ++ [name]) ++ [ExplorationData.json_name b]
                 <> parent ++ [name]) by apply snoc_neq_self.
  assert (Hne2 : (parent ++ [name]) ++ ["video.mp4"] <> parent ++ [name])
    by apply snoc_neq_self.
  rewrite (isdir_at_insert_ne _ _ _ _ Hne1), (isdir_at_insert_ne _ _ _ _ Hne2) in Hin.
  assert (Hnew : isdir_at (<[parent ++ [name] := Dir]> (files w))
                          (parent ++ [name]) = true).
  { unfold isdir_at. rewrite node_at_snoc, lookup_insert_eq. reflexivity. }
  specialize (Hin Hnew Hj Hv). revert Hin.
  unfold ExplorationData.write_record, os_makedirs. unfold_m.
  rewrite !path_exists_snoc, Hfree. cbn [negb]. cbv beta iota.
  rewrite (makedirs_at_one_level false parent name (files w) Hparent Hfree).
  cbn [files]. rewrite (isdir_at_exists _ _ Hnew). cbn [negb]. cbv beta iota.
  auto.
Qed.

End NewSceneFlush.

(** X19. The first episode of a new scene: when the output directory and
    the scene id are made of plain names without the pattern characters of
    [glob] and the episode id prints as a plain name, on a well-formed
    tree in which the scene directory does not exist yet and no regular
    file has the name of a directory leading to the output directory, the
    map store returns and the count found by the persister is exactly one
    (the map directory it has just created).  With a quota of one or less
    the process therefore quits and no episode record is written.  With a
    quota of two or more it does not quit: a consistent episode is
    announced by the line "Saved 1 of ..." and its JSON record is
    written. *)
Theorem X19_first_episode_of_new_scene
    (self : STEpisodeGenerator.t) (w : world) :
  literal_path (STEpisodeGenerator.scene_dir_of self) = true ->
  is_name (str_of_id (episode_id (STEpisodeGenerator._episode
                                    (STEpisodeGenerator.super self)))) = true ->
  well_formed (files w) ->
  exists_at (files w) (STEpisodeGenerator.scene_dir_of self) = false ->
  (forall q : path,
      q <> [] -> q `prefix_of` STEpisodeGenerator._output_dir self ->
      isfile_at (files w) q = false) ->
  ExplorationData.lengths_agree (STEpisodeGenerator._exploration_data self)
  = true ->
  let stored := STEpisodeGenerator.store_if_absent self w in
  let o := STEpisodeGenerator._save_last_episode self w in
  is_ok stored = true
  /\ glob_star_slash (files (final_world stored))
                     (STEpisodeGenerator.scene_dir_of self)
     = [STEpisodeGenerator.scene_dir_of self ++ ["topdown_maps"]]
  /\ ((STEpisodeGenerator._num_episodes self <= 1)%Z ->
      is_exit o = true
      /\ json_dumps (trace (final_world o)) = json_dumps (trace w))
  /\ ((2 <= STEpisodeGenerator._num_episodes self)%Z ->
      is_exit o = false
      /\ Print ("Saved 1 of "
                +:+ str_of_Z (STEpisodeGenerator._num_episodes self)
                +:+ " episodes for "
                +:+ STEpisodeGenerator._scene_id (STEpisodeGenerator.super self))
         ∈ trace (final_world o)
      /\ json_dumps (trace (final_world o)) = S (json_dumps (trace w))).
Proof.
  intros _ _ Hwf Hscene Hout Hlen. cbv zeta.
  destruct (new_scene_store self w Hwf Hscene Hout)
    as (fs1 & Hstore & Hadds & Hwf1 & Hmaps & Hsd & Hpre & Hmf1).
  cbv zeta in Hstore.
  pose proof (new_scene_glob self (files w) fs1
                (Npy (packbits (flatten (STEpisodeGenerator.top_down_map
                                           (STEpisodeGenerator.super self)))))
                Hwf Hscene Hadds Hmaps Hsd Hpre) as Hglob.
  assert (Hstored : is_ok (STEpisodeGenerator.store_if_absent self w) = true)
    by (rewrite Hstore; reflexivity).
  assert (Hcount : glob_star_slash
                     (files (final_world (STEpisodeGenerator.store_if_absent self w)))
                     (STEpisodeGenerator.scene_dir_of self)
                   = [STEpisodeGenerator.scene_dir_of self ++ ["topdown_maps"]])
    by (rewrite Hstore; exact Hglob).
  assert (Hboth :
    ((2 <= STEpisodeGenerator._num_episodes self)%Z ->
     is_ok (STEpisodeGenerator._save_last_episode self w) = true)
    /\ ((STEpisodeGenerator._num_episodes self <= 1)%Z ->
        is_exit (STEpisodeGenerator._save_last_episode self w) = true)).
  { rewrite save_last_episode_spec, Hstore. cbn [is_ok final_world files].
    rewrite persist_episode_spec. cbv zeta. cbn [files].
    rewrite scene_dir_of_with_ids, Hglob. cbn [length].
    change (STEpisodeGenerator._num_episodes (STEpisodeGenerator.with_ids self))
      with (STEpisodeGenerator._num_episodes self).
    destruct (Z.geb_spec (Z.of_nat 1) (STEpisodeGenerator._num_episodes self))
      as [Hge|Hlt].
    - split; [lia | reflexivity].
    - split; [|lia]. intros _.
      set (sd := STEpisodeGenerator.scene_dir_of self) in *.
      set (mf := STEpisodeGenerator.map_filename_of self) in *.
      assert (Hmfnd : isdir_at fs1 mf = false)
        by (apply lookup_none_not_dir;
            [apply map_filename_nonempty | exact Hmf1]).
      assert (Hfresh : forall k : list string,
                 (2 <= length k)%nat -> isdir_at fs1 (sd ++ k) = false).
      { intros k Hk. apply lookup_none_not_dir.
        - intros H. apply app_eq_nil in H as [_ ->]. cbn in Hk. lia.
        - destruct (Hadds (sd ++ k)) as [Heq|[_ Hdir]].
          + rewrite Heq. now apply nothing_under_missing.
          + exfalso. destruct (Hpre (sd ++ k)) as (k' & Hk').
            * intros Hc.
              pose proof (nothing_under_missing _ sd k Hwf Hscene) as Hn.
              pose proof (eq_trans (eq_sym Hn) (eq_trans (eq_sym Hc) Hdir)) as X.
              discriminate X.
            * rewrite <- app_assoc in Hk'. apply app_inv_head in Hk'.
              apply (f_equal (@length string)) in Hk'.
              rewrite length_app in Hk'. cbn in Hk'. lia. }
      match goal with
      | |- context [ExplorationData.record (sd ++ [?name]) ?b ?w0] =>
          pose proof (record_succeeds sd name b w0) as Hrec
      end.
      unfold emit in Hrec. cbn [files] in Hrec.
      rewrite !(isdir_at_insert_file fs1 mf _ _ Hmfnd) in Hrec.
      rewrite <- !app_assoc in Hrec.
      specialize (Hrec Hlen eq_refl Hsd).
      assert (Hep : forall name : string,
                 exists_at (<[mf := File (Npy (packbits (flatten
                              (STEpisodeGenerator.top_down_map
                                 (STEpisodeGenerator.super self)))))]> fs1)
                           (sd ++ [name]) = false
                 \/ isdir_at fs1 (sd ++ [name]) = true).
      { intros name.
        assert (Hne : sd ++ [name] <> mf).
        { subst mf. rewrite map_filename_under_scene. fold sd. intros H.
          apply app_inv_head in H. discriminate H. }
        destruct (Hadds (sd ++ [name])) as [Heq|[_ Hdir]].
        - left. apply lookup_none_not_exists;
            [intros H; now apply app_eq_nil in H as [_ H]|].
          rewrite lookup_insert_ne by congruence.
          rewrite Heq. now apply nothing_under_missing.
        - right. now apply lookup_dir_isdir. }
      specialize (Hrec (Hep _)).
      specialize (Hrec (Hfresh [_; _] ltac:(cbn; lia))
                       (Hfresh [_; _] ltac:(cbn; lia))).
      unfold emit. cbn [files trace].
      destruct (ExplorationData.record _ _ _); [reflexivity | discriminate Hrec..]. }
  destruct Hboth as [Hsave Hquit].
  split; [exact Hstored|]. split; [exact Hcount|]. split.
  - intros Hq. pose proof (Hquit Hq) as Hexit. split; [exact Hexit|].
    destruct (save_last_episode_exit self w) as [_ Heff]. cbv zeta in Heff.
    now destruct (Heff Hexit) as (_ & _ & Hd & _).
  - intros Hq. pose proof (Hsave Hq) as Hok.
    split; [|split].
    + destruct (STEpisodeGenerator._save_last_episode self w);
        [reflexivity | discriminate Hok..].
    + destruct (save_last_episode_layout self w Hok)
        as (_ & _ & _ & _ & _ & Htrace).
      cbv zeta in Htrace. rewrite Hcount in Htrace. rewrite Htrace.
      apply elem_of_app. right. apply list_elem_of_here.
    + now apply save_last_episode_ok_dumps.
Qed.

(** The demo sensor on an empty tree: with a quota of two the first
    episode is announced as the second and its record is written, with a
    quota of one the process quits. *)
Lemma X19_first_episode_of_new_scene_witness :
  let o2 := STEpisodeGenerator._save_last_episode (demo_sensor 11 2) empty_world in
  let o1 := STEpisodeGenerator._save_last_episode (demo_sensor 11 1) empty_world in
  literal_path (STEpisodeGenerator.scene_dir_of (demo_sensor 11 2)) = true
  /\ Print "Saved 1 of 2 episodes for sceneA" ∈ trace (final_world o2)
  /\ json_dumps (trace (final_world o2)) = 1%nat
  /\ is_exit o1 = true
  /\ json_dumps (trace (final_world o1)) = 0%nat.
Proof.
  cbv zeta.
  assert (Hwf : well_formed (files empty_world)).
  { intros p n H. cbn in H. rewrite lookup_empty in H. discriminate H. }
  assert (Hfree : forall (out : path) (q : path),
             q <> [] -> q `prefix_of` out -> isfile_at (files empty_world) q = false).
  { intros out q Hq _. apply lookup_none_not_file. apply lookup_empty. }
  split; [vm_compute; reflexivity|].
  destruct (X19_first_episode_of_new_scene (demo_sensor 11 2) empty_world)
    as (_ & _ & _ & Hsave);
    [vm_compute; reflexivity | vm_compute; reflexivity | exact Hwf
    | vm_compute; reflexivity | apply Hfree | vm_compute; reflexivity |].
  destruct (X19_first_episode_of_new_scene (demo_sensor 11 1) empty_world)
    as (_ & _ & Hquit & _);
    [vm_compute; reflexivity | vm_compute; reflexivity | exact Hwf
    | vm_compute; reflexivity | apply Hfree | vm_compute; reflexivity |].
  cbv zeta in Hsave, Hquit.
  destruct Hsave as (_ & Hline & Hdumps); [vm_compute; discriminate|].
  destruct Hquit as (Hexit & Hnone); [vm_compute; discriminate|].
  split; [exact Hline|]. split; [exact Hdumps|]. split; [exact Hexit|exact Hnone].
Defined.

(* --------------------------------------------------------------------- *)
(** ** What is never touched                                              *)
(* --------------------------------------------------------------------- *)

Section Kept.
Import STEpisodeGenerator.
Implicit Types (fs : gmap path node) (p q : path).

Lemma only_adds_dirs_keeps fs fs' q (n : node) :
  only_adds_dirs fs fs' -> fs !! q = Some n -> fs' !! q = Some n.
Proof.
  intros H Hq. destruct (H q) as [Heq|[Hnone _]].
  - now rewrite Heq.
  - rewrite Hq in Hnone. discriminate Hnone.
Qed.

(** However [record] ends, the entries other than its two targets are
    kept. *)
Lemma record_keeps (dir : path) (b : ExplorationData.t) (w : world) q (n : node) :
  q <> dir ++ [ExplorationData.json_name b] ->
  q <> dir ++ ["video.mp4"] ->
  files w !! q = Some n ->
  files (final_world (ExplorationData.record dir b w)) !! q = Some n.
Proof.
  intros Hj Hv Hq. rewrite record_asserts.
  destruct (ExplorationData.lengths_agree b && ExplorationData.ids_set b);
    [|exact Hq].
  unfold ExplorationData.write_record, json_dump_to, images_to_video,
    write_file, os_makedirs, emit.
  unfold_m.
  assert (Hwrites : forall fs1, fs1 !! q = Some n ->
    files (final_world
      match
        match write_at fs1 (dir ++ [ExplorationData.json_name b])
                (Json (ExplorationData.json_doc b)) with
        | Some fs' =>
            Ok tt b (World fs' (trace w ++ [JsonDump
                                   (dir ++ [ExplorationData.json_name b])
                                   (ExplorationData.json_doc b)]))
        | None => Raise OSError b (World fs1 (trace w))
        end
      with
      | Ok _ self' w' =>
          match write_at (files w') (dir ++ ["video.mp4"])
                  (Mp4 (ExplorationData._rgb_images b)) with
          | Some fs' =>
              Ok tt self'
                 (World fs' (trace w' ++ [ImagesToVideo
                                            (ExplorationData._rgb_images b)
                                            (dir ++ ["video.mp4"])]))
          | None => Raise OSError self' w'
          end
      | Raise e self' w' => Raise e self' w'
      | Exit self' w' => Exit self' w'
      end) !! q = Some n).
  { intros fs1 H1.
    destruct (write_at fs1 _ _) as [fs2|] eqn:Hw2; [|exact H1].
    apply write_at_inv in Hw2 as (-> & _ & _). cbn [files trace].
    destruct (write_at _ (dir ++ ["video.mp4"]) _) as [fs3|] eqn:Hw3.
    - apply write_at_inv in Hw3 as (-> & _ & _). cbn [final_world files].
      now rewrite !lookup_insert_ne by congruence.
    - cbn [final_world files]. now rewrite lookup_insert_ne by congruence. }
  destruct (path_exists (files w) dir); cbn [negb]; cbv beta iota.
  - destruct w as [fs tr]. cbn [files trace] in *. now apply Hwrites.
  - destruct (makedirs_at false (rev dir) (files w)) as [fs1|fs1] eqn:Hmk.
    + cbn [files trace]. apply Hwrites.
      eapply only_adds_dirs_keeps; [|exact Hq].
      eapply makedirs_at_only_adds. left. exact Hmk.
    + cbn [final_world files].
      eapply only_adds_dirs_keeps; [|exact Hq].
      eapply makedirs_at_only_adds. right. exact Hmk.
Qed.

Lemma store_if_absent_keeps (self : t) (w : world) q (n : node) :
  files w !! q = Some n ->
  files (final_world (store_if_absent self w)) !! q = Some n.
Proof.
  intros Hq. rewrite store_if_absent_spec. cbv zeta.
  destruct (isfile_at (files w) (map_filename_of self)) eqn:Hfile; [exact Hq|].
  destruct (makedirs_at _ _ _) as [fs1|fs1] eqn:Hmk.
  - assert (Hq1 : fs1 !! q = Some n).
    { eapply only_adds_dirs_keeps; [|exact Hq].
      eapply makedirs_at_only_adds. left. exact Hmk. }
    destruct (write_at fs1 _ _) as [fs2|] eqn:Hw; [|exact Hq1].
    apply write_at_inv in Hw as (-> & _ & Hnd). cbn [final_world files].
    destruct (decide (q = map_filename_of self)) as [->|Hne];
      [|now rewrite lookup_insert_ne by congruence].
    exfalso. destruct n as [|c].
    + apply lookup_dir_isdir in Hq1. congruence.
    + unfold isfile_at, node_at in Hfile.
      destruct (map_filename_of self); [discriminate Hnd|].
      rewrite Hq in Hfile. discriminate Hfile.
  - cbn [final_world files].
    eapply only_adds_dirs_keeps; [|exact Hq].
    eapply makedirs_at_only_adds. right. exact Hmk.
Qed.

Lemma save_last_episode_keeps (self : t) (w : world) q (n : node) :
  let episode_dir :=
    scene_dir_of self ++ [str_of_id (episode_id (_episode (super self)))] in
  q <> episode_dir
       ++ [_scene_id (super self) +:+ "_"
           +:+ str_of_id (episode_id (_episode (super self))) +:+ ".json"] ->
  q <> episode_dir ++ ["video.mp4"] ->
  files w !! q = Some n ->
  files (final_world (_save_last_episode self w)) !! q = Some n.
Proof.
  cbv zeta. intros Hj Hv Hq. rewrite save_last_episode_spec.
  pose proof (store_if_absent_keeps self w q n Hq) as Hstore.
  pose proof (store_if_absent_final_self self w) as Hs.
  destruct (store_if_absent self w) as [p s1 w1| |];
    cbn [final_world final_self] in *; try exact Hstore.
  subst s1. rewrite persist_episode_spec. cbv zeta.
  destruct (Z.of_nat _ >=? _)%Z; [exact Hstore|].
  match goal with
  | |- context [ExplorationData.record ?dir ?b ?w0] =>
      pose proof (record_keeps dir b w0 q n) as Hrec;
      destruct (ExplorationData.record dir b w0)
  end; cbn [final_world files emit] in *; apply Hrec; assumption.
Qed.

End Kept.

(** X20. Nothing else is touched: however [_reset] ends, every entry of
    the tree other than the two target files of the finished episode (its
    JSON document and its video) is still there and unchanged: earlier
    episodes, maps already stored, and directories are never removed,
    replaced or rewritten. *)
Theorem X20_reset_keeps_other_entries
    (base_reset : episode -> STEpisodeGenerator.base -> STEpisodeGenerator.base)
    (next : episode) (self : STEpisodeGenerator.t) (w : world)
    (q : path) (n : node) :
  let b := STEpisodeGenerator.super self in
  let ep := str_of_id (episode_id (STEpisodeGenerator._episode b)) in
  let episode_dir := STEpisodeGenerator.scene_dir_of self ++ [ep] in
  q <> episode_dir
       ++ [STEpisodeGenerator._scene_id b +:+ "_" +:+ ep +:+ ".json"] ->
  q <> episode_dir ++ ["video.mp4"] ->
  files w !! q = Some n ->
  files (final_world (STEpisodeGenerator._reset base_reset next self w)) !! q
  = Some n.
Proof.
  cbv zeta. intros Hj Hv Hq. rewrite reset_spec.
  destruct (STEpisodeGenerator._is_last_episode_valid self); [|exact Hq].
  pose proof (save_last_episode_keeps self w q n Hj Hv Hq) as Hkeep.
  destruct (STEpisodeGenerator._save_last_episode self w); exact Hkeep.
Qed.

(** The map stored by episode 7 is still there, unchanged, after episode
    8 has been saved. *)
Lemma X20_reset_keeps_other_entries_witness :
  let w1 := final_world (STEpisodeGenerator._save_last_episode
                           (demo_sensor 11 1000) empty_world) in
  let mf := STEpisodeGenerator.map_filename_of (demo_sensor 11 1000) in
  files (final_world
           (STEpisodeGenerator._reset demo_reset (Episode (IdStr "9") "sceneA.glb")
              (demo_sensor_for "8" 11 1000) w1)) !! mf
  = Some (File (Npy (packbits (flatten demo_map)))).
Proof.
  cbv zeta.
  apply (X20_reset_keeps_other_entries demo_reset
           (Episode (IdStr "9") "sceneA.glb") (demo_sensor_for "8" 11 1000)).
  - vm_compute. discriminate.
  - vm_compute. discriminate.
  - vm_compute. reflexivity.
Defined.
